(** * gpu_monitor.py: a shallow embedding of the polling pipeline

    The development follows [src/gpu_monitor.py]: command construction
    ([parse_server], [build_ssh_command]), the two telemetry fetchers
    ([run_nvidiasmi_local], [run_nvidiasmi_remote]), the parser
    ([get_gpu_infos]), owner resolution ([get_user_info]), the renderer
    ([display_gpu_infos]) and the polling loop ([main]).

    Conventions of the model.
    - Python [str] and [bytes] values are Rocq strings of ASCII characters;
      [bytes.decode()] is the identity on them.
    - Python [int] is [Z]; the interpreter's limit on the number of digits
      accepted by [int()] is not modelled.
    - A Python exception is a value of [exn]; a computation that may raise
      returns a [result].
    - The outside world is explicit.  The environment [env] holds the parsed
      command line, the outcome of every sub-process and the XML parser
      [ET.fromstring]; the state [world] holds the sub-processes run so far,
      the log and the curses window.
    - The window follows the documented behaviour of [curses]: a write
      outside the window raises curses.error and changes nothing, text wraps
      at the right margin, and writing into the lower right corner raises
      after the character is painted.  [curses.LINES] and [curses.COLS] are
      the size of the window.  The text written is taken to be printable:
      every character takes one cell.  What curses does with a control
      character (a tab is expanded to the next tab stop, a carriage return
      or a newline moves the cursor) is not modelled, and the properties
      that read text back from the window are stated for printable text.
    - Colour initialisation, [stdscr.refresh()], [time.sleep] and the
      reading of the server file have no part in the properties and are left
      out: [main] takes the list of servers. *)

From Stdlib Require Import ZArith String Ascii List Bool Lia.
From Stdlib Require Import DecimalString DecimalPos DecimalFacts.
From stdpp Require Import base option list gmap strings.

Import ListNotations.
Local Open Scope string_scope.
Local Open Scope Z_scope.

(** ** Exceptions and results *)

Inductive exn : Type :=
  | ValueError        (* int() on a non-numeric token *)
  | AttributeError    (* [.text] of a missing node, [.split] of a missing text *)
  | IndexError        (* [split()[0]] of a blank text *)
  | TypeError         (* [','.join] over a list holding None *)
  | ParseError        (* xml.etree.ElementTree.ParseError *)
  | OSError           (* the program to spawn does not exist *)
  | CursesError.      (* curses.error *)

Inductive result (A : Type) : Type :=
  | Ok (a : A)
  | Raise (e : exn).
Arguments Ok {A} a.
Arguments Raise {A} e.

Definition rbind {A B} (r : result A) (k : A -> result B) : result B :=
  match r with
  | Ok a => k a
  | Raise e => Raise e
  end.

#[global] Instance result_ret : MRet result := fun _ a => Ok a.
#[global] Instance result_bind : MBind result := fun _ _ k r => rbind r k.

Fixpoint rmap {A B} (f : A -> result B) (l : list A) : result (list B) :=
  match l with
  | [] => Ok []
  | a :: l' => b ← f a; bs ← rmap f l'; Ok (b :: bs)
  end.

Definition is_ok {A} (r : result A) : bool :=
  match r with Ok _ => true | Raise _ => false end.

(** ** Python string primitives *)

Module Py.

(** [str.isspace] on one ASCII character: TAB, LF, VT, FF, CR, the four
    separators FS GS RS US, and the blank. *)
Definition is_space (c : ascii) : bool :=
  let n := nat_of_ascii c in
  ((9 <=? n)%nat && (n <=? 13)%nat) || ((28 <=? n)%nat && (n <=? 32)%nat).

Definition is_digit (c : ascii) : bool :=
  let n := nat_of_ascii c in (48 <=? n)%nat && (n <=? 57)%nat.

Definition digit_val (c : ascii) : Z := Z.of_nat (nat_of_ascii c) - 48.

Definition flush (cur : list ascii) : list string :=
  match cur with
  | [] => []
  | _ => [string_of_list_ascii (rev cur)]
  end.

(** [s.split()]: the maximal runs of non-blank characters, in order.
    [cur] is the run being read, last character first. *)
Fixpoint split_go (cur : list ascii) (s : string) : list string :=
  match s with
  | EmptyString => flush cur
  | String c s' =>
      if is_space c then (flush cur ++ split_go [] s')%list
      else split_go (c :: cur) s'
  end.

Definition split (s : string) : list string := split_go [] s.

(** The digits of an [int()] literal in base ten; single underscores are
    allowed between two digits.  [prev] tells that the previous character
    was a digit. *)
Fixpoint parse_digits (acc : Z) (prev : bool) (s : string) : option Z :=
  match s with
  | EmptyString => if prev then Some acc else None
  | String c s' =>
      if is_digit c then parse_digits (10 * acc + digit_val c) true s'
      else if Ascii.eqb c "_" then
        (if prev then parse_digits acc false s' else None)
      else None
  end.

(** [int(tok)] for a token without blanks: an optional sign, then the
    digits. *)
Definition int (tok : string) : result Z :=
  let r :=
    match tok with
    | String "+" ds => parse_digits 0 false ds
    | String "-" ds => Z.opp <$> parse_digits 0 false ds
    | _ => parse_digits 0 false tok
    end in
  match r with
  | Some z => Ok z
  | None => Raise ValueError
  end.

(** [str(z)] for an [int]. *)
Definition str_of_int (z : Z) : string := NilZero.string_of_int (Z.to_int z).

(** [sep.join(l)] for a list of [str]. *)
Fixpoint join (sep : string) (l : list string) : string :=
  match l with
  | [] => ""
  | [s] => s
  | s :: l' => s ++ sep ++ join sep l'
  end.

(** [s.startswith(p)] *)
Definition startswith (p s : string) : bool := String.prefix p s.

(** [s[n:]] *)
Definition drop (n : nat) (s : string) : string :=
  String.substring n (String.length s - n) s.

(** [c * n] for a one-character string and an [int]; empty when [n <= 0]. *)
Definition repeat_char (c : ascii) (n : Z) : string :=
  string_of_list_ascii (List.repeat c (Z.to_nat n)).

(** [s.strip()] *)
Fixpoint lstrip (s : string) : string :=
  match s with
  | String c s' => if is_space c then lstrip s' else s
  | EmptyString => EmptyString
  end.

Definition srev (s : string) : string :=
  string_of_list_ascii (rev (list_ascii_of_string s)).

Definition strip (s : string) : string := srev (lstrip (srev (lstrip s))).

(** [s.split("\n")]: the fields between line feeds; never empty. *)
Fixpoint split_nl_go (cur : list ascii) (s : string) : list string :=
  match s with
  | EmptyString => [string_of_list_ascii (rev cur)]
  | String c s' =>
      if Ascii.eqb c "010" then
        string_of_list_ascii (rev cur) :: split_nl_go [] s'
      else split_nl_go (c :: cur) s'
  end.

Definition split_nl (s : string) : list string := split_nl_go [] s.

End Py.

(** ** Configuration: the parsed command line ([args]) *)

Record Args : Type := {
  ssh_user : option string;   (* --ssh-user, default None *)
  ssh_timeout : Z;            (* --ssh-timeout, default DEFAULT_SSH_TIMEOUT *)
  cmd_timeout : Z;            (* --cmd-timeout, default DEFAULT_CMD_TIMEOUT *)
}.

Definition DEFAULT_SSH_TIMEOUT : Z := 5.
Definition DEFAULT_CMD_TIMEOUT : Z := 10.

Definition default_args : Args :=
  {| ssh_user := None;
     ssh_timeout := DEFAULT_SSH_TIMEOUT;
     cmd_timeout := DEFAULT_CMD_TIMEOUT |}.

(** ** The element tree handed back by [ET.fromstring] *)

#[warnings="-register-all"]
Inductive element : Type :=
  | Element (tag : string) (text : option string) (children : list element).

Definition tag_of (e : element) : string :=
  match e with Element t _ _ => t end.
Definition text_of (e : element) : option string :=
  match e with Element _ t _ => t end.
Definition children_of (e : element) : list element :=
  match e with Element _ _ c => c end.

(** [e.findall(path)] for a path [t1/t2/...] of plain tags: the children
    tagged [t1], then their children tagged [t2], in document order. *)
Fixpoint findall (path : list string) (e : element) : list element :=
  match path with
  | [] => [e]
  | t :: path' =>
      flat_map (findall path')
        (List.filter (fun c => String.eqb (tag_of c) t) (children_of e))
  end.

(** [e.find(path)]: the first match, or None. *)
Definition find (path : list string) (e : element) : option element :=
  head (findall path e).

(** [node.text] where [node] may be None. *)
Definition dot_text (node : option element) : result (option string) :=
  match node with
  | Some e => Ok (text_of e)
  | None => Raise AttributeError
  end.

(** [int(node.text.split()[0])] *)
Definition int_field (node : option element) : result Z :=
  t ← dot_text node;
  match t with
  | None => Raise AttributeError
  | Some s =>
      match Py.split s with
      | [] => Raise IndexError
      | tok :: _ => Py.int tok
      end
  end.

(** ** The device records built by [get_gpu_infos] *)

Record process : Type := {
  pid : option string;
  used_memory : Z;
}.

Record gpu_info : Type := {
  index : option string;
  name : option string;
  memory_total : Z;
  memory_used : Z;
  memory_free : Z;
  processes : list process;
}.

Definition parse_process (p : element) : result process :=
  pid_ ← dot_text (find ["pid"] p);
  used ← int_field (find ["used_memory"] p);
  Ok {| pid := pid_; used_memory := used |}.

Definition parse_gpu (gpu : element) : result gpu_info :=
  idx ← dot_text (find ["minor_number"] gpu);
  nm ← dot_text (find ["product_name"] gpu);
  total ← int_field (find ["fb_memory_usage"; "total"] gpu);
  used ← int_field (find ["fb_memory_usage"; "used"] gpu);
  free ← int_field (find ["fb_memory_usage"; "free"] gpu);
  procs ← rmap parse_process (findall ["processes"; "process_info"] gpu);
  Ok {| index := idx; name := nm; memory_total := total;
        memory_used := used; memory_free := free; processes := procs |}.

(** ** Sub-processes *)

(** One call of [subprocess.check_output]: an argument vector, or a shell
    command line ([shell=True]), with its [timeout]. *)
Inductive invocation : Type :=
  | Argv (argv : list string) (timeout : Z)
  | Shell (cmd : string) (timeout : Z).

(** How such a call ends. *)
Inductive outcome : Type :=
  | Completed (out : string)              (* exit status 0, the bytes of stdout *)
  | TimeoutExpired                        (* subprocess.TimeoutExpired *)
  | CalledProcessError (returncode : Z)   (* subprocess.CalledProcessError *)
  | SpawnFailed.                          (* OSError: no such program *)

(** The command line carried by an invocation: the shell string, or the last
    word of the vector (the remote command of an ssh call). *)
Definition command_of (i : invocation) : string :=
  match i with
  | Shell c _ => c
  | Argv v _ => List.last v ""
  end.

(** ** The environment *)

Record env : Type := {
  args : Args;
  (** the outcome of a call, given the calls made before it *)
  check_output : list invocation -> invocation -> outcome;
  (** [xml.etree.ElementTree.fromstring] *)
  fromstring : string -> result element;
}.

(** ** Logging *)

(** [logging.error(text)], or [logging.error(text + str(e))] for the
    CalledProcessError [e] of the invocation [inv] with exit status [rc]. *)
Inductive log_entry : Type :=
  | LogError (text : string)
  | LogErrorExc (text : string) (inv : invocation) (rc : Z).

(** ** The terminal window ([stdscr])

    A window has [LINES] rows and [COLS] columns, a cursor, and the cells
    painted so far (newest first).  Writing a character paints the cell
    under the cursor and advances it, wrapping at the right margin; at the
    bottom-right corner the cursor cannot advance and the write reports an
    error (the window does not scroll). *)

Record cell : Type := {
  cell_y : Z;
  cell_x : Z;
  cell_ch : ascii;
  cell_attr : Z;    (* the colour pair *)
}.

Record window : Type := {
  LINES : Z;
  COLS : Z;
  cur_y : Z;
  cur_x : Z;
  cells : list cell;
}.

Definition in_window (w : window) (y x : Z) : bool :=
  (0 <=? y) && (y <? LINES w) && (0 <=? x) && (x <? COLS w).

(** waddch, for a printable character: [true] when the character was
    written and the cursor moved on. *)
Definition waddch (w : window) (c : ascii) (a : Z) : bool * window :=
  let painted :=
    {| cell_y := cur_y w; cell_x := cur_x w; cell_ch := c; cell_attr := a |}
    :: cells w in
  if cur_x w + 1 <? COLS w then
    (true, {| LINES := LINES w; COLS := COLS w;
              cur_y := cur_y w; cur_x := cur_x w + 1; cells := painted |})
  else if cur_y w + 1 <? LINES w then
    (true, {| LINES := LINES w; COLS := COLS w;
              cur_y := cur_y w + 1; cur_x := 0; cells := painted |})
  else
    (false, {| LINES := LINES w; COLS := COLS w;
               cur_y := cur_y w; cur_x := cur_x w; cells := painted |}).

(** waddstr: character by character, stopping at the first error. *)
Fixpoint waddstr (w : window) (s : string) (a : Z) : bool * window :=
  match s with
  | EmptyString => (true, w)
  | String c s' =>
      match waddch w c a with
      | (true, w') => waddstr w' s' a
      | (false, w') => (false, w')
      end
  end.

(** wmove: [None] when the position is outside the window. *)
Definition wmove (w : window) (y x : Z) : option window :=
  if in_window w y x then
    Some {| LINES := LINES w; COLS := COLS w;
            cur_y := y; cur_x := x; cells := cells w |}
  else None.

(** [stdscr.addstr(y, x, s, attr)]; [false] stands for curses.error. *)
Definition addstr_at (w : window) (y x : Z) (s : string) (a : Z) : bool * window :=
  match wmove w y x with
  | Some w' => waddstr w' s a
  | None => (false, w)
  end.

(** [stdscr.addch(y, x, c)] *)
Definition addch_at (w : window) (y x : Z) (c : ascii) : bool * window :=
  match wmove w y x with
  | Some w' => waddch w' c 0
  | None => (false, w)
  end.

(** [stdscr.clear()] *)
Definition clear (w : window) : window :=
  {| LINES := LINES w; COLS := COLS w; cur_y := 0; cur_x := 0; cells := [] |}.

(** What the window shows at a position: the newest cell painted there. *)
Definition char_at (w : window) (y x : Z) : option (ascii * Z) :=
  (fun c => (cell_ch c, cell_attr c)) <$>
    List.find (fun c => (cell_y c =? y) && (cell_x c =? x)) (cells w).

(** The text of row [y] from column [x] on, up to the first unpainted cell
    or [n] characters. *)
Fixpoint row_text (w : window) (y x : Z) (n : nat) : string :=
  match n with
  | O => ""
  | S n' =>
      match char_at w y x with
      | Some (c, _) => String c (row_text w y (x + 1) n')
      | None => ""
      end
  end.

(** ** The state of the world and the monad of effects *)

Record world : Type := {
  history : list invocation;   (* the sub-processes run so far, oldest first *)
  log : list log_entry;        (* the log, oldest first *)
  scr : window;
}.

Definition set_scr (w : world) (s : window) : world :=
  {| history := history w; log := log w; scr := s |}.

Definition add_log (w : world) (e : log_entry) : world :=
  {| history := history w; log := (log w ++ [e])%list; scr := scr w |}.

Definition add_history (w : world) (i : invocation) : world :=
  {| history := (history w ++ [i])%list; log := log w; scr := scr w |}.

(** A computation: the world it leaves behind, and a value or the exception
    it raised. *)
Definition M (A : Type) : Type := world -> result A * world.

#[global] Instance M_ret : MRet M := fun _ a w => (Ok a, w).
#[global] Instance M_bind : MBind M := fun _ _ k m w =>
  match m w with
  | (Ok a, w') => k a w'
  | (Raise e, w') => (Raise e, w')
  end.

Definition raise {A} (e : exn) : M A := fun w => (Raise e, w).
Definition lift {A} (r : result A) : M A := fun w => (r, w).
Definition logging_error (e : log_entry) : M unit := fun w => (Ok tt, add_log w e).

(** Run a sub-process: the call is recorded and the environment decides
    how it ends. *)
Definition run (E : env) (i : invocation) : world -> outcome * world :=
  fun w => (check_output E (history w) i, add_history w i).

(** ** Command construction *)

(** [if x:] for an optional string: None and the empty string are false. *)
Definition truthy (o : option string) : bool :=
  match o with
  | Some (String _ _) => true
  | _ => false
  end.

Definition parse_server (server_str : string) : result (string * option string) :=
  match Py.split server_str with
  | [] => Raise IndexError
  | host :: rest =>
      Ok (host,
          fold_left (fun port part =>
                       if Py.startswith "-p" part then Some (Py.drop 2 part) else port)
                    rest None)
  end.

Definition build_ssh_command (E : env) (server remote_cmd : string)
  : result (list string) :=
  hp ← parse_server server;
  let '(host, port) := hp in
  let ssh_cmd := ["ssh"] in
  let ssh_cmd := if truthy port then (ssh_cmd ++ ["-p"; default "" port])%list else ssh_cmd in
  let host :=
    if truthy (ssh_user (args E))
    then default "" (ssh_user (args E)) ++ "@" ++ host
    else host in
  Ok (ssh_cmd ++ [host] ++ [remote_cmd])%list.

(** [server.split()[0] in [".", "localhost", "127.0.0.1"]] *)
Definition is_local (server : string) : result bool :=
  match Py.split server with
  | [] => Raise IndexError
  | h :: _ => Ok (existsb (String.eqb h) ["."; "localhost"; "127.0.0.1"])
  end.

(** ** Fetching telemetry *)

Definition nvidiasmi_local_cmd (E : env) : invocation :=
  Argv ["nvidia-smi"; "-q"; "-x"] (cmd_timeout (args E)).

Definition run_nvidiasmi_local (E : env) : M (option string) :=
  fun w =>
    let inv := nvidiasmi_local_cmd E in
    match run E inv w with
    | (Completed out, w') => (Ok (Some out), w')
    | (TimeoutExpired, w') =>
        (Ok None, add_log w' (LogError "nvidia-smi command timed out"))
    | (CalledProcessError rc, w') =>
        (Ok None, add_log w' (LogErrorExc "nvidia-smi command failed: " inv rc))
    | (SpawnFailed, w') => (Raise OSError, w')
    end.

Definition nvidiasmi_remote_cmd (cmd_timeout_ : Z) : string :=
  "timeout " ++ Py.str_of_int cmd_timeout_ ++ " nvidia-smi -q -x".

(** The [try] block of [run_nvidiasmi_remote]. *)
Definition try_nvidiasmi_remote (E : env) (server : string) (inv : invocation)
  : M (option string) :=
  fun w =>
    match run E inv w with
    | (Completed out, w') => (Ok (Some out), w')
    | (TimeoutExpired, w') =>
        (Ok None, add_log w' (LogError ("Timeout while connecting to " ++ server)))
    | (CalledProcessError rc, w') =>
        (Ok None,
         add_log w' (LogErrorExc ("Error running nvidia-smi on " ++ server ++ ": ") inv rc))
    | (SpawnFailed, w') => (Raise OSError, w')
    end.

Definition run_nvidiasmi_remote (E : env) (server : string)
    (ssh_timeout_ cmd_timeout_ : Z) : M (option string) :=
  let remote_cmd := nvidiasmi_remote_cmd cmd_timeout_ in
  ssh_cmd ← lift (build_ssh_command E server remote_cmd);
  try_nvidiasmi_remote E server (Argv ssh_cmd ssh_timeout_).

(** ** Parsing *)

Definition get_gpu_infos (E : env) (nvidiasmi_output : option string)
  : result (list gpu_info) :=
  match nvidiasmi_output with
  | None => Ok []
  | Some out =>
      root ← fromstring E out;
      rmap parse_gpu (findall ["gpu"] root)
  end.

(** ** Owner resolution *)

(** [dict(zip(keys, values))]: pairs are inserted left to right, a later
    pair overwrites an earlier one with the same key. *)
Definition dict_zip (keys : list (option string)) (values : list string)
  : gmap (option string) string :=
  fold_left (fun m kv => <[kv.1 := kv.2]> m) (zip keys values) ∅.

(** [','.join(pids)]: every item must be a [str]. *)
Definition join_pids (pids : list (option string)) : result string :=
  strs ← rmap (fun p => match p with
                        | Some s => Ok s
                        | None => Raise TypeError
                        end) pids;
  Ok (Py.join "," strs).

Definition lookup_cmd (joined : string) : string := "ps -o user= -p " ++ joined.

(** The [try] block shared by the two branches of [get_user_info]. *)
Definition lookup_users (E : env) (server : string) (inv : invocation)
    (pids : list (option string)) : M (gmap (option string) string) :=
  fun w =>
    match run E inv w with
    | (Completed out, w') =>
        let output := Py.strip out in
        let users := Py.split_nl output in
        (Ok (dict_zip pids users), w')
    | (TimeoutExpired, w') =>
        (Ok ∅, add_log w' (LogError ("Command timed out on " ++ server)))
    | (CalledProcessError rc, w') =>
        (Ok ∅,
         add_log w' (LogErrorExc ("Error getting user info on " ++ server ++ ": ") inv rc))
    | (SpawnFailed, w') => (Raise OSError, w')
    end.

Definition get_user_info (E : env) (server : string) (pids : list (option string))
  : M (gmap (option string) string) :=
  match pids with
  | [] => mret ∅
  | _ =>
      joined ← lift (join_pids pids);
      let remote_cmd := lookup_cmd joined in
      loc ← lift (is_local server);
      if (loc : bool) then
        lookup_users E server (Shell remote_cmd (cmd_timeout (args E))) pids
      else
        ssh_cmd ← lift (build_ssh_command E server remote_cmd);
        lookup_users E server (Argv ssh_cmd (cmd_timeout (args E))) pids
  end.

(** ** Aggregation: the [defaultdict(int)] filled inside the renderer *)

(** [d[k] += v] on a [defaultdict(int)]; a new key goes last. *)
Fixpoint dict_add (k : string) (v : Z) (d : list (string * Z)) : list (string * Z) :=
  match d with
  | [] => [(k, 0 + v)]
  | (k', v') :: d' =>
      if String.eqb k' k then (k', v' + v) :: d'
      else (k', v') :: dict_add k v d'
  end.

(** [user_info.get(pid, "Unknown")] *)
Definition owner_of (user_info : gmap (option string) string) (p : option string)
  : string :=
  default "Unknown" (user_info !! p).

Definition user_memory (user_info : gmap (option string) string)
    (procs : list process) : list (string * Z) :=
  fold_left (fun d p => dict_add (owner_of user_info (pid p)) (used_memory p) d)
            procs [].

(** ** Rendering one host: [display_gpu_infos] *)

(** [f"{x}"] for a value that is a [str] or None. *)
Definition fmt (o : option string) : string := default "None" o.

(** The body of the [try] inside the device loop runs over the local
    variable [row] and the world.  It ends normally, or with a
    curses.error (caught by the enclosing [except], which breaks out of the
    loop), or with another exception (which propagates).  In each case the
    value [row] had at that point is kept. *)
Inductive flow (A : Type) : Type :=
  | Next (a : A)
  | Break            (* curses.error *)
  | Throw (e : exn).
Arguments Next {A} a.
Arguments Break {A}.
Arguments Throw {A} e.

Definition T (A : Type) : Type := Z * world -> flow A * (Z * world).

#[global] Instance T_ret : MRet T := fun _ a st => (Next a, st).
#[global] Instance T_bind : MBind T := fun _ _ k m st =>
  match m st with
  | (Next a, st') => k a st'
  | (Break, st') => (Break, st')
  | (Throw e, st') => (Throw e, st')
  end.

(** [stdscr.addstr(row, col, text, attr)] *)
Definition t_addstr (col : Z) (text : string) (attr : Z) : T unit :=
  fun '(row, w) =>
    match addstr_at (scr w) row col text attr with
    | (true, s) => (Next tt, (row, set_scr w s))
    | (false, s) => (Break, (row, set_scr w s))
    end.

(** [stdscr.addstr(text, attr)]: at the cursor *)
Definition t_addstr_cur (text : string) (attr : Z) : T unit :=
  fun '(row, w) =>
    match waddstr (scr w) text attr with
    | (true, s) => (Next tt, (row, set_scr w s))
    | (false, s) => (Break, (row, set_scr w s))
    end.

(** [row += 1] *)
Definition t_incr : T unit := fun '(row, w) => (Next tt, (row + 1, w)).

Definition t_lift {A} (m : M A) : T A :=
  fun '(row, w) =>
    match m w with
    | (Ok a, w') => (Next a, (row, w'))
    | (Raise e, w') => (Throw e, (row, w'))
    end.

Fixpoint t_for {A} (l : list A) (body : A -> T unit) : T unit :=
  match l with
  | [] => mret tt
  | a :: l' => body a ;; t_for l' body
  end.

(** One line per user. *)
Definition user_line (col : Z) (um : string * Z) : T unit :=
  let '(user, memory) := um in
  t_addstr col "  User: " 1 ;;
  t_addstr_cur user 4 ;;
  t_addstr_cur ", Memory Used: " 1 ;;
  t_addstr_cur (Py.str_of_int memory ++ " MiB") 4 ;;
  t_incr.

(** The body of the [try] for one device. *)
Definition gpu_block (E : env) (server : string) (col : Z) (g : gpu_info) : T unit :=
  t_addstr col ("GPU " ++ fmt (index g) ++ " - " ++ fmt (name g)) 0 ;;
  t_incr ;;
  t_addstr col ("  Memory Total: " ++ Py.str_of_int (memory_total g) ++ " MiB") 0 ;;
  t_incr ;;
  t_addstr col "  Memory Used: " 1 ;;
  t_addstr_cur (Py.str_of_int (memory_used g) ++ " MiB") 2 ;;
  t_incr ;;
  t_addstr col "  Memory Free: " 1 ;;
  t_addstr_cur (Py.str_of_int (memory_free g) ++ " MiB") 3 ;;
  t_incr ;;
  let pids := List.map pid (processes g) in
  user_info ← t_lift (get_user_info E server pids) ;
  let um := user_memory user_info (processes g) in
  t_for um (user_line col) ;;
  t_incr.

(** The loop over the devices; [Some e] when an exception other than
    curses.error leaves it. *)
Fixpoint gpu_loop (E : env) (server : string) (col : Z) (gpu_infos : list gpu_info)
    (st : Z * world) : option exn * (Z * world) :=
  match gpu_infos with
  | [] => (None, st)
  | g :: rest =>
      if fst st >=? LINES (scr (snd st)) - 1 then (None, st)
      else
        match gpu_block E server col g st with
        | (Next _, st') => gpu_loop E server col rest st'
        | (Break, st') => (None, st')
        | (Throw e, st') => (Some e, st')
        end
  end.

Definition separator (w : window) : string := Py.repeat_char "-" (COLS w / 2 - 1).

Definition display_gpu_infos (E : env) (server : string) (gpu_infos : list gpu_info)
    (col row_offset : Z) : M Z :=
  fun w =>
    match addstr_at (scr w) row_offset col ("Server: " ++ server) 0 with
    | (false, s) => (Ok row_offset, set_scr w s)
    | (true, s) =>
        match gpu_loop E server col gpu_infos (row_offset + 1, set_scr w s) with
        | (Some e, (_, w1)) => (Raise e, w1)
        | (None, (row, w1)) =>
            let w2 :=
              if row <? LINES (scr w1) - 1
              then set_scr w1 (snd (addstr_at (scr w1) row col (separator (scr w1)) 0))
              else w1 in
            (Ok (row + 2), w2)
        end
    end.

(** ** The polling loop: [main] *)

Definition fetch (E : env) (server : string) : M (option string) :=
  loc ← lift (is_local server);
  if (loc : bool) then run_nvidiasmi_local E
  else run_nvidiasmi_remote E server (ssh_timeout (args E)) (cmd_timeout (args E)).

(** One turn of [for i, server in enumerate(servers)]; [offs] holds
    [left_col_offset] and [right_col_offset]. *)
Definition poll_host (E : env) (col_width : Z) (i : nat) (server : string)
    (offs : Z * Z) : M (Z * Z) :=
  if Nat.even i then
    let col := 0 in
    let row_offset := fst offs in
    nvidiasmi_output ← fetch E server;
    gpu_infos ← lift (get_gpu_infos E nvidiasmi_output);
    r ← display_gpu_infos E server gpu_infos col row_offset;
    mret (r, snd offs)
  else
    let col := col_width + 1 in
    let row_offset := snd offs in
    nvidiasmi_output ← fetch E server;
    gpu_infos ← lift (get_gpu_infos E nvidiasmi_output);
    r ← display_gpu_infos E server gpu_infos col row_offset;
    mret (fst offs, r).

Fixpoint poll_hosts (E : env) (col_width : Z) (i : nat) (servers : list string)
    (offs : Z * Z) : M (Z * Z) :=
  match servers with
  | [] => mret offs
  | server :: rest =>
      offs' ← poll_host E col_width i server offs;
      poll_hosts E col_width (S i) rest offs'
  end.

(** The vertical separator: [addch] on every row, errors ignored. *)
Definition draw_separator (col_width : Z) (max_row : Z) (s : window) : window :=
  fold_left (fun s row => snd (addch_at s (Z.of_nat row) col_width "|"))
            (seq 0 (Z.to_nat max_row)) s.

(** One turn of [while True]. *)
Definition poll_cycle (E : env) (servers : list string) : M unit :=
  fun w =>
    let w := set_scr w (clear (scr w)) in
    let max_row := LINES (scr w) in
    let max_col := COLS (scr w) in
    let col_width := max_col / 2 in
    match poll_hosts E col_width 0 servers (0, 0) w with
    | (Raise e, w') => (Raise e, w')
    | (Ok _, w') => (Ok tt, set_scr w' (draw_separator col_width max_row (scr w')))
    end.

(** [main] once the server file has been read into [servers], observed for
    [n] turns of [while True].  [Ok] means that the loop is still running
    after them; [Raise e] that [e] left the loop, and so [main] and the
    process. *)
Fixpoint main (E : env) (servers : list string) (n : nat) : M unit :=
  match n with
  | O => mret tt
  | S n' => poll_cycle E servers ;; main E servers n'
  end.

(** ** Definitions used to state the properties *)

(** The value of a decimal numeral read from its most significant digit,
    starting from [acc]. *)
Fixpoint uint_value (acc : Z) (d : Decimal.uint) : Z :=
  match d with
  | Decimal.Nil => acc
  | Decimal.D0 d => uint_value (10 * acc + 0) d
  | Decimal.D1 d => uint_value (10 * acc + 1) d
  | Decimal.D2 d => uint_value (10 * acc + 2) d
  | Decimal.D3 d => uint_value (10 * acc + 3) d
  | Decimal.D4 d => uint_value (10 * acc + 4) d
  | Decimal.D5 d => uint_value (10 * acc + 5) d
  | Decimal.D6 d => uint_value (10 * acc + 6) d
  | Decimal.D7 d => uint_value (10 * acc + 7) d
  | Decimal.D8 d => uint_value (10 * acc + 8) d
  | Decimal.D9 d => uint_value (10 * acc + 9) d
  end.

Definition no_space (s : string) : Prop :=
  Forall (fun c => Py.is_space c = false) (list_ascii_of_string s).

(** A memory field as the diagnostic tool prints it: the integer in
    decimal, a blank, the unit. *)
Definition memory_text (z : Z) (unit_ : string) : string :=
  Py.str_of_int z ++ " " ++ unit_.

(** What a well-formed node carries: a child reached by the path, with the
    given text, or with a memory text denoting the given integer. *)
Definition has_text (node : option element) (t : option string) : Prop :=
  exists e, node = Some e /\ text_of e = t.

Definition has_memory (node : option element) (z : Z) : Prop :=
  exists e unit_, node = Some e /\ text_of e = Some (memory_text z unit_).

(** A [process_info] node that carries the fields of [r]. *)
Definition well_formed_process (p : element) (r : process) : Prop :=
  has_text (find ["pid"] p) (pid r) /\
  has_memory (find ["used_memory"] p) (used_memory r).

(** A [gpu] node that carries the fields of [r], its [process_info] nodes
    matching the processes of [r] one by one, in order. *)
Definition well_formed_gpu (g : element) (r : gpu_info) : Prop :=
  has_text (find ["minor_number"] g) (index r) /\
  has_text (find ["product_name"] g) (name r) /\
  has_memory (find ["fb_memory_usage"; "total"] g) (memory_total r) /\
  has_memory (find ["fb_memory_usage"; "used"] g) (memory_used r) /\
  has_memory (find ["fb_memory_usage"; "free"] g) (memory_free r) /\
  Forall2 well_formed_process
    (findall ["processes"; "process_info"] g) (processes r).

(** A sample device node, and the world it is observed in. *)
Definition leaf (t s : string) : element := Element t (Some s) [].

Definition process_node (pm : string * string) : element :=
  Element "process_info" None [leaf "pid" (fst pm); leaf "used_memory" (snd pm)].

Definition gpu_node (idx nm total used free : string)
    (procs : list (string * string)) : element :=
  Element "gpu" None
    [leaf "minor_number" idx; leaf "product_name" nm;
     Element "fb_memory_usage" None
       [leaf "total" total; leaf "used" used; leaf "free" free];
     Element "processes" None (List.map process_node procs)].

Definition sample_root : element :=
  Element "nvidia_smi_log" None
    [gpu_node "0" "A100" "8000 MiB" "2000 MiB" "6000 MiB" [("123", "500 MiB")]].

Definition sample_records : list gpu_info :=
  [ {| index := Some "0"; name := Some "A100";
       memory_total := 8000; memory_used := 2000; memory_free := 6000;
       processes := [ {| pid := Some "123"; used_memory := 500 |} ] |} ].

(** An environment in which every telemetry fetch returns [sample_root] and
    every owner lookup answers [alice]. *)
Definition sample_env : env :=
  {| args := default_args;
     check_output := fun _ i =>
       if String.prefix "ps" (command_of i)
       then Completed ("alice" ++ String "010" "")
       else Completed "<nvidia_smi_log/>";
     fromstring := fun _ => Ok sample_root |}.

Definition blank_window (lines cols : Z) : window :=
  {| LINES := lines; COLS := cols; cur_y := 0; cur_x := 0; cells := [] |}.

Definition start_world (lines cols : Z) : world :=
  {| history := []; log := []; scr := blank_window lines cols |}.

(** The sub-process that [get_user_info] runs for a non-empty list of
    identifiers: the command line is built before the [try]. *)
Definition lookup_invocation (E : env) (server : string)
    (pids : list (option string)) : result invocation :=
  joined ← join_pids pids;
  let remote_cmd := lookup_cmd joined in
  loc ← is_local server;
  if (loc : bool) then Ok (Shell remote_cmd (cmd_timeout (args E)))
  else
    ssh_cmd ← build_ssh_command E server remote_cmd;
    Ok (Argv ssh_cmd (cmd_timeout (args E))).

(** The sub-process that a telemetry fetch runs. *)
Definition fetch_invocation (E : env) (server : string) : result invocation :=
  loc ← is_local server;
  if (loc : bool) then Ok (nvidiasmi_local_cmd E)
  else
    ssh_cmd ← build_ssh_command E server (nvidiasmi_remote_cmd (cmd_timeout (args E)));
    Ok (Argv ssh_cmd (ssh_timeout (args E))).

(** The outcome is one of the two failures that the fetchers and the
    resolver handle. *)
Definition handled_failure (o : outcome) : Prop :=
  o = TimeoutExpired \/ exists rc, o = CalledProcessError rc.

(** Environments in which every sub-process fails in a given way. *)
Definition failing_env (o : outcome) : env :=
  {| args := default_args;
     check_output := fun _ _ => o;
     fromstring := fun _ => Ok sample_root |}.

(** The log entry that a failed fetch writes: a plain message for a
    timeout, a message with the exception for a non-zero exit status. *)
Definition entry_for (o : outcome) (inv : invocation) (entry : log_entry) : Prop :=
  match o with
  | TimeoutExpired => exists text, entry = LogError text
  | CalledProcessError rc => exists text, entry = LogErrorExc text inv rc
  | _ => False
  end.


(** A host with two devices: processes 11 and 22 on the first, process 33
    on the second; users A, B and A. *)
Definition two_gpu_root : element :=
  Element "nvidia_smi_log" None
    [gpu_node "0" "A100" "8000 MiB" "150 MiB" "7850 MiB"
       [("11", "100 MiB"); ("22", "50 MiB")];
     gpu_node "1" "A100" "8000 MiB" "30 MiB" "7970 MiB" [("33", "30 MiB")]].

Definition two_gpu_records : list gpu_info :=
  [ {| index := Some "0"; name := Some "A100";
       memory_total := 8000; memory_used := 150; memory_free := 7850;
       processes := [ {| pid := Some "11"; used_memory := 100 |};
                      {| pid := Some "22"; used_memory := 50 |} ] |};
    {| index := Some "1"; name := Some "A100";
       memory_total := 8000; memory_used := 30; memory_free := 7970;
       processes := [ {| pid := Some "33"; used_memory := 30 |} ] |} ].

Definition nl : string := String "010" "".

Definition two_gpu_env : env :=
  {| args := default_args;
     check_output := fun _ i =>
       if String.eqb (command_of i) "ps -o user= -p 11,22" then Completed ("A" ++ nl ++ "B" ++ nl)
       else if String.eqb (command_of i) "ps -o user= -p 33" then Completed ("A" ++ nl)
       else if String.eqb (command_of i) "ps -o user= -p 11,22,33"
            then Completed ("A" ++ nl ++ "B" ++ nl ++ "A" ++ nl)
       else Completed "<nvidia_smi_log/>";
     fromstring := fun _ => Ok two_gpu_root |}.

(** The owner-lookup commands among the sub-processes run. *)
Definition lookups (h : list invocation) : list string :=
  List.filter (String.prefix "ps ") (List.map command_of h).

(** The first [n] rows of the window, each read from column 0. *)
Definition rows (s : window) (n : nat) : list string :=
  List.map (fun y => row_text s (Z.of_nat y) 0 (Z.to_nat (COLS s))) (seq 0 n).





(** The cursor is inside the window. *)
Definition cursor_ok (s : window) : Prop :=
  in_window s (cur_y s) (cur_x s) = true.

(** [s'] is [s] with more cells painted, all of them inside the window. *)
Definition painted_inside (s s' : window) : Prop :=
  LINES s' = LINES s /\ COLS s' = COLS s
  /\ exists new,
      cells s' = (new ++ cells s)%list
      /\ Forall (fun c => in_window s (cell_y c) (cell_x c) = true) new.

(** Specifications of the steps of a [try] body, for an invariant [I] of
    the state and a relation [R] between the states before and after:
    an anchored step establishes [R] from any state, a steady step from a
    state that satisfies [I]; both leave [I] when they end normally. *)
Definition is_next {A} (f : flow A) : Prop :=
  match f with Next _ => True | _ => False end.

Definition anchored (I : Z * world -> Prop) (R : relation (Z * world))
    {A} (m : T A) : Prop :=
  forall st, R st (m st).2 /\ (is_next (m st).1 -> I (m st).2).

Definition steady (I : Z * world -> Prop) (R : relation (Z * world))
    {A} (m : T A) : Prop :=
  forall st, I st -> R st (m st).2 /\ (is_next (m st).1 -> I (m st).2).


(** The geometry of rendering: the row never decreases and cells are only
    painted inside the window. *)
Definition geometry (st st' : Z * world) : Prop :=
  st.1 <= st'.1 /\ painted_inside (scr st.2) (scr st'.2).

Definition cursor_inv (st : Z * world) : Prop := cursor_ok (scr st.2).

(** The history of sub-processes is left as it was. *)
Definition same_history (st st' : Z * world) : Prop :=
  history st'.2 = history st.2.

Definition no_inv (st : Z * world) : Prop := True.

(** The lookup that rendering the device [g] of [server] may run. *)
Definition lookup_of (E : env) (server : string) (inv : invocation) (g : gpu_info)
  : Prop :=
  processes g <> []
  /\ lookup_invocation E server (List.map pid (processes g)) = Ok inv.

(** A step that runs at most one sub-process, the lookup for [g]. *)
Definition at_most_one_lookup (E : env) (server : string) (g : gpu_info)
    {A} (m : T A) : Prop :=
  forall st,
    history (m st).2.2 = history st.2
    \/ exists inv, lookup_of E server inv g
                   /\ history (m st).2.2 = (history st.2 ++ [inv])%list.

(** The header write of [display_gpu_infos]. *)
Definition header_write (server : string) (col row_offset : Z) (w : world)
  : bool * window :=
  addstr_at (scr w) row_offset col ("Server: " ++ server) 0.


(** The column and the row cursor that the host of index [i] is rendered
    with. *)
Definition column_of (col_width : Z) (i : nat) : Z :=
  if Nat.even i then 0 else col_width + 1.

Definition offset_of (offs : Z * Z) (i : nat) : Z :=
  if Nat.even i then fst offs else snd offs.

(** The world at the start of a cycle, after [stdscr.clear()]. *)
Definition cleared (w : world) : world := set_scr w (clear (scr w)).

(** A host whose device reports [N/A] as its total memory. *)
Definition na_root : element :=
  Element "nvidia_smi_log" None
    [gpu_node "0" "A100" "N/A" "2000 MiB" "6000 MiB" [("123", "500 MiB")]].

Definition na_env : env :=
  {| args := default_args;
     check_output := fun _ _ => Completed "<nvidia_smi_log/>";
     fromstring := fun _ => Ok na_root |}.

(** A line of the server file in the documented format [IP -pPORT]. *)
Definition server_line (host port : string) : string := host ++ " -p" ++ port.

(** The login that [build_ssh_command] hands to ssh:
    [f"{args.ssh_user}@{host}"] when a user is configured. *)
Definition login (E : env) (host : string) : string :=
  if truthy (ssh_user (args E))
  then default "" (ssh_user (args E)) ++ "@" ++ host
  else host.

(** An environment with a configured ssh user. *)
Definition user_env : env :=
  {| args := {| ssh_user := Some "monitor"; ssh_timeout := 5; cmd_timeout := 10 |};
     check_output := fun _ _ => TimeoutExpired;
     fromstring := fun _ => Ok sample_root |}.

(** The output of the lookup command when it answers one user name per
    line. *)
Definition lines_output (names : list string) : string := Py.join nl names ++ nl.

(** A user name as [ps] prints it: not empty, without blanks. *)
Definition user_name (n : string) : Prop := no_space n /\ n <> "".

(** The string begins with a character that is no blank. *)
Definition starts_solid (s : string) : Prop :=
  exists c s', s = String c s' /\ Py.is_space c = false.


(** The memory held by a per-user table, and by a list of processes. *)
Definition sum_values (d : list (string * Z)) : Z :=
  foldr (fun kv acc => kv.2 + acc) 0 d.

Definition sum_memory (procs : list process) : Z :=
  foldr (fun p acc => used_memory p + acc) 0 procs.

(** The history of sub-processes and the log only grow at their ends. *)
Definition grows (w w' : world) : Prop :=
  history w `prefix_of` history w' /\ log w `prefix_of` log w'.

Definition grows_st (st st' : Z * world) : Prop := grows st.2 st'.2.

(** A character that cannot begin an [int()] literal, and is no blank. *)
Definition not_numeric (c : ascii) : Prop :=
  Py.is_space c = false /\ Py.is_digit c = false
  /\ c <> "+"%char /\ c <> "-"%char.

(** Two devices, the second one reporting [N/A] as its total memory. *)
Definition second_na_root : element :=
  Element "nvidia_smi_log" None
    [gpu_node "0" "A100" "8000 MiB" "2000 MiB" "6000 MiB" [("123", "500 MiB")];
     gpu_node "1" "A100" "N/A" "N/A" "N/A" []].

Definition second_na_env : env :=
  {| args := default_args;
     check_output := fun _ _ => Completed "<nvidia_smi_log/>";
     fromstring := fun _ => Ok second_na_root |}.

(** The header line of a host block. *)
Definition header_text (server : string) : string := "Server: " ++ server.

(** A step of a [try] body that throws only exceptions satisfying [P]. *)
Definition throws_only (P : exn -> Prop) {A} (m : T A) : Prop :=
  forall st e, (m st).1 = Throw e -> P e.

(** The exceptions of owner resolution: a list holding None, a blank server
    line, a program that cannot be spawned. *)
Definition lookup_error (e : exn) : Prop :=
  e = TypeError \/ e = IndexError \/ e = OSError.

(** The exceptions of device parsing proper, the XML library apart. *)
Definition field_error (e : exn) : Prop :=
  e = AttributeError \/ e = IndexError \/ e = ValueError.

(** The exceptions that can leave the polling loop: those of fetching,
    parsing and owner resolution, and whatever [ET.fromstring] raises. *)
Definition loop_error (E : env) (e : exn) : Prop :=
  field_error e \/ lookup_error e \/ exists s, fromstring E s = Raise e.

(** The rows that the blocks of a list of devices can take: for each device
    four lines, one line per process at most, and a blank line. *)
Definition block_rows (g : gpu_info) : Z := 5 + Z.of_nat (length (processes g)).

Definition rows_needed (gpu_infos : list gpu_info) : Z :=
  foldr (fun g acc => block_rows g + acc) 0 gpu_infos.

(** A step of a [try] body that moves [row] down by [k] rows at most. *)
Definition advances (k : Z) {A} (m : T A) : Prop :=
  forall st, (m st).2.1 <= st.1 + k.

(** A sub-process that is an ssh call. *)
Definition is_ssh (inv : invocation) : Prop :=
  exists v t, inv = Argv ("ssh" :: v) t.

(** A printable string: no control character and nothing beyond ASCII, so
    that every character takes one cell of the window. *)
Definition printable (s : string) : Prop :=
  Forall (fun c => (32 <= nat_of_ascii c < 127)%nat) (list_ascii_of_string s).

(** The [try] body of one device in two parts: the four lines of the device,
    written before owner resolution is called, and the rest (owner
    resolution, one line per user, the blank row). *)
Definition device_lines (col : Z) (g : gpu_info) : T unit :=
  t_addstr col ("GPU " ++ fmt (index g) ++ " - " ++ fmt (name g)) 0 ;;
  t_incr ;;
  t_addstr col ("  Memory Total: " ++ Py.str_of_int (memory_total g) ++ " MiB") 0 ;;
  t_incr ;;
  t_addstr col "  Memory Used: " 1 ;;
  t_addstr_cur (Py.str_of_int (memory_used g) ++ " MiB") 2 ;;
  t_incr ;;
  t_addstr col "  Memory Free: " 1 ;;
  t_addstr_cur (Py.str_of_int (memory_free g) ++ " MiB") 3 ;;
  t_incr.

Definition device_users (E : env) (server : string) (col : Z) (g : gpu_info)
  : T unit :=
  let pids := List.map pid (processes g) in
  user_info ← t_lift (get_user_info E server pids) ;
  let um := user_memory user_info (processes g) in
  t_for um (user_line col) ;;
  t_incr.

(** The device has at least one process. *)
Definition has_processes (g : gpu_info) : bool :=
  match processes g with [] => false | _ => true end.

(** The devices that the loop renders from the state [st]: a device is
    rendered when the loop reaches it with room left (the row test at the
    head of the loop passes) and the window accepts its four lines.  The
    loop goes on to the next device only when the whole body has ended
    normally. *)
Fixpoint rendered (E : env) (server : string) (col : Z) (gpu_infos : list gpu_info)
    (st : Z * world) : list gpu_info :=
  match gpu_infos with
  | [] => []
  | g :: rest =>
      if fst st >=? LINES (scr (snd st)) - 1 then []
      else
        match device_lines col g st with
        | (Next _, _) =>
            g :: match gpu_block E server col g st with
                 | (Next _, st') => rendered E server col rest st'
                 | _ => []
                 end
        | _ => []
        end
  end.

(** The devices rendered by [display_gpu_infos]: none when the header is
    refused. *)
Definition rendered_devices (E : env) (server : string) (gpu_infos : list gpu_info)
    (col row_offset : Z) (w : world) : list gpu_info :=
  match header_write server col row_offset w with
  | (true, s) => rendered E server col gpu_infos (row_offset + 1, set_scr w s)
  | (false, _) => []
  end.




(** A window of three rows and six columns: the first line of a device
    written on its second row runs into the lower right corner. *)
Definition narrow_world : world := start_world 3 6.

(** The words of an argument vector; none for a shell command line. *)
Definition argv_of (i : invocation) : list string :=
  match i with
  | Argv v _ => v
  | Shell _ _ => []
  end.

(** Two hosts.  Every owner lookup answers [alice]; the telemetry of
    10.0.0.2 reads [N/A] once four sub-processes have been run (that is,
    from the second cycle on), every other fetch returns [sample_root]. *)
Definition late_na_env : env :=
  {| args := default_args;
     check_output := fun h i =>
       if String.prefix "ps" (command_of i) then Completed ("alice" ++ nl)
       else if existsb (String.eqb "10.0.0.2") (argv_of i) && (4 <=? length h)%nat
            then Completed "<na/>"
       else Completed "<nvidia_smi_log/>";
     fromstring := fun s => if String.eqb s "<na/>" then Ok na_root else Ok sample_root |}.


(** A sub-process that ends in one of the two failures that are caught and
    logged. *)
Definition failed (o : outcome) : bool :=
  match o with
  | TimeoutExpired | CalledProcessError _ => true
  | _ => false
  end.

(** The number of failed sub-processes among [new], run one after the other
    after those of [h]. *)
Fixpoint failures (E : env) (h new : list invocation) : nat :=
  match new with
  | [] => 0
  | i :: new' =>
      ((if failed (check_output E h i) then 1 else 0)
       + failures E (h ++ [i])%list new')%nat
  end.

(** From [w] to [w'] sub-processes have been run and log entries written,
    one entry for each failed sub-process. *)
Definition accounted (E : env) (w w' : world) : Prop :=
  exists new entries,
    history w' = (history w ++ new)%list
    /\ log w' = (log w ++ entries)%list
    /\ length entries = failures E (history w) new.

Definition accounted_st (E : env) (st st' : Z * world) : Prop :=
  accounted E st.2 st'.2.


(** * Properties *)

(** ** The model at work *)

Example split_mib : Py.split "1024 MiB" = ["1024"; "MiB"].
Proof. reflexivity. Qed.

Example int_tokens :
  Py.int "1024" = Ok 1024 /\ Py.int "-7" = Ok (-7) /\ Py.int "1_000" = Ok 1000
  /\ Py.int "N/A" = Raise ValueError /\ Py.int "1__0" = Raise ValueError
  /\ Py.int "" = Raise ValueError.
Proof. repeat split. Qed.

Example strip_lines :
  Py.split_nl (Py.strip (" alice" ++ nl ++ "bob" ++ nl)) = ["alice"; "bob"]
  /\ Py.split_nl (Py.strip "") = [""].
Proof. repeat split. Qed.

Example parse_server_port :
  parse_server "10.150.20.213 -p22222" = Ok ("10.150.20.213", Some "22222")
  /\ parse_server "10.150.52.155" = Ok ("10.150.52.155", None)
  /\ is_local "localhost" = Ok true /\ is_local "10.150.52.155 -p80" = Ok false.
Proof. repeat split. Qed.

(** One host with one device and one process owned by alice. *)
Example one_host_one_device :
  rows (scr (poll_cycle sample_env ["10.0.0.1 -p22"] (start_world 24 80)).2) 9
  = ["Server: 10.0.0.1 -p22";
     "GPU 0 - A100";
     "  Memory Total: 8000 MiB";
     "  Memory Used: 2000 MiB";
     "  Memory Free: 6000 MiB";
     "  User: alice, Memory Used: 500 MiB";
     "";
     "---------------------------------------";
     ""].
Proof. vm_compute. reflexivity. Qed.

(** Two unreachable hosts: a header and a rule in each column, the vertical
    separator between them, and two log entries. *)
Example unreachable_hosts :
  let w := (poll_cycle (failing_env TimeoutExpired) ["10.0.0.1 -p22"; "10.0.0.2"]
              (start_world 24 80)).2 in
  rows (scr w) 3
  = ["Server: 10.0.0.1 -p22"; "---------------------------------------"; ""]
  /\ row_text (scr w) 0 40 40 = "|Server: 10.0.0.2"
  /\ log w = [LogError "Timeout while connecting to 10.0.0.1 -p22";
              LogError "Timeout while connecting to 10.0.0.2"].
Proof. vm_compute. repeat split. Qed.

(** ** Strings *)

Section StringFacts.

Lemma string_of_list_ascii_app (l1 l2 : list ascii) :
  string_of_list_ascii (l1 ++ l2) = string_of_list_ascii l1 ++ string_of_list_ascii l2.
Proof. induction l1 as [|a l1 IH]; simpl; [reflexivity | now rewrite IH]. Qed.

Lemma split_go_token (s u : string) : forall cur,
  no_space s ->
  (cur <> [] \/ s <> "") ->
  Py.split_go cur (s ++ String " " u)
  = string_of_list_ascii (rev cur ++ list_ascii_of_string s) :: Py.split_go [] u.
Proof.
  unfold no_space. induction s as [|c s IH]; intros cur Hs Hne; simpl.
  - destruct cur as [|a cur]; [destruct Hne; congruence|].
    simpl. now rewrite app_nil_r.
  - inversion Hs as [|? ? Hc Hs']; subst. rewrite Hc.
    rewrite IH; [|assumption|left; discriminate].
    simpl. now rewrite <- app_assoc.
Qed.

Lemma split_first_token (s u : string) :
  no_space s -> s <> "" -> Py.split (s ++ " " ++ u) = s :: Py.split u.
Proof.
  intros Hs Hne. unfold Py.split. change (" " ++ u) with (String " " u).
  rewrite split_go_token by (auto; right; assumption).
  simpl. now rewrite string_of_list_ascii_of_string.
Qed.

Lemma uint_string_no_space (d : Decimal.uint) :
  no_space (NilEmpty.string_of_uint d).
Proof. unfold no_space. induction d; simpl; constructor; auto. Qed.

Lemma str_of_int_no_space (z : Z) : no_space (Py.str_of_int z).
Proof.
  unfold Py.str_of_int, NilZero.string_of_int, NilZero.string_of_uint.
  destruct (Z.to_int z) as [d|d]; destruct d;
    try apply (uint_string_no_space (_ _));
    try (constructor; [reflexivity|]);
    try apply (uint_string_no_space (_ _));
    repeat constructor.
Qed.

Lemma str_of_int_nonempty (z : Z) : Py.str_of_int z <> "".
Proof.
  unfold Py.str_of_int, NilZero.string_of_int, NilZero.string_of_uint.
  destruct (Z.to_int z) as [d|d]; destruct d; discriminate.
Qed.

Lemma parse_digits_uint (d : Decimal.uint) : forall acc b,
  d <> Decimal.Nil \/ b = true ->
  Py.parse_digits acc b (NilEmpty.string_of_uint d) = Some (uint_value acc d).
Proof.
  induction d; intros acc b H; simpl;
    try (apply IHd; right; reflexivity).
  destruct H as [H|H]; [congruence | now rewrite H].
Qed.

Lemma uint_value_spec (d : Decimal.uint) : forall acc,
  uint_value acc d
  = acc * 10 ^ Z.of_N (DecimalPos.Unsigned.usize d)
    + Z.of_N (DecimalPos.Unsigned.of_lu (Decimal.rev d)).
Proof.
  induction d; intros acc; simpl uint_value; [simpl; lia | ..].
  all: rewrite IHd.
  all: match goal with
       | |- context [Decimal.rev (?c ?x)] =>
           change (Decimal.rev (c x)) with (Decimal.revapp x (c Decimal.Nil));
           rewrite (DecimalPos.Unsigned.of_lu_revapp x (c Decimal.Nil))
       end.
  all: simpl DecimalPos.Unsigned.usize; simpl DecimalPos.Unsigned.of_lu.
  all: rewrite N2Z.inj_succ, Z.pow_succ_r by lia.
  all: rewrite N2Z.inj_add, N2Z.inj_mul, N2Z.inj_pow.
  all: change (Z.of_N 10) with 10; lia.
Qed.

Lemma uint_value_pos (p : positive) : uint_value 0 (Pos.to_uint p) = Z.pos p.
Proof.
  rewrite uint_value_spec, <- DecimalPos.Unsigned.of_uint_alt.
  rewrite DecimalPos.Unsigned.of_to. simpl. lia.
Qed.

(** [int(str(z)) == z] *)
Lemma int_str_of_int (z : Z) : Py.int (Py.str_of_int z) = Ok z.
Proof.
  unfold Py.str_of_int. destruct z as [|p|p]; simpl Z.to_int.
  - reflexivity.
  - unfold NilZero.string_of_int, NilZero.string_of_uint.
    pose proof (DecimalPos.Unsigned.to_uint_nonnil p) as Hn.
    pose proof (parse_digits_uint (Pos.to_uint p) 0 false (or_introl Hn)) as Hp.
    rewrite uint_value_pos in Hp.
    destruct (Pos.to_uint p) eqn:Ed; try congruence;
      unfold Py.int; simpl in Hp |- *; now rewrite Hp.
  - unfold NilZero.string_of_int, NilZero.string_of_uint.
    pose proof (DecimalPos.Unsigned.to_uint_nonnil p) as Hn.
    pose proof (parse_digits_uint (Pos.to_uint p) 0 false (or_introl Hn)) as Hp.
    rewrite uint_value_pos in Hp.
    destruct (Pos.to_uint p) eqn:Ed; try congruence;
      unfold Py.int; simpl in Hp |- *; now rewrite Hp.
Qed.

End StringFacts.

(** ** Parsing *)

Section Parsing.

Lemma int_field_memory (node : option element) (z : Z) :
  has_memory node z -> int_field node = Ok z.
Proof.
  intros (e & u & -> & Ht). unfold int_field. simpl. rewrite Ht.
  unfold memory_text.
  rewrite split_first_token
    by (apply str_of_int_no_space || apply str_of_int_nonempty).
  apply int_str_of_int.
Qed.

Lemma dot_text_has_text (node : option element) (t : option string) :
  has_text node t -> dot_text node = Ok t.
Proof. intros (e & -> & <-). reflexivity. Qed.

Lemma parse_process_well_formed (p : element) (r : process) :
  well_formed_process p r -> parse_process p = Ok r.
Proof.
  intros [Hp Hm]. unfold parse_process.
  rewrite (dot_text_has_text _ _ Hp), (int_field_memory _ _ Hm).
  now destruct r.
Qed.

Lemma rmap_Forall2 {A B} (f : A -> result B) (l : list A) (rs : list B) :
  Forall2 (fun a b => f a = Ok b) l rs -> rmap f l = Ok rs.
Proof.
  induction 1 as [|a b l rs Hab _ IH]; simpl; [reflexivity|].
  rewrite Hab. simpl. rewrite IH. reflexivity.
Qed.

Lemma parse_gpu_well_formed (g : element) (r : gpu_info) :
  well_formed_gpu g r -> parse_gpu g = Ok r.
Proof.
  intros (Hi & Hn & Ht & Hu & Hf & Hp). unfold parse_gpu.
  rewrite (dot_text_has_text _ _ Hi), (dot_text_has_text _ _ Hn).
  rewrite (int_field_memory _ _ Ht), (int_field_memory _ _ Hu),
    (int_field_memory _ _ Hf).
  assert (rmap parse_process (findall ["processes"; "process_info"] g)
          = Ok (processes r)) as Hprocs.
  { apply rmap_Forall2. eapply Forall2_impl; [exact Hp|].
    apply parse_process_well_formed. }
  rewrite Hprocs. now destruct r.
Qed.

End Parsing.

(** C4. A raw output whose tree has N well-formed [gpu] nodes is parsed into
    exactly the N device records those nodes carry, in document order: every
    memory text [<integer> <unit>] becomes its integer and the processes of
    a device keep their order.  An absent output gives the empty list. *)
Theorem get_gpu_infos_well_formed (E : env) (out : string) (root : element)
    (records : list gpu_info) :
  fromstring E out = Ok root ->
  Forall2 well_formed_gpu (findall ["gpu"] root) records ->
  get_gpu_infos E (Some out) = Ok records
  /\ length records = length (findall ["gpu"] root)
  /\ get_gpu_infos E None = Ok [].
Proof.
  intros Hroot Hwf. repeat split.
  - unfold get_gpu_infos. rewrite Hroot. simpl.
    apply rmap_Forall2. eapply Forall2_impl; [exact Hwf|].
    apply parse_gpu_well_formed.
  - symmetry. eapply Forall2_length; eassumption.
Qed.

Lemma get_gpu_infos_well_formed_witness :
  get_gpu_infos sample_env (Some "<nvidia_smi_log/>") = Ok sample_records
  /\ length sample_records = length (findall ["gpu"] sample_root)
  /\ get_gpu_infos sample_env None = Ok [].
Proof.
  apply (get_gpu_infos_well_formed sample_env "<nvidia_smi_log/>" sample_root).
  - reflexivity.
  - repeat constructor; simpl.
    + eexists. split; reflexivity.
    + eexists. split; reflexivity.
    + exists (leaf "total" "8000 MiB"), "MiB". split; reflexivity.
    + exists (leaf "used" "2000 MiB"), "MiB". split; reflexivity.
    + exists (leaf "free" "6000 MiB"), "MiB". split; reflexivity.
    + eexists. split; reflexivity.
    + exists (leaf "used_memory" "500 MiB"), "MiB". split; reflexivity.
Defined.

(** ** Sub-processes: what is run, and what a failure leaves behind *)

Section Invocations.

Variable E : env.

Lemma get_user_info_eq (server : string) (pids : list (option string)) (w : world) :
  pids <> [] ->
  get_user_info E server pids w
  = match lookup_invocation E server pids with
    | Ok inv => lookup_users E server inv pids w
    | Raise e => (Raise e, w)
    end.
Proof.
  intros Hne. destruct pids as [|p pids]; [congruence|].
  unfold get_user_info, lookup_invocation.
  destruct (join_pids (p :: pids)) as [joined|e]; [|reflexivity].
  simpl. unfold mbind, M_bind, lift. simpl.
  destruct (is_local server) as [[|]|e]; simpl; try reflexivity.
  destruct (build_ssh_command E server (lookup_cmd joined)); reflexivity.
Qed.

Lemma fetch_eq (server : string) (w : world) :
  fetch E server w
  = match fetch_invocation E server with
    | Ok inv =>
        if is_local server is Ok true then run_nvidiasmi_local E w
        else try_nvidiasmi_remote E server inv w
    | Raise e => (Raise e, w)
    end.
Proof.
  unfold fetch, fetch_invocation, run_nvidiasmi_remote.
  unfold mbind, M_bind, lift. simpl.
  destruct (is_local server) as [[|]|e]; simpl; try reflexivity.
  destruct (build_ssh_command E server _); reflexivity.
Qed.

Lemma lookup_users_failed (server : string) (inv : invocation)
    (pids : list (option string)) (w : world) :
  handled_failure (check_output E (history w) inv) ->
  exists entry,
    lookup_users E server inv pids w
    = (Ok ∅, {| history := history w ++ [inv];
                log := log w ++ [entry];
                scr := scr w |}).
Proof.
  intros [H | [rc H]]; unfold lookup_users, run; rewrite H;
    eexists; reflexivity.
Qed.

End Invocations.

(** C8. With no identifier, owner resolution runs no command and returns the
    empty map, leaving the world as it was.  When the lookup command times
    out or exits with a non-zero status, it returns the empty map without
    raising, having run that one command and written one log entry. *)
Theorem get_user_info_empty_or_failed (E : env) (server : string) (w : world) :
  get_user_info E server [] w = (Ok ∅, w)
  /\ forall pids inv,
      pids <> [] ->
      lookup_invocation E server pids = Ok inv ->
      handled_failure (check_output E (history w) inv) ->
      exists entry,
        get_user_info E server pids w
        = (Ok ∅, {| history := history w ++ [inv];
                    log := log w ++ [entry];
                    scr := scr w |}).
Proof.
  split; [reflexivity|].
  intros pids inv Hne Hinv Hfail.
  rewrite get_user_info_eq, Hinv by assumption.
  now apply lookup_users_failed.
Qed.

Lemma get_user_info_empty_or_failed_witness :
  get_user_info (failing_env TimeoutExpired) "10.0.0.1 -p22" [] (start_world 24 80)
  = (Ok ∅, start_world 24 80)
  /\ exists entry,
      get_user_info (failing_env TimeoutExpired) "10.0.0.1 -p22" [Some "123"]
        (start_world 24 80)
      = (Ok ∅,
         {| history := [Argv ["ssh"; "-p"; "22"; "10.0.0.1"; "ps -o user= -p 123"] 10];
            log := [entry];
            scr := blank_window 24 80 |}).
Proof.
  destruct (get_user_info_empty_or_failed (failing_env TimeoutExpired)
              "10.0.0.1 -p22" (start_world 24 80)) as [H0 H1].
  split; [exact H0|].
  apply (H1 [Some "123"]
            (Argv ["ssh"; "-p"; "22"; "10.0.0.1"; "ps -o user= -p 123"] 10)).
  - discriminate.
  - reflexivity.
  - left. reflexivity.
Defined.

(** ** A host without device records *)

Lemma display_gpu_infos_nil (E : env) (server : string) (col row_offset : Z) (w : world) :
  display_gpu_infos E server [] col row_offset w
  = match addstr_at (scr w) row_offset col ("Server: " ++ server) 0 with
    | (false, s) => (Ok row_offset, set_scr w s)
    | (true, s) =>
        (Ok (row_offset + 1 + 2),
         set_scr w
           (if row_offset + 1 <? LINES s - 1
            then snd (addstr_at s (row_offset + 1) col (separator s) 0)
            else s))
    end.
Proof.
  unfold display_gpu_infos.
  destruct (addstr_at (scr w) row_offset col ("Server: " ++ server) 0) as [[|] s];
    [|reflexivity].
  simpl. destruct (row_offset + 1 <? LINES s - 1); reflexivity.
Qed.

Lemma display_gpu_infos_nil_ok (E : env) (server : string) (col row_offset : Z) (w : world) :
  exists r w', display_gpu_infos E server [] col row_offset w = (Ok r, w')
               /\ history w' = history w /\ log w' = log w.
Proof.
  rewrite display_gpu_infos_nil.
  destruct (addstr_at (scr w) row_offset col ("Server: " ++ server) 0) as [[|] s];
    eexists _, _; repeat split.
Qed.

(** When the fetch gives nothing, the host is rendered from the empty list
    of records and the turn of the loop ends normally. *)
Lemma poll_host_absent (E : env) (col_width : Z) (i : nat) (server : string)
    (offs : Z * Z) (w w1 : world) :
  fetch E server w = (Ok None, w1) ->
  exists offs' w2,
    poll_host E col_width i server offs w = (Ok offs', w2)
    /\ history w2 = history w1 /\ log w2 = log w1
    /\ fst (display_gpu_infos E server [] (if Nat.even i then 0 else col_width + 1)
              (if Nat.even i then fst offs else snd offs) w1)
       = Ok (if Nat.even i then fst offs' else snd offs')
    /\ snd (display_gpu_infos E server [] (if Nat.even i then 0 else col_width + 1)
              (if Nat.even i then fst offs else snd offs) w1) = w2.
Proof.
  intros Hf. unfold poll_host.
  destruct (Nat.even i); unfold mbind, M_bind; rewrite Hf; simpl.
  - destruct (display_gpu_infos_nil_ok E server 0 (fst offs) w1)
      as (r & w2 & Hd & Hh & Hl).
    rewrite Hd. simpl. eexists _, _. repeat split; assumption.
  - destruct (display_gpu_infos_nil_ok E server (col_width + 1) (snd offs) w1)
      as (r & w2 & Hd & Hh & Hl).
    rewrite Hd. simpl. eexists _, _. repeat split; assumption.
Qed.

Lemma fetch_failed (E : env) (server : string) (w : world) (inv : invocation) :
  fetch_invocation E server = Ok inv ->
  handled_failure (check_output E (history w) inv) ->
  exists entry,
    fetch E server w
    = (Ok None, {| history := history w ++ [inv];
                   log := log w ++ [entry];
                   scr := scr w |})
    /\ entry_for (check_output E (history w) inv) inv entry.
Proof.
  intros Hinv Hfail. rewrite fetch_eq, Hinv.
  unfold fetch_invocation in Hinv.
  destruct (is_local server) as [[|]|e]; simpl in Hinv; try discriminate.
  - injection Hinv as <-.
    unfold run_nvidiasmi_local, run.
    destruct Hfail as [H | [rc H]]; rewrite H; eexists; split;
      try reflexivity; simpl; eexists; reflexivity.
  - unfold try_nvidiasmi_remote, run.
    destruct Hfail as [H | [rc H]]; rewrite H; eexists; split;
      try reflexivity; simpl; eexists; reflexivity.
Qed.

(** C7 (amended). A telemetry fetch, local or remote, whose sub-process times
    out or exits with a non-zero status returns the absent value None in
    both cases, without raising; it has run that one command and written
    one log entry, which names the timeout or carries the failed command
    and its exit status.  The turn of the loop for that host then ends
    normally, so the cycle goes on with the other hosts. *)
Theorem fetch_failure_absent (E : env) (server : string) (w : world) (inv : invocation) :
  fetch_invocation E server = Ok inv ->
  handled_failure (check_output E (history w) inv) ->
  exists entry,
    fetch E server w
    = (Ok None, {| history := history w ++ [inv];
                   log := log w ++ [entry];
                   scr := scr w |})
    /\ entry_for (check_output E (history w) inv) inv entry
    /\ forall col_width i offs,
        is_ok (fst (poll_host E col_width i server offs w)) = true.
Proof.
  intros Hinv Hfail.
  destruct (fetch_failed E server w inv Hinv Hfail) as (entry & Hf & He).
  exists entry. repeat split; try assumption.
  intros cw i offs.
  destruct (poll_host_absent E cw i server offs w _ Hf) as (offs' & w2 & Hp & _).
  now rewrite Hp.
Qed.

Lemma fetch_failure_absent_witness :
  exists entry,
    fetch (failing_env (CalledProcessError 255)) "10.0.0.1 -p22" (start_world 24 80)
    = (Ok None,
       {| history := [Argv ["ssh"; "-p"; "22"; "10.0.0.1"; "timeout 10 nvidia-smi -q -x"] 5];
          log := [entry];
          scr := blank_window 24 80 |})
    /\ (exists text,
          entry = LogErrorExc text
                    (Argv ["ssh"; "-p"; "22"; "10.0.0.1"; "timeout 10 nvidia-smi -q -x"] 5)
                    255)
    /\ forall col_width i offs,
        is_ok (fst (poll_host (failing_env (CalledProcessError 255)) col_width i
                      "10.0.0.1 -p22" offs (start_world 24 80))) = true.
Proof.
  apply (fetch_failure_absent (failing_env (CalledProcessError 255)) "10.0.0.1 -p22"
           (start_world 24 80)
           (Argv ["ssh"; "-p"; "22"; "10.0.0.1"; "timeout 10 nvidia-smi -q -x"] 5)).
  - reflexivity.
  - right. exists 255. reflexivity.
Defined.

(** C7, as stated, fails: the value returned for a non-zero exit does not
    carry the exit status (no function recovers it from the result), and it
    is the same value as the one returned for a timeout. *)
Lemma fetch_result_untyped_counterexample :
  (~ exists detail : result (option string) -> Z,
       forall rc,
         detail (fst (run_nvidiasmi_local (failing_env (CalledProcessError rc))
                        (start_world 24 80))) = rc)
  /\ fst (run_nvidiasmi_local (failing_env TimeoutExpired) (start_world 24 80))
     = fst (run_nvidiasmi_local (failing_env (CalledProcessError 1)) (start_world 24 80))
  /\ fst (run_nvidiasmi_remote (failing_env TimeoutExpired) "10.0.0.1 -p22" 5 10
            (start_world 24 80))
     = fst (run_nvidiasmi_remote (failing_env (CalledProcessError 255)) "10.0.0.1 -p22" 5 10
              (start_world 24 80)).
Proof.
  split; [|split; reflexivity].
  intros [detail H].
  pose proof (H 1) as H1. pose proof (H 2) as H2.
  simpl in H1, H2. rewrite H1 in H2. discriminate.
Qed.

(** ** The command lines sent to a remote host *)

Lemma build_ssh_command_last (E : env) (server remote_cmd : string) (v : list string) :
  build_ssh_command E server remote_cmd = Ok v -> List.last v "" = remote_cmd.
Proof.
  unfold build_ssh_command.
  destruct (parse_server server) as [[host port]|e]; simpl; [|discriminate].
  intros H. injection H as <-.
  destruct (truthy port); reflexivity.
Qed.

(** The remote telemetry command carries its own [timeout]. *)
Lemma fetch_remote_embeds_timeout (E : env) (server : string) (inv : invocation) :
  is_local server = Ok false ->
  fetch_invocation E server = Ok inv ->
  command_of inv
  = "timeout " ++ Py.str_of_int (cmd_timeout (args E)) ++ " nvidia-smi -q -x".
Proof.
  unfold fetch_invocation. intros -> . simpl.
  destruct (build_ssh_command E server _) as [v|e] eqn:Hb; simpl; [|discriminate].
  intros H. injection H as <-. simpl.
  now apply build_ssh_command_last in Hb.
Qed.

(** The owner lookup command is the bare [ps] line, locally and remotely. *)
Lemma lookup_command (E : env) (server : string) (pids : list (option string))
    (inv : invocation) :
  lookup_invocation E server pids = Ok inv ->
  exists joined, join_pids pids = Ok joined
                 /\ command_of inv = "ps -o user= -p " ++ joined.
Proof.
  unfold lookup_invocation.
  destruct (join_pids pids) as [joined|e]; simpl; [|discriminate].
  destruct (is_local server) as [[|]|e]; simpl; try discriminate.
  - intros H. injection H as <-. eauto.
  - destruct (build_ssh_command E server _) as [v|e] eqn:Hb; simpl; [|discriminate].
    intros H. injection H as <-. simpl.
    apply build_ssh_command_last in Hb. eauto.
Qed.

(** C9. On a remote host the telemetry fetch sends
    [timeout 10 nvidia-smi -q -x], but the owner lookup sends
    [ps -o user= -p 123]: that remote command embeds no timeout of its
    own. *)
Theorem get_user_info_remote_command_has_no_timeout :
  history (snd (run_nvidiasmi_remote sample_env "10.0.0.1 -p22" 5 10 (start_world 24 80)))
  = [Argv ["ssh"; "-p"; "22"; "10.0.0.1"; "timeout 10 nvidia-smi -q -x"] 5]
  /\ history (snd (get_user_info sample_env "10.0.0.1 -p22" [Some "123"] (start_world 24 80)))
     = [Argv ["ssh"; "-p"; "22"; "10.0.0.1"; "ps -o user= -p 123"] 10]
  /\ is_local "10.0.0.1 -p22" = Ok false.
Proof. repeat split. Qed.

(** ** Owner maps *)

Section OwnerMaps.

Lemma fold_insert_is_Some (kvs : list (option string * string)) :
  forall (m : gmap (option string) string) (p : option string),
  is_Some (fold_left (fun m kv => <[kv.1 := kv.2]> m) kvs m !! p)
  <-> p ∈ kvs.*1 \/ is_Some (m !! p).
Proof.
  induction kvs as [|[k v] kvs IH]; intros m p; simpl.
  - split; [auto | intros [H|H]; [inversion H | exact H]].
  - rewrite IH, lookup_insert_is_Some', elem_of_cons. simpl.
    split; intros H; destruct_or?; auto.
Qed.

Lemma zip_fst_take (ks : list (option string)) : forall (vs : list string),
  (zip ks vs).*1 = take (length vs) ks.
Proof.
  induction ks as [|k ks IH]; intros [|v vs]; simpl; try reflexivity.
  now rewrite IH.
Qed.

(** The keys of [dict(zip(pids, users))] are the identifiers that have a
    line to pair with. *)
Lemma dict_zip_is_Some (pids : list (option string)) (users : list string)
    (p : option string) :
  is_Some (dict_zip pids users !! p) <-> p ∈ take (length users) pids.
Proof.
  unfold dict_zip. rewrite fold_insert_is_Some, zip_fst_take, lookup_empty.
  split; [intros [H|H]; [exact H | now destruct H] | auto].
Qed.

Lemma owner_of_missing (m : gmap (option string) string) (p : option string) :
  m !! p = None -> owner_of m p = "Unknown".
Proof. unfold owner_of. now intros ->. Qed.

End OwnerMaps.

(** C2 (amended). Owner resolution returns [dict(zip(pids, lines))]: its keys are
    the identifiers that have a returned line to pair with, so with fewer
    lines than identifiers the last identifiers are no keys; after a timeout
    or a non-zero exit the map is empty.  An identifier that is no key is
    not stored with a sentinel: it is attributed to ["Unknown"] when the
    renderer looks it up. *)
Theorem owner_defaults_at_lookup (E : env) (server : string)
    (pids : list (option string)) (w : world) (inv : invocation) :
  pids <> [] ->
  lookup_invocation E server pids = Ok inv ->
  match check_output E (history w) inv with
  | Completed out =>
      let users := Py.split_nl (Py.strip out) in
      fst (get_user_info E server pids w) = Ok (dict_zip pids users)
      /\ forall p,
          (is_Some (dict_zip pids users !! p) <-> p ∈ take (length users) pids)
          /\ (p ∉ take (length users) pids ->
              owner_of (dict_zip pids users) p = "Unknown")
  | TimeoutExpired | CalledProcessError _ =>
      fst (get_user_info E server pids w) = Ok ∅
      /\ forall p, (∅ : gmap (option string) string) !! p = None
                   /\ owner_of ∅ p = "Unknown"
  | SpawnFailed => fst (get_user_info E server pids w) = Raise OSError
  end.
Proof.
  intros Hne Hinv. rewrite get_user_info_eq, Hinv by assumption.
  unfold lookup_users, run.
  destruct (check_output E (history w) inv) as [out| |rc|]; simpl.
  - split; [reflexivity|]. intros p. split; [apply dict_zip_is_Some|].
    intros Hp. apply owner_of_missing.
    destruct (dict_zip pids (Py.split_nl (Py.strip out)) !! p) eqn:Hl; [|reflexivity].
    exfalso. apply Hp. apply dict_zip_is_Some. eauto.
  - split; [reflexivity|]. intros p. split; [apply lookup_empty | reflexivity].
  - split; [reflexivity|]. intros p. split; [apply lookup_empty | reflexivity].
  - reflexivity.
Qed.

Lemma owner_defaults_at_lookup_witness :
  fst (get_user_info sample_env "10.0.0.1 -p22" [Some "123"; Some "456"] (start_world 24 80))
  = Ok (dict_zip [Some "123"; Some "456"] ["alice"])
  /\ forall p,
      (is_Some (dict_zip [Some "123"; Some "456"] ["alice"] !! p)
       <-> p ∈ take 1 [Some "123"; Some "456"])
      /\ (p ∉ take 1 [Some "123"; Some "456"] ->
          owner_of (dict_zip [Some "123"; Some "456"] ["alice"]) p = "Unknown").
Proof.
  apply (owner_defaults_at_lookup sample_env "10.0.0.1 -p22" [Some "123"; Some "456"]
           (start_world 24 80)
           (Argv ["ssh"; "-p"; "22"; "10.0.0.1"; "ps -o user= -p 123,456"] 10)).
  - discriminate.
  - reflexivity.
Defined.

(** C2, as stated, fails: after a timed-out lookup the identifier ["123"] is
    no key of the returned map (no sentinel is stored for it), and when one
    line comes back for two identifiers the second identifier is no key. *)
Lemma owner_map_keys_counterexample :
  (exists m,
     fst (get_user_info (failing_env TimeoutExpired) "10.0.0.1 -p22" [Some "123"]
            (start_world 24 80)) = Ok m
     /\ m !! Some "123" = None)
  /\ (exists m,
       fst (get_user_info sample_env "10.0.0.1 -p22" [Some "123"; Some "456"]
              (start_world 24 80)) = Ok m
       /\ m !! Some "123" = Some "alice"
       /\ m !! Some "456" = None).
Proof.
  split; eexists; (split; [reflexivity|]); [|split]; reflexivity.
Qed.

(** ** Aggregation *)

Section Aggregation.

Variable user_info : gmap (option string) string.





End Aggregation.

(** ** The window *)

#[global] Instance painted_inside_refl : Reflexive painted_inside.
Proof. intros s. repeat split. exists []. split; [reflexivity | constructor]. Qed.

Lemma in_window_dims (s s' : window) (y x : Z) :
  LINES s' = LINES s -> COLS s' = COLS s -> in_window s' y x = in_window s y x.
Proof. unfold in_window. now intros -> ->. Qed.

#[global] Instance painted_inside_trans : Transitive painted_inside.
Proof.
  intros s1 s2 s3 (Hl & Hc & new & Hn & Hf) (Hl' & Hc' & new' & Hn' & Hf').
  repeat split; try congruence.
  exists (new' ++ new)%list. split.
  - rewrite Hn', Hn. now rewrite app_assoc.
  - apply Forall_app. split; [|assumption].
    eapply Forall_impl; [exact Hf'|]. intros c Hc0. simpl in Hc0.
    now rewrite <- (in_window_dims s1 s2).
Qed.

Lemma waddch_inside (s : window) (c : ascii) (a : Z) :
  cursor_ok s ->
  painted_inside s (waddch s c a).2 /\ cursor_ok (waddch s c a).2.
Proof.
  unfold cursor_ok, waddch, in_window. intros Hc.
  assert (painted_inside_cell :
    Forall (fun c0 => in_window s (cell_y c0) (cell_x c0) = true)
      [{| cell_y := cur_y s; cell_x := cur_x s; cell_ch := c; cell_attr := a |}]).
  { constructor; [exact Hc | constructor]. }
  destruct (cur_x s + 1 <? COLS s) eqn:Hx;
    [|destruct (cur_y s + 1 <? LINES s) eqn:Hy]; simpl;
    (split; [repeat split; eexists [_]; split; [reflexivity | assumption]|]);
    lia.
Qed.

Lemma waddstr_inside (text : string) (a : Z) : forall s,
  cursor_ok s ->
  painted_inside s (waddstr s text a).2 /\ cursor_ok (waddstr s text a).2.
Proof.
  induction text as [|c text IH]; intros s Hc; simpl.
  - split; [reflexivity | assumption].
  - destruct (waddch_inside s c a Hc) as [Hp Hc'].
    destruct (waddch s c a) as [[|] s1]; simpl in *.
    + destruct (IH s1 Hc') as [Hp' Hc''].
      split; [etransitivity; eassumption | assumption].
    + split; assumption.
Qed.

Lemma wmove_cursor_ok (s s' : window) (y x : Z) :
  wmove s y x = Some s' -> painted_inside s s' /\ cursor_ok s'.
Proof.
  unfold wmove. destruct (in_window s y x) eqn:Hin; [|discriminate].
  intros H. injection H as <-. split.
  - repeat split. exists []. split; [reflexivity | constructor].
  - exact Hin.
Qed.

(** A positioned write paints inside the window from any state, and
    leaves the cursor inside when it succeeds. *)
Lemma addstr_at_inside (s : window) (y x : Z) (text : string) (a : Z) :
  painted_inside s (addstr_at s y x text a).2
  /\ ((addstr_at s y x text a).1 = true -> cursor_ok (addstr_at s y x text a).2).
Proof.
  unfold addstr_at. destruct (wmove s y x) as [s'|] eqn:Hm.
  - destruct (wmove_cursor_ok _ _ _ _ Hm) as [Hp Hc].
    destruct (waddstr_inside text a s' Hc) as [Hp' Hc'].
    split; [etransitivity; eassumption | auto].
  - simpl. split; [reflexivity | discriminate].
Qed.

Lemma addch_at_inside (s : window) (y x : Z) (c : ascii) :
  painted_inside s (addch_at s y x c).2.
Proof.
  unfold addch_at. destruct (wmove s y x) as [s'|] eqn:Hm; [|reflexivity].
  destruct (wmove_cursor_ok _ _ _ _ Hm) as [Hp Hc].
  destruct (waddch_inside s' c 0 Hc) as [Hp' _].
  etransitivity; eassumption.
Qed.

(** ** Reasoning about the steps of a [try] body *)

Section Steps.

Context (I : Z * world -> Prop) (R : relation (Z * world)).
Context `{!Reflexive R} `{!Transitive R}.

Lemma anchored_steady {A} (m : T A) : anchored I R m -> steady I R m.
Proof. intros H st _. apply H. Qed.

Lemma steady_ret {A} (a : A) : steady I R (mret a).
Proof. intros st Hst. split; [reflexivity | intros _; exact Hst]. Qed.

Lemma anchored_bind {A B} (m : T A) (k : A -> T B) :
  anchored I R m -> (forall a, steady I R (k a)) -> anchored I R (m ≫= k).
Proof.
  intros Hm Hk st. specialize (Hm st). unfold mbind, T_bind.
  destruct (m st) as [[a| |e] st1]; simpl in *.
  - destruct Hm as [HR HI]. destruct (Hk a st1 (HI Logic.I)) as [HR' HI'].
    split; [etransitivity; eassumption | assumption].
  - split; [apply Hm | intros []].
  - split; [apply Hm | intros []].
Qed.

Lemma steady_bind {A B} (m : T A) (k : A -> T B) :
  steady I R m -> (forall a, steady I R (k a)) -> steady I R (m ≫= k).
Proof.
  intros Hm Hk st Hst. specialize (Hm st Hst). unfold mbind, T_bind.
  destruct (m st) as [[a| |e] st1]; simpl in *.
  - destruct Hm as [HR HI]. destruct (Hk a st1 (HI Logic.I)) as [HR' HI'].
    split; [etransitivity; eassumption | assumption].
  - split; [apply Hm | intros []].
  - split; [apply Hm | intros []].
Qed.

Lemma steady_for {A} (body : A -> T unit) (l : list A) :
  (forall a, steady I R (body a)) -> steady I R (t_for l body).
Proof.
  intros Hb. induction l as [|a l IH]; simpl.
  - apply steady_ret.
  - apply steady_bind; [apply Hb | intros _; exact IH].
Qed.

End Steps.

Section Quiet.







End Quiet.

(** ** What owner resolution does to the world *)

Lemma lookup_users_effect (E : env) (server : string) (inv : invocation)
    (pids : list (option string)) (w : world) :
  scr (lookup_users E server inv pids w).2 = scr w
  /\ history (lookup_users E server inv pids w).2 = (history w ++ [inv])%list
  /\ (lookup_users E server inv pids w).1 <> Raise CursesError.
Proof.
  unfold lookup_users, run.
  destruct (check_output E (history w) inv); simpl; repeat split; discriminate.
Qed.

Lemma lookup_invocation_not_curses (E : env) (server : string)
    (pids : list (option string)) :
  lookup_invocation E server pids <> Raise CursesError.
Proof.
  unfold lookup_invocation, join_pids.
  assert (forall l : list (option string),
            rmap (fun p => match p with Some s => Ok s | None => Raise TypeError end) l
            <> Raise CursesError) as Hj.
  { induction l as [|[s|] l IH]; simpl; try discriminate.
    destruct (rmap _ l) as [strs|e]; simpl in *; [discriminate | exact IH]. }
  specialize (Hj pids). destruct (rmap _ pids) as [strs|e]; simpl;
    [|intros H; apply Hj; congruence].
  unfold is_local, build_ssh_command, parse_server.
  destruct (Py.split server) as [|h rest]; simpl; [discriminate|].
  match goal with |- (if ?b then _ else _) <> _ => destruct b end; discriminate.
Qed.

Lemma get_user_info_effect (E : env) (server : string)
    (pids : list (option string)) (w : world) :
  scr (get_user_info E server pids w).2 = scr w
  /\ (get_user_info E server pids w).1 <> Raise CursesError
  /\ (history (get_user_info E server pids w).2 = history w
      \/ exists inv, pids <> [] /\ lookup_invocation E server pids = Ok inv
                     /\ history (get_user_info E server pids w).2
                        = (history w ++ [inv])%list).
Proof.
  destruct pids as [|p pids]; [simpl; repeat split; [discriminate | now left]|].
  rewrite get_user_info_eq by discriminate.
  pose proof (lookup_invocation_not_curses E server (p :: pids)) as Hn.
  destruct (lookup_invocation E server (p :: pids)) as [inv|e] eqn:Hinv; simpl.
  - destruct (lookup_users_effect E server inv (p :: pids) w) as (Hs & Hh & Hc).
    repeat split; try assumption. right. exists inv. repeat split; [discriminate | assumption].
  - split; [reflexivity|]. split; [|now left].
    intros H. apply Hn. congruence.
Qed.

(** ** The geometry of one device block *)

#[global] Instance geometry_refl : Reflexive geometry.
Proof. intros st. split; [lia | reflexivity]. Qed.

#[global] Instance geometry_trans : Transitive geometry.
Proof.
  intros s1 s2 s3 [Hr Hp] [Hr' Hp']. split; [lia | etransitivity; eassumption].
Qed.

Section Geometry.

Lemma anchored_addstr (col : Z) (text : string) (a : Z) :
  anchored cursor_inv geometry (t_addstr col text a).
Proof.
  intros [row w]. unfold t_addstr.
  destruct (addstr_at_inside (scr w) row col text a) as [Hp Hc].
  destruct (addstr_at (scr w) row col text a) as [[|] s]; simpl in *.
  - split; [split; [simpl; lia | exact Hp] | intros _; now apply Hc].
  - split; [split; [simpl; lia | exact Hp] | intros []].
Qed.

Lemma steady_addstr_cur (text : string) (a : Z) :
  steady cursor_inv geometry (t_addstr_cur text a).
Proof.
  intros [row w] Hc. unfold t_addstr_cur.
  destruct (waddstr_inside text a (scr w) Hc) as [Hp Hc'].
  destruct (waddstr (scr w) text a) as [[|] s]; simpl in *.
  - split; [split; [simpl; lia | exact Hp] | intros _; exact Hc'].
  - split; [split; [simpl; lia | exact Hp] | intros []].
Qed.

Lemma steady_incr : steady cursor_inv geometry t_incr.
Proof.
  intros [row w] Hc. simpl. split; [split; [simpl; lia | reflexivity] | intros _; exact Hc].
Qed.

Lemma steady_lift {A} (m : M A) :
  (forall w, scr (m w).2 = scr w) -> steady cursor_inv geometry (t_lift m).
Proof.
  intros Hm [row w] Hc. unfold t_lift, cursor_inv in *. specialize (Hm w).
  destruct (m w) as [[a|e] w']; simpl in *;
    (split; [split; [simpl; lia | simpl; rewrite Hm; reflexivity]
            | intros _; simpl; now rewrite Hm]).
Qed.

Lemma anchored_user_line (col : Z) (um : string * Z) :
  anchored cursor_inv geometry (user_line col um).
Proof.
  destruct um as [user memory]. unfold user_line.
  apply anchored_bind; [apply _ | apply anchored_addstr | intros _].
  repeat (apply steady_bind; [apply _ | apply steady_addstr_cur | intros _]).
  apply steady_incr.
Qed.

Lemma anchored_gpu_block (E : env) (server : string) (col : Z) (g : gpu_info) :
  anchored cursor_inv geometry (gpu_block E server col g).
Proof.
  unfold gpu_block.
  apply anchored_bind; [apply _ | apply anchored_addstr | intros _].
  repeat first
    [ apply steady_bind; [apply _ | | intros ?]
    | apply steady_incr
    | apply steady_addstr_cur
    | apply anchored_steady, anchored_addstr
    | apply steady_lift; intros w; apply get_user_info_effect
    | apply steady_for;
        [apply _ | apply _ | intros ?; apply anchored_steady, anchored_user_line] ].
Qed.


End Geometry.

(** ** The device loop and the host block *)

Section Loop.

Variables (E : env) (server : string) (col : Z).

(** The body of the [try] is the four lines of the device followed by the
    rest. *)
Lemma gpu_block_split (g : gpu_info) (st : Z * world) :
  gpu_block E server col g st
  = match device_lines col g st with
    | (Next _, st1) => device_users E server col g st1
    | (Break, st1) => (Break, st1)
    | (Throw e, st1) => (Throw e, st1)
    end.
Proof.
  unfold gpu_block, device_lines. fold (device_users E server col g).
  unfold mbind, T_bind.
  repeat match goal with
  | |- context [t_addstr ?c ?t ?a ?s] =>
      destruct (t_addstr c t a s) as [[[]| |?] ?]; try reflexivity
  | |- context [t_addstr_cur ?t ?a ?s] =>
      destruct (t_addstr_cur t a s) as [[[]| |?] ?]; try reflexivity
  | |- context [t_incr ?s] =>
      destruct (t_incr s) as [[[]| |?] ?]; try reflexivity
  end.
Qed.





Lemma gpu_loop_geometry (gpu_infos : list gpu_info) : forall st,
  geometry st (gpu_loop E server col gpu_infos st).2.
Proof.
  induction gpu_infos as [|g rest IH]; intros st; simpl; [reflexivity|].
  destruct (st.1 >=? LINES (scr st.2) - 1); [reflexivity|].
  destruct (anchored_gpu_block E server col g st) as [Hg _].
  destruct (gpu_block E server col g st) as [[[]| |e] st1]; simpl in *;
    try exact Hg.
  etransitivity; [exact Hg | apply IH].
Qed.



End Loop.

Section Display.

Variables (E : env) (server : string) (col row_offset : Z) (w : world).

Lemma display_gpu_infos_header_failed (gpu_infos : list gpu_info) :
  (header_write server col row_offset w).1 = false ->
  display_gpu_infos E server gpu_infos col row_offset w
  = (Ok row_offset, set_scr w (header_write server col row_offset w).2).
Proof.
  unfold display_gpu_infos, header_write.
  destruct (addstr_at _ _ _ _ _) as [[|] s]; [discriminate | reflexivity].
Qed.

Lemma display_gpu_infos_inside (gpu_infos : list gpu_info) :
  painted_inside (scr w) (scr (display_gpu_infos E server gpu_infos col row_offset w).2).
Proof.
  unfold display_gpu_infos.
  destruct (addstr_at_inside (scr w) row_offset col ("Server: " ++ server) 0) as [Hh _].
  destruct (addstr_at _ _ _ _ _) as [[|] s]; simpl in *; [|exact Hh].
  destruct (gpu_loop_geometry E server col gpu_infos (row_offset + 1, set_scr w s))
    as [_ Hl].
  destruct (gpu_loop _ _ _ _ _) as [[e|] [row w1]]; simpl in *.
  - etransitivity; eassumption.
  - destruct (row <? LINES (scr w1) - 1); simpl.
    + etransitivity; [exact Hh|]. etransitivity; [exact Hl|].
      apply addstr_at_inside.
    + etransitivity; eassumption.
Qed.


Lemma display_gpu_infos_rows (gpu_infos : list gpu_info) (r : Z) :
  (display_gpu_infos E server gpu_infos col row_offset w).1 = Ok r ->
  if (header_write server col row_offset w).1
  then row_offset + 3 <= r
  else r = row_offset.
Proof.
  unfold display_gpu_infos, header_write.
  destruct (addstr_at _ _ _ _ _) as [[|] s]; simpl; [|congruence].
  destruct (gpu_loop_geometry E server col gpu_infos (row_offset + 1, set_scr w s))
    as [Hr _].
  destruct (gpu_loop _ _ _ _ _) as [[e|] [row w1]]; simpl in *; [discriminate|].
  intros H. injection H as <-. lia.
Qed.


End Display.



(** ** The exceptions that leave the renderer *)

Section Renderer_exceptions.

Lemma throws_only_bind (P : exn -> Prop) {A B} (m : T A) (k : A -> T B) :
  throws_only P m -> (forall a, throws_only P (k a)) -> throws_only P (m ≫= k).
Proof.
  intros Hm Hk st e. specialize (Hm st). unfold mbind, T_bind.
  destruct (m st) as [[a| |e'] st1]; simpl in *.
  - apply Hk.
  - discriminate.
  - intros H. injection H as <-. now apply Hm.
Qed.

Lemma throws_only_for (P : exn -> Prop) {A} (body : A -> T unit) (l : list A) :
  (forall a, throws_only P (body a)) -> throws_only P (t_for l body).
Proof.
  intros Hb. induction l as [|a l IH]; simpl.
  - intros st e. discriminate.
  - apply throws_only_bind; [apply Hb | intros _; exact IH].
Qed.

Lemma throws_only_quiet (P : exn -> Prop) {A} (m : T A) :
  (forall st e, (m st).1 <> Throw e) -> throws_only P m.
Proof. intros H st e He. now apply H in He. Qed.

Lemma addstr_never_throws (col : Z) (text : string) (a : Z) :
  forall st e, (t_addstr col text a st).1 <> Throw e.
Proof.
  intros [row w] e. unfold t_addstr.
  destruct (addstr_at (scr w) row col text a) as [[|] s]; discriminate.
Qed.

Lemma addstr_cur_never_throws (text : string) (a : Z) :
  forall st e, (t_addstr_cur text a st).1 <> Throw e.
Proof.
  intros [row w] e. unfold t_addstr_cur.
  destruct (waddstr (scr w) text a) as [[|] s]; discriminate.
Qed.

Lemma incr_never_throws : forall st e, (t_incr st).1 <> Throw e.
Proof. intros [row w] e. discriminate. Qed.

Lemma throws_only_lift (P : exn -> Prop) {A} (m : M A) :
  (forall w e, (m w).1 = Raise e -> P e) -> throws_only P (t_lift m).
Proof.
  intros Hm [row w] e. unfold t_lift. specialize (Hm w).
  destruct (m w) as [[a|e'] w']; simpl in *; [discriminate|].
  intros H. injection H as <-. now apply Hm.
Qed.

Lemma is_local_error (server : string) (e : exn) :
  is_local server = Raise e -> e = IndexError.
Proof. unfold is_local. destruct (Py.split server); congruence. Qed.

Lemma build_ssh_command_error (E : env) (server remote_cmd : string) (e : exn) :
  build_ssh_command E server remote_cmd = Raise e -> e = IndexError.
Proof.
  unfold build_ssh_command, parse_server.
  destruct (Py.split server) as [|h rest]; simpl; [congruence|].
  destruct (truthy _); discriminate.
Qed.

Lemma join_pids_error (pids : list (option string)) (e : exn) :
  join_pids pids = Raise e -> e = TypeError.
Proof.
  unfold join_pids.
  assert (forall l : list (option string),
            rmap (fun p => match p with Some s => Ok s | None => Raise TypeError end) l
            = Raise e -> e = TypeError) as Hj.
  { induction l as [|[s|] l IH]; simpl; try discriminate; [|congruence].
    destruct (rmap _ l) as [strs|e']; simpl in *; [discriminate|].
    intros H. apply IH. congruence. }
  specialize (Hj pids). destruct (rmap _ pids) as [strs|e']; simpl;
    [discriminate|]. intros H. apply Hj. congruence.
Qed.

Lemma lookup_invocation_error (E : env) (server : string)
    (pids : list (option string)) (e : exn) :
  lookup_invocation E server pids = Raise e -> e = TypeError \/ e = IndexError.
Proof.
  unfold lookup_invocation.
  destruct (join_pids pids) as [joined|e'] eqn:Hj; simpl.
  - destruct (is_local server) as [[|]|e'] eqn:Hl; simpl; [discriminate| |].
    + destruct (build_ssh_command E server _) as [v|e'] eqn:Hb; simpl;
        [discriminate|].
      intros H. injection H as <-. right. eapply build_ssh_command_error; eassumption.
    + intros H. injection H as <-. right. eapply is_local_error; eassumption.
  - intros H. injection H as <-. left. eapply join_pids_error; eassumption.
Qed.

Lemma get_user_info_error (E : env) (server : string) (pids : list (option string))
    (w : world) (e : exn) :
  (get_user_info E server pids w).1 = Raise e -> lookup_error e.
Proof.
  destruct pids as [|p pids]; [discriminate|].
  rewrite get_user_info_eq by discriminate.
  destruct (lookup_invocation E server (p :: pids)) as [inv|e'] eqn:Hinv; simpl.
  - unfold lookup_users, run.
    destruct (check_output E (history w) inv); simpl; try discriminate.
    intros H. injection H as <-. right; right; reflexivity.
  - intros H. injection H as <-.
    destruct (lookup_invocation_error _ _ _ _ Hinv); [left | right; left]; assumption.
Qed.

Variable E : env.

Lemma gpu_block_throws (server : string) (col : Z) (g : gpu_info) :
  throws_only lookup_error (gpu_block E server col g).
Proof.
  unfold gpu_block, user_line.
  repeat first
    [ apply throws_only_bind; [| intros ?]
    | apply throws_only_quiet, incr_never_throws
    | apply throws_only_quiet, addstr_cur_never_throws
    | apply throws_only_quiet, addstr_never_throws
    | apply throws_only_lift; intros w e; apply get_user_info_error
    | apply throws_only_for; intros [? ?] ].
Qed.

Lemma gpu_loop_error (server : string) (col : Z) (gpu_infos : list gpu_info) :
  forall st e, (gpu_loop E server col gpu_infos st).1 = Some e -> lookup_error e.
Proof.
  induction gpu_infos as [|g rest IH]; intros st e; simpl; [discriminate|].
  destruct (st.1 >=? LINES (scr st.2) - 1); [discriminate|].
  pose proof (gpu_block_throws server col g st) as Hq.
  destruct (gpu_block E server col g st) as [[[]| |e'] st1]; simpl in *.
  - apply IH.
  - discriminate.
  - intros H. injection H as <-. now apply Hq.
Qed.

Lemma display_gpu_infos_error (server : string) (gpu_infos : list gpu_info)
    (col row_offset : Z) (w : world) (e : exn) :
  (display_gpu_infos E server gpu_infos col row_offset w).1 = Raise e -> lookup_error e.
Proof.
  unfold display_gpu_infos.
  destruct (addstr_at _ _ _ _ _) as [[|] s]; simpl; [|discriminate].
  pose proof (gpu_loop_error server col gpu_infos (row_offset + 1, set_scr w s)) as Hq.
  destruct (gpu_loop _ _ _ _ _) as [[e'|] [row w1]]; simpl in *; [|discriminate].
  intros H. injection H as <-. now apply Hq.
Qed.

End Renderer_exceptions.




(** C10. The row offset that rendering a host block returns is never below
    the starting offset: it is the starting offset exactly when the header
    write fails, and at least three rows further otherwise. *)
Theorem display_gpu_infos_row_offset (E : env) (server : string)
    (gpu_infos : list gpu_info) (col row_offset : Z) (w : world) (r : Z) :
  (display_gpu_infos E server gpu_infos col row_offset w).1 = Ok r ->
  row_offset <= r
  /\ (r = row_offset <-> (header_write server col row_offset w).1 = false)
  /\ ((header_write server col row_offset w).1 = true -> row_offset + 3 <= r).
Proof.
  intros Hr. apply display_gpu_infos_rows in Hr.
  destruct (header_write server col row_offset w).1.
  - split; [lia|]. split; [split; [lia | discriminate] | intros _; lia].
  - split; [lia|]. split; [split; [reflexivity | lia] | discriminate].
Qed.

Lemma display_gpu_infos_row_offset_witness :
  0 <= 9
  /\ (9 = 0 <-> (header_write "10.0.0.1 -p22" 0 0 (start_world 24 80)).1 = false)
  /\ ((header_write "10.0.0.1 -p22" 0 0 (start_world 24 80)).1 = true -> 0 + 3 <= 9).
Proof.
  apply (display_gpu_infos_row_offset sample_env "10.0.0.1 -p22" sample_records 0 0
           (start_world 24 80) 9).
  reflexivity.
Defined.

(** ** The sub-processes run while rendering *)

#[global] Instance same_history_refl : Reflexive same_history.
Proof. intros st. reflexivity. Qed.

#[global] Instance same_history_trans : Transitive same_history.
Proof. intros s1 s2 s3. unfold same_history. congruence. Qed.

Section History.

Variables (E : env) (server : string) (col : Z).

Lemma history_addstr (text : string) (a : Z) :
  steady no_inv same_history (t_addstr col text a).
Proof.
  intros [row w] _. unfold t_addstr.
  destruct (addstr_at (scr w) row col text a) as [[|] s]; split; easy.
Qed.

Lemma history_addstr_cur (text : string) (a : Z) :
  steady no_inv same_history (t_addstr_cur text a).
Proof.
  intros [row w] _. unfold t_addstr_cur.
  destruct (waddstr (scr w) text a) as [[|] s]; split; easy.
Qed.

Lemma history_incr : steady no_inv same_history t_incr.
Proof. intros [row w] _. split; easy. Qed.

Lemma history_user_line (um : string * Z) :
  steady no_inv same_history (user_line col um).
Proof.
  destruct um as [user memory]. unfold user_line.
  repeat first
    [ apply steady_bind; [apply _ | | intros ?]
    | apply history_incr
    | apply history_addstr_cur
    | apply history_addstr ].
Qed.

Lemma at_most_one_bind {A B} (g : gpu_info) (m : T A) (k : A -> T B) :
  steady no_inv same_history m ->
  (forall a, at_most_one_lookup E server g (k a)) ->
  at_most_one_lookup E server g (m ≫= k).
Proof.
  intros Hm Hk st. destruct (Hm st Logic.I) as [Hs _]. unfold same_history in Hs.
  unfold mbind, T_bind.
  destruct (m st) as [[a| |e] st1]; simpl in *; try (left; exact Hs).
  rewrite <- Hs. apply Hk.
Qed.

Lemma at_most_one_lift {B} (g : gpu_info)
    (k : gmap (option string) string -> T B) :
  (forall a, steady no_inv same_history (k a)) ->
  at_most_one_lookup E server g
    (t_lift (get_user_info E server (List.map pid (processes g))) ≫= k).
Proof.
  intros Hk [row w]. unfold mbind, T_bind, t_lift.
  destruct (get_user_info_effect E server (List.map pid (processes g)) w)
    as (_ & _ & Hh).
  assert (history (get_user_info E server (List.map pid (processes g)) w).2 = history w
          \/ exists inv, lookup_of E server inv g
                /\ history (get_user_info E server (List.map pid (processes g)) w).2
                   = (history w ++ [inv])%list) as Hh'.
  { destruct Hh as [Hh | (inv & Hne & Hinv & Hh)]; [now left|].
    right. exists inv. split; [|exact Hh]. split; [|exact Hinv].
    intros Hp. apply Hne. now rewrite Hp. }
  clear Hh.
  destruct (get_user_info E server (List.map pid (processes g)) w) as [[ui|e] w1];
    simpl in *; [|exact Hh'].
  destruct (Hk ui (row, w1) Logic.I) as [Hs _]. unfold same_history in Hs.
  simpl in Hs. rewrite Hs. exact Hh'.
Qed.

Lemma gpu_block_at_most_one (g : gpu_info) :
  at_most_one_lookup E server g (gpu_block E server col g).
Proof.
  unfold gpu_block.
  repeat (apply at_most_one_bind;
          [first [apply history_addstr | apply history_addstr_cur | apply history_incr]
          | intros _]).
  apply at_most_one_lift. intros ui.
  apply steady_bind; [apply _ | | intros _; apply history_incr].
  apply steady_for; [apply _ | apply _ | apply history_user_line].
Qed.

Ltac no_lookup :=
  exists [], []; split; [apply sublist_nil_l|]; split; [constructor|];
  simpl; rewrite ?app_nil_r; congruence.

(** The loop runs the lookups of some of the devices, one for each, in the
    order of the devices. *)
Lemma gpu_loop_history (gpu_infos : list gpu_info) : forall st,
  exists hs gs,
    sublist gs gpu_infos
    /\ Forall2 (lookup_of E server) hs gs
    /\ history (gpu_loop E server col gpu_infos st).2.2 = (history st.2 ++ hs)%list.
Proof.
  induction gpu_infos as [|g rest IH]; intros st; simpl; [no_lookup|].
  destruct (st.1 >=? LINES (scr st.2) - 1); [no_lookup|].
  destruct (gpu_block_at_most_one g st) as [Hg | (inv & Hinv & Hg)];
    destruct (gpu_block E server col g st) as [[[]| |e] st1]; simpl in *;
    try no_lookup.
  - destruct (IH st1) as (hs & gs & Hsub & Hall & Hh).
    exists hs, gs. split; [now apply sublist_cons|]. split; [assumption|].
    congruence.
  - destruct (IH st1) as (hs & gs & Hsub & Hall & Hh).
    exists (inv :: hs), (g :: gs).
    split; [now apply sublist_skip|]. split; [now constructor|].
    rewrite Hh, Hg. now rewrite <- app_assoc.
  - exists [inv], [g].
    split; [apply sublist_skip, sublist_nil_l|]. split; [|assumption].
    repeat constructor; apply Hinv.
  - exists [inv], [g].
    split; [apply sublist_skip, sublist_nil_l|]. split; [|assumption].
    repeat constructor; apply Hinv.
Qed.

Lemma display_gpu_infos_history (gpu_infos : list gpu_info) (row_offset : Z) (w : world) :
  exists hs gs,
    sublist gs gpu_infos
    /\ Forall2 (lookup_of E server) hs gs
    /\ history (display_gpu_infos E server gpu_infos col row_offset w).2
       = (history w ++ hs)%list.
Proof.
  unfold display_gpu_infos.
  destruct (addstr_at _ _ _ _ _) as [[|] s]; simpl; [|no_lookup].
  destruct (gpu_loop_history gpu_infos (row_offset + 1, set_scr w s))
    as (hs & gs & Hsub & Hall & Hh).
  exists hs, gs. split; [assumption|]. split; [assumption|].
  destruct (gpu_loop _ _ _ _ _) as [[e|] [row w1]]; simpl in *; [exact Hh|].
  destruct (row <? LINES (scr w1) - 1); exact Hh.
Qed.

Lemma history_device_lines (g : gpu_info) :
  steady no_inv same_history (device_lines col g).
Proof.
  unfold device_lines.
  repeat first
    [ apply steady_bind; [apply _ | | intros ?]
    | apply history_incr
    | apply history_addstr_cur
    | apply history_addstr ].
Qed.

Lemma history_user_lines (um : list (string * Z)) :
  steady no_inv same_history (t_for um (user_line col) ;; t_incr).
Proof.
  apply steady_bind; [apply _ | | intros _; apply history_incr].
  apply steady_for; [apply _ | apply _ | apply history_user_line].
Qed.

(** What owner resolution for the processes of a device adds to the
    history when it returns: nothing for a device without processes, the
    lookup of the device otherwise. *)
Lemma get_user_info_lookup (g : gpu_info) (w w1 : world)
    (ui : gmap (option string) string) :
  get_user_info E server (List.map pid (processes g)) w = (Ok ui, w1) ->
  exists hs,
    Forall2 (lookup_of E server) hs (List.filter has_processes [g])
    /\ history w1 = (history w ++ hs)%list.
Proof.
  unfold has_processes, lookup_of. simpl.
  destruct (processes g) as [|p ps] eqn:Hp.
  - simpl. intros H. injection H as _ <-. exists []. split; [constructor|].
    now rewrite app_nil_r.
  - rewrite get_user_info_eq by discriminate.
    destruct (lookup_invocation E server (List.map pid (p :: ps))) as [inv|e] eqn:Hinv;
      [|discriminate].
    intros H. exists [inv]. split.
    + constructor; [|constructor]. cbn beta. rewrite Hp.
      split; [discriminate | exact Hinv].
    + destruct (lookup_users_effect E server inv (List.map pid (p :: ps)) w)
        as (_ & Hh & _).
      rewrite H in Hh. exact Hh.
Qed.

(** A block whose four lines are written and which does not throw has run
    the lookup of its device, if the device has processes, and nothing
    else. *)
Lemma device_users_lookup (g : gpu_info) (st : Z * world) :
  (forall e, (device_users E server col g st).1 <> Throw e) ->
  exists hs,
    Forall2 (lookup_of E server) hs (List.filter has_processes [g])
    /\ history (device_users E server col g st).2.2 = (history st.2 ++ hs)%list.
Proof.
  destruct st as [row w]. unfold device_users, mbind, T_bind, t_lift.
  destruct (get_user_info E server (List.map pid (processes g)) w) as [[ui|e] w1] eqn:Hu.
  - intros _. destruct (get_user_info_lookup g w w1 ui Hu) as (hs & Hall & Hh).
    exists hs. split; [exact Hall|].
    destruct (history_user_lines (user_memory ui (processes g)) (row, w1) Logic.I)
      as [Hs _].
    unfold same_history, mbind, T_bind in Hs. simpl in *. now rewrite Hs.
  - intros H. exfalso. now apply (H e).
Qed.

(** The lookups of a loop that no exception leaves: one for each rendered
    device that has processes, in the order of the devices. *)
Lemma gpu_loop_lookups (gpu_infos : list gpu_info) : forall st,
  (gpu_loop E server col gpu_infos st).1 = None ->
  exists hs,
    Forall2 (lookup_of E server) hs
      (List.filter has_processes (rendered E server col gpu_infos st))
    /\ history (gpu_loop E server col gpu_infos st).2.2 = (history st.2 ++ hs)%list.
Proof.
  induction gpu_infos as [|g rest IH]; intros st; simpl.
  - intros _. exists []. split; [constructor | now rewrite app_nil_r].
  - destruct (st.1 >=? LINES (scr st.2) - 1).
    { intros _. exists []. split; [constructor | now rewrite app_nil_r]. }
    rewrite gpu_block_split.
    destruct (history_device_lines g st Logic.I) as [Hl _]. unfold same_history in Hl.
    destruct (device_lines col g st) as [[[]| |e] st1]; simpl in Hl.
    + pose proof (device_users_lookup g st1) as Hu.
      destruct (device_users E server col g st1) as [[[]| |e] st2]; simpl in *.
      * intros Hnone. destruct (IH st2 Hnone) as (hs2 & Hall2 & Hh2).
        destruct Hu as (hs1 & Hall1 & Hh1); [discriminate|].
        exists (hs1 ++ hs2)%list. split.
        { destruct (has_processes g); simpl in *.
          - inversion Hall1 as [|x y l l' Hx Hnil]; subst. inversion Hnil; subst.
            simpl. now constructor.
          - inversion Hall1; subst. exact Hall2. }
        rewrite Hh2, Hh1, Hl. now rewrite app_assoc.
      * intros _. destruct Hu as (hs1 & Hall1 & Hh1); [discriminate|].
        exists hs1. split.
        { destruct (has_processes g); simpl in *; exact Hall1. }
        now rewrite Hh1, Hl.
      * discriminate.
    + intros _. exists []. split; [constructor|]. simpl. now rewrite app_nil_r.
    + discriminate.
Qed.

Lemma display_gpu_infos_lookups (gpu_infos : list gpu_info) (row_offset : Z) (w : world)
    (r : Z) :
  (display_gpu_infos E server gpu_infos col row_offset w).1 = Ok r ->
  exists hs,
    Forall2 (lookup_of E server) hs
      (List.filter has_processes (rendered_devices E server gpu_infos col row_offset w))
    /\ history (display_gpu_infos E server gpu_infos col row_offset w).2
       = (history w ++ hs)%list.
Proof.
  unfold display_gpu_infos, rendered_devices, header_write.
  destruct (addstr_at _ _ _ _ _) as [[|] s]; simpl.
  - pose proof (gpu_loop_lookups gpu_infos (row_offset + 1, set_scr w s)) as Hl.
    destruct (gpu_loop _ _ _ _ _) as [[e|] [row w1]]; simpl in *; [discriminate|].
    intros _. destruct (Hl eq_refl) as (hs & Hall & Hh).
    exists hs. split; [exact Hall|].
    destruct (row <? LINES (scr w1) - 1); exact Hh.
  - intros _. exists []. split; [constructor | now rewrite app_nil_r].
Qed.

(** The lookup of one device, whatever comes after it in the block. *)
Lemma gpu_block_lookup (g : gpu_info) (st : Z * world) (inv : invocation) :
  is_next (device_lines col g st).1 ->
  lookup_of E server inv g ->
  history (gpu_block E server col g st).2.2 = (history st.2 ++ [inv])%list.
Proof.
  intros Hnext [Hne Hinv]. rewrite gpu_block_split.
  destruct (history_device_lines g st Logic.I) as [Hl _]. unfold same_history in Hl.
  destruct (device_lines col g st) as [[[]| |e] [row w1]]; simpl in *; try easy.
  unfold device_users, mbind, T_bind, t_lift.
  assert (List.map pid (processes g) <> []) as Hne'
    by (destruct (processes g); [congruence | discriminate]).
  destruct (lookup_users_effect E server inv (List.map pid (processes g)) w1)
    as (_ & Hh & _).
  rewrite get_user_info_eq, Hinv in * by assumption.
  destruct (lookup_users E server inv _ w1) as [[ui|e] w2]; simpl in *;
    [|now rewrite Hh, Hl].
  destruct (history_user_lines (user_memory ui (processes g)) (row, w2) Logic.I)
    as [Hs _].
  unfold same_history, mbind, T_bind in Hs. simpl in *. now rewrite Hs, Hh, Hl.
Qed.

(** Without its four lines, or without processes, a device costs no
    sub-process. *)
Lemma gpu_block_no_lookup (g : gpu_info) (st : Z * world) :
  ~ is_next (device_lines col g st).1 \/ processes g = [] ->
  history (gpu_block E server col g st).2.2 = history st.2.
Proof.
  intros Hcase. rewrite gpu_block_split.
  destruct (history_device_lines g st Logic.I) as [Hl _]. unfold same_history in Hl.
  destruct (device_lines col g st) as [[[]| |e] [row w1]]; simpl in *; try exact Hl.
  destruct Hcase as [Hn | Hp]; [now destruct Hn|].
  unfold device_users, mbind, T_bind, t_lift. rewrite Hp. simpl. exact Hl.
Qed.

End History.

(** C3 (amended). One call of owner resolution with a non-empty list of
    identifiers runs exactly one command, the [ps] line listing all of them
    comma-joined.  The renderer calls it inside the device loop with the
    identifiers of one device, so the lookups are per device, never per
    process and never one for the host:
    - rendering a host never runs anything but lookups of its devices, at
      most one for each, in the order of the devices;
    - a device whose four lines have been written and which has processes
      costs exactly one lookup, that of its own identifiers, whatever
      happens to the user lines after it;
    - a device whose four lines are not all written, or which has no
      process, costs none;
    - when rendering ends normally, the sub-processes it has run are
      exactly the lookups of the rendered devices that have processes, one
      for each, in the order of the devices. *)
Theorem one_lookup_per_device (E : env) (server : string) :
  (forall pids w inv,
     pids <> [] ->
     lookup_invocation E server pids = Ok inv ->
     history (get_user_info E server pids w).2 = (history w ++ [inv])%list
     /\ exists joined, join_pids pids = Ok joined
                       /\ command_of inv = "ps -o user= -p " ++ joined)
  /\ (forall gpu_infos col row_offset w,
       exists hs gs,
         sublist gs gpu_infos
         /\ Forall2 (lookup_of E server) hs gs
         /\ history (display_gpu_infos E server gpu_infos col row_offset w).2
            = (history w ++ hs)%list)
  /\ (forall col g st inv,
       is_next (device_lines col g st).1 ->
       lookup_of E server inv g ->
       history (gpu_block E server col g st).2.2 = (history st.2 ++ [inv])%list)
  /\ (forall col g st,
       ~ is_next (device_lines col g st).1 \/ processes g = [] ->
       history (gpu_block E server col g st).2.2 = history st.2)
  /\ (forall gpu_infos col row_offset w r,
       (display_gpu_infos E server gpu_infos col row_offset w).1 = Ok r ->
       exists hs,
         Forall2 (lookup_of E server) hs
           (List.filter has_processes
              (rendered_devices E server gpu_infos col row_offset w))
         /\ history (display_gpu_infos E server gpu_infos col row_offset w).2
            = (history w ++ hs)%list).
Proof.
  split; [|split; [|split; [|split]]].
  - intros pids w inv Hne Hinv. split; [|eapply lookup_command; eassumption].
    rewrite get_user_info_eq, Hinv by assumption. apply lookup_users_effect.
  - intros gpu_infos col row_offset w. apply display_gpu_infos_history.
  - intros col g st inv. apply gpu_block_lookup.
  - intros col g st. apply gpu_block_no_lookup.
  - intros gpu_infos col row_offset w r. apply display_gpu_infos_lookups.
Qed.

Lemma one_lookup_per_device_witness :
  (history (get_user_info two_gpu_env "10.0.0.1 -p22" [Some "11"; Some "22"]
              (start_world 24 80)).2
   = [Argv ["ssh"; "-p"; "22"; "10.0.0.1"; "ps -o user= -p 11,22"] 10]
   /\ exists joined,
       join_pids [Some "11"; Some "22"] = Ok joined
       /\ command_of (Argv ["ssh"; "-p"; "22"; "10.0.0.1"; "ps -o user= -p 11,22"] 10)
          = "ps -o user= -p " ++ joined)
  /\ (forall g, two_gpu_records !! 0%nat = Some g ->
        history (gpu_block two_gpu_env "10.0.0.1 -p22" 0 g (1, start_world 24 80)).2.2
        = [Argv ["ssh"; "-p"; "22"; "10.0.0.1"; "ps -o user= -p 11,22"] 10])
  /\ (forall g, two_gpu_records !! 0%nat = Some g ->
        history (gpu_block two_gpu_env "10.0.0.1 -p22" 0 g (1, narrow_world)).2.2 = [])
  /\ rendered_devices two_gpu_env "10.0.0.1 -p22" two_gpu_records 0 0 (start_world 24 80)
     = two_gpu_records
  /\ exists hs,
      Forall2 (lookup_of two_gpu_env "10.0.0.1 -p22") hs
        (List.filter has_processes
           (rendered_devices two_gpu_env "10.0.0.1 -p22" two_gpu_records 0 0
              (start_world 24 80)))
      /\ history (display_gpu_infos two_gpu_env "10.0.0.1 -p22" two_gpu_records 0 0
                    (start_world 24 80)).2
         = (history (start_world 24 80) ++ hs)%list.
Proof.
  destruct (one_lookup_per_device two_gpu_env "10.0.0.1 -p22")
    as (H1 & _ & H3 & H4 & H5).
  split; [|split; [|split; [|split]]].
  - apply (H1 [Some "11"; Some "22"] (start_world 24 80)
             (Argv ["ssh"; "-p"; "22"; "10.0.0.1"; "ps -o user= -p 11,22"] 10)).
    + discriminate.
    + reflexivity.
  - intros g Hg. injection Hg as <-.
    apply (H3 0 _ (1, start_world 24 80)
             (Argv ["ssh"; "-p"; "22"; "10.0.0.1"; "ps -o user= -p 11,22"] 10)).
    + vm_compute. exact Logic.I.
    + split; [discriminate | reflexivity].
  - intros g Hg. injection Hg as <-.
    apply (H4 0 _ (1, narrow_world)).
    left. vm_compute. intros [].
  - vm_compute. reflexivity.
  - apply (H5 two_gpu_records 0 0 (start_world 24 80) 16).
    vm_compute. reflexivity.
Defined.

(** C3, as stated, fails: one cycle over one host with two devices runs two
    lookups, one per device, each listing the identifiers of its device;
    the single command listing the union, [ps -o user= -p 11,22,33], is not
    run. *)
Lemma lookup_per_target_counterexample :
  lookups (history (poll_cycle two_gpu_env ["10.0.0.1 -p22"] (start_world 24 80)).2)
  = ["ps -o user= -p 11,22"; "ps -o user= -p 33"]
  /\ length (lookups (history (poll_cycle two_gpu_env ["10.0.0.1 -p22"]
                                 (start_world 24 80)).2)) <> 1%nat
  /\ ~ In "ps -o user= -p 11,22,33"
         (lookups (history (poll_cycle two_gpu_env ["10.0.0.1 -p22"]
                              (start_world 24 80)).2)).
Proof.
  assert (lookups (history (poll_cycle two_gpu_env ["10.0.0.1 -p22"]
                              (start_world 24 80)).2)
          = ["ps -o user= -p 11,22"; "ps -o user= -p 33"]) as H
    by (vm_compute; reflexivity).
  rewrite H. split; [reflexivity|]. split; [discriminate|].
  intros [Hin | [Hin | []]]; discriminate.
Qed.



(** ** Failures in the polling loop *)

Section Loop_failures.

Variable E : env.

Lemma poll_host_parse_failure (col_width : Z) (i : nat) (server : string)
    (offs : Z * Z) (w w1 : world) (out : string) (e : exn) :
  fetch E server w = (Ok (Some out), w1) ->
  get_gpu_infos E (Some out) = Raise e ->
  poll_host E col_width i server offs w = (Raise e, w1).
Proof.
  intros Hf Hg. unfold poll_host.
  destruct (Nat.even i); unfold mbind, M_bind, lift; rewrite Hf, Hg; reflexivity.
Qed.

Lemma poll_hosts_raise (col_width : Z) (i : nat) (server : string)
    (rest : list string) (offs : Z * Z) (w w1 : world) (e : exn) :
  poll_host E col_width i server offs w = (Raise e, w1) ->
  poll_hosts E col_width i (server :: rest) offs w = (Raise e, w1).
Proof. intros H. simpl. unfold mbind, M_bind. now rewrite H. Qed.

Lemma main_raise (servers : list string) (n : nat) (w w1 : world) (e : exn) :
  poll_cycle E servers w = (Raise e, w1) ->
  main E servers (S n) w = (Raise e, w1).
Proof. intros H. simpl. unfold mbind, M_bind. now rewrite H. Qed.

(** The hosts polled before a host do not shield it: once they have been
    polled normally, the pass goes on with that host. *)
Lemma poll_hosts_app (col_width : Z) (pre rest : list string) :
  forall (i : nat) (offs offs1 : Z * Z) (w w1 : world),
  poll_hosts E col_width i pre offs w = (Ok offs1, w1) ->
  poll_hosts E col_width i (pre ++ rest) offs w
  = poll_hosts E col_width (length pre + i) rest offs1 w1.
Proof.
  induction pre as [|server pre IH]; intros i offs offs1 w w1; simpl.
  - intros H. injection H as -> ->. reflexivity.
  - unfold mbind, M_bind.
    destruct (poll_host E col_width i server offs w) as [[offs0|e] w0];
      [|discriminate].
    intros H. rewrite (IH _ _ _ _ _ H). f_equal. lia.
Qed.

(** The cycles that ended normally do not shield a later one. *)
Lemma main_app (servers : list string) (k m : nat) :
  forall (w wk : world),
  main E servers k w = (Ok tt, wk) ->
  main E servers (k + m) w = main E servers m wk.
Proof.
  induction k as [|k IH]; intros w wk; simpl.
  - intros H. injection H as ->. reflexivity.
  - unfold mbind, M_bind.
    destruct (poll_cycle E servers w) as [[[]|e] w0]; [|discriminate].
    apply IH.
Qed.

(** A parse failure of any host, in any cycle, leaves the loop. *)
Lemma main_parse_failure (pre rest : list string) (server : string) (k n : nat)
    (w wk w1 w2 : world) (offs1 : Z * Z) (out : string) (e : exn) :
  main E (pre ++ server :: rest) k w = (Ok tt, wk) ->
  poll_hosts E (COLS (scr wk) / 2) 0 pre (0, 0) (cleared wk) = (Ok offs1, w1) ->
  fetch E server w1 = (Ok (Some out), w2) ->
  get_gpu_infos E (Some out) = Raise e ->
  main E (pre ++ server :: rest) (k + S n) w = (Raise e, w2).
Proof.
  intros Hk Hpre Hf Hg.
  rewrite (main_app _ _ _ _ _ Hk). apply main_raise.
  unfold poll_cycle. fold (cleared wk).
  change (COLS (scr (cleared wk))) with (COLS (scr wk)).
  rewrite (poll_hosts_app _ _ _ _ _ _ _ _ Hpre).
  erewrite poll_hosts_raise; [reflexivity|].
  eapply poll_host_parse_failure; eassumption.
Qed.

End Loop_failures.

(** C1 (amended). A failed fetch (timeout or non-zero exit) is not fatal: the
    host is rendered from no device record, as a bare header, and its turn
    of the loop ends normally.  A failure of device parsing, such as a
    memory field that is no integer, is not caught anywhere, whichever the
    host and whichever the cycle: when [k] cycles have ended normally and,
    in the next one, the hosts listed before [server] have been polled
    normally, a parse failure for [server] leaves the turn of that host
    before anything is rendered for it (the world is as the fetch left it),
    the later hosts are not polled, and the exception leaves the cycle and
    the loop. *)
Theorem poll_failures (E : env) (server : string) :
  (forall col_width i offs w inv,
     fetch_invocation E server = Ok inv ->
     handled_failure (check_output E (history w) inv) ->
     exists offs' w1,
       fetch E server w = (Ok None, w1)
       /\ poll_host E col_width i server offs w
          = (Ok offs',
             (display_gpu_infos E server [] (column_of col_width i) (offset_of offs i) w1).2))
  /\ (forall pre rest k n w wk offs1 w1 w2 out e,
       main E (pre ++ server :: rest) k w = (Ok tt, wk) ->
       poll_hosts E (COLS (scr wk) / 2) 0 pre (0, 0) (cleared wk) = (Ok offs1, w1) ->
       fetch E server w1 = (Ok (Some out), w2) ->
       get_gpu_infos E (Some out) = Raise e ->
       main E (pre ++ server :: rest) (k + S n) w = (Raise e, w2)).
Proof.
  split.
  - intros cw i offs w inv Hinv Hfail.
    destruct (fetch_failed E server w inv Hinv Hfail) as (entry & Hf & _).
    destruct (poll_host_absent E cw i server offs w _ Hf)
      as (offs' & w2 & Hp & _ & _ & _ & Hw).
    eexists offs', _. split; [exact Hf|].
    rewrite Hp. unfold column_of, offset_of. now rewrite Hw.
  - intros pre rest k n w wk offs1 w1 w2 out e. apply main_parse_failure.
Qed.

Lemma poll_failures_witness :
  (exists offs' w1,
     fetch (failing_env TimeoutExpired) "10.0.0.1 -p22" (start_world 24 80) = (Ok None, w1)
     /\ poll_host (failing_env TimeoutExpired) 40 0 "10.0.0.1 -p22" (0, 0) (start_world 24 80)
        = (Ok offs',
           (display_gpu_infos (failing_env TimeoutExpired) "10.0.0.1 -p22" []
              (column_of 40 0) (offset_of (0, 0) 0) w1).2))
  /\ (main late_na_env ["10.0.0.1 -p22"; "10.0.0.2"; "10.0.0.3"] 3 (start_world 24 80)).1
     = Raise ValueError
  /\ history (main late_na_env ["10.0.0.1 -p22"; "10.0.0.2"; "10.0.0.3"] 3
                (start_world 24 80)).2
     = [ Argv ["ssh"; "-p"; "22"; "10.0.0.1"; "timeout 10 nvidia-smi -q -x"] 5;
         Argv ["ssh"; "-p"; "22"; "10.0.0.1"; "ps -o user= -p 123"] 10;
         Argv ["ssh"; "10.0.0.2"; "timeout 10 nvidia-smi -q -x"] 5;
         Argv ["ssh"; "10.0.0.2"; "ps -o user= -p 123"] 10;
         Argv ["ssh"; "10.0.0.3"; "timeout 10 nvidia-smi -q -x"] 5;
         Argv ["ssh"; "10.0.0.3"; "ps -o user= -p 123"] 10;
         Argv ["ssh"; "-p"; "22"; "10.0.0.1"; "timeout 10 nvidia-smi -q -x"] 5;
         Argv ["ssh"; "-p"; "22"; "10.0.0.1"; "ps -o user= -p 123"] 10;
         Argv ["ssh"; "10.0.0.2"; "timeout 10 nvidia-smi -q -x"] 5 ].
Proof.
  split.
  - destruct (poll_failures (failing_env TimeoutExpired) "10.0.0.1 -p22") as [H _].
    apply (H 40 0%nat (0, 0) (start_world 24 80)
             (Argv ["ssh"; "-p"; "22"; "10.0.0.1"; "timeout 10 nvidia-smi -q -x"] 5)).
    + reflexivity.
    + left. reflexivity.
  - destruct (poll_failures late_na_env "10.0.0.2") as [_ H].
    pose proof
      (H ["10.0.0.1 -p22"] ["10.0.0.3"] 1%nat 1%nat (start_world 24 80)
         (main late_na_env ["10.0.0.1 -p22"; "10.0.0.2"; "10.0.0.3"] 1
            (start_world 24 80)).2
         (9, 0)
         (poll_hosts late_na_env 40 0 ["10.0.0.1 -p22"] (0, 0)
            (cleared (main late_na_env ["10.0.0.1 -p22"; "10.0.0.2"; "10.0.0.3"] 1
                        (start_world 24 80)).2)).2
         (main late_na_env ["10.0.0.1 -p22"; "10.0.0.2"; "10.0.0.3"] 3
            (start_world 24 80)).2
         "<na/>" ValueError) as Hm.
    assert (main late_na_env (["10.0.0.1 -p22"] ++ "10.0.0.2" :: ["10.0.0.3"]) (1 + 2)
              (start_world 24 80)
            = (Raise ValueError,
               (main late_na_env ["10.0.0.1 -p22"; "10.0.0.2"; "10.0.0.3"] 3
                  (start_world 24 80)).2)) as Hr.
    { apply Hm; vm_compute; reflexivity. }
    split; [exact (f_equal fst Hr) | vm_compute; reflexivity].
Defined.

(** C1, as stated, fails: when the total memory of a device reads [N/A],
    the first cycle raises ValueError out of the loop.  Nothing has been
    rendered for that host, not even its header, and the second host has
    not been polled. *)
Lemma parse_failure_fatal_counterexample :
  (main na_env ["10.0.0.1 -p22"; "10.0.0.2"] 1 (start_world 24 80)).1
  = Raise ValueError
  /\ cells (scr (main na_env ["10.0.0.1 -p22"; "10.0.0.2"] 1 (start_world 24 80)).2)
     = []
  /\ history (main na_env ["10.0.0.1 -p22"; "10.0.0.2"] 1 (start_world 24 80)).2
     = [Argv ["ssh"; "-p"; "22"; "10.0.0.1"; "timeout 10 nvidia-smi -q -x"] 5]
  /\ get_gpu_infos na_env (Some "<nvidia_smi_log/>") = Raise ValueError.
Proof. repeat split. Qed.

(** * Further properties of the code *)

(** ** Server lines and ssh commands *)

Section ServerLines.

Lemma split_go_no_space (s : string) : forall cur,
  no_space s ->
  Py.split_go cur s = Py.flush (rev (list_ascii_of_string s) ++ cur).
Proof.
  unfold no_space. induction s as [|c s IH]; intros cur Hs; simpl; [reflexivity|].
  inversion Hs as [|? ? Hc Hs']; subst. rewrite Hc, IH by assumption.
  now rewrite <- app_assoc.
Qed.

(** A token without blanks splits into itself. *)
Lemma split_token (t : string) :
  no_space t -> t <> "" -> Py.split t = [t].
Proof.
  intros Ht Hne. unfold Py.split. rewrite split_go_no_space by assumption.
  rewrite app_nil_r. unfold Py.flush.
  destruct t as [|c t]; [congruence|].
  destruct (rev (list_ascii_of_string (String c t))) eqn:Hr.
  - apply (f_equal (@rev ascii)) in Hr. rewrite rev_involutive in Hr. discriminate.
  - rewrite <- Hr, rev_involutive. now rewrite string_of_list_ascii_of_string.
Qed.

Lemma split_blank (s : string) :
  Forall (fun c => Py.is_space c = true) (list_ascii_of_string s) -> Py.split s = [].
Proof.
  unfold Py.split. induction s as [|c s IH]; intros Hs; simpl; [reflexivity|].
  inversion Hs as [|? ? Hc Hs']; subst. rewrite Hc. simpl. now apply IH.
Qed.

Lemma append_assoc (a b c : string) : (a ++ b) ++ c = a ++ (b ++ c).
Proof.
  induction a as [|x a IH]; [reflexivity|].
  change (String x ((a ++ b) ++ c) = String x (a ++ (b ++ c))). now rewrite IH.
Qed.

Lemma substring_all (s : string) : String.substring 0 (String.length s) s = s.
Proof. induction s as [|c s IH]; simpl; [reflexivity | now rewrite IH]. Qed.

Lemma drop_dash_p (port : string) : Py.drop 2 ("-p" ++ port) = port.
Proof. unfold Py.drop. simpl. rewrite Nat.sub_0_r. apply substring_all. Qed.

Lemma startswith_dash_p (port : string) : Py.startswith "-p" ("-p" ++ port) = true.
Proof. unfold Py.startswith. simpl. now destruct port. Qed.

Lemma no_space_dash_p (port : string) : no_space port -> no_space ("-p" ++ port).
Proof. intros H. unfold no_space. simpl. repeat constructor. exact H. Qed.

Lemma parse_server_line (host port : string) :
  no_space host -> host <> "" -> no_space port ->
  parse_server (server_line host port) = Ok (host, Some port).
Proof.
  intros Hh Hne Hp. unfold parse_server, server_line.
  change (" -p" ++ port) with (" " ++ ("-p" ++ port)).
  rewrite split_first_token by assumption.
  rewrite split_token by (try discriminate; now apply no_space_dash_p).
  cbn -[Py.drop Py.startswith].
  rewrite startswith_dash_p.
  now rewrite drop_dash_p.
Qed.

Lemma parse_server_host (host : string) :
  no_space host -> host <> "" -> parse_server host = Ok (host, None).
Proof. intros Hh Hne. unfold parse_server. now rewrite split_token. Qed.

End ServerLines.

(** X1. [parse_server] reads back the documented format: a line
    [host -pPORT] gives the host and the port, a line with the host alone
    gives no port, and when several [-p] words are given the last one
    wins.  A blank line has no first word and raises IndexError. *)
Theorem parse_server_format (host port port' : string) :
  no_space host -> host <> "" -> no_space port -> no_space port' ->
  parse_server (server_line host port) = Ok (host, Some port)
  /\ parse_server host = Ok (host, None)
  /\ parse_server (server_line (server_line host port) port') = Ok (host, Some port')
  /\ parse_server "   " = Raise IndexError.
Proof.
  intros Hh Hne Hp Hp'. split; [now apply parse_server_line|].
  split; [now apply parse_server_host|]. split; [|reflexivity].
  unfold parse_server, server_line. rewrite !append_assoc.
  change (" -p" ++ port ++ " -p" ++ port')
    with (" " ++ (("-p" ++ port) ++ " " ++ ("-p" ++ port'))).
  rewrite split_first_token by assumption.
  rewrite split_first_token by (try discriminate; now apply no_space_dash_p).
  rewrite split_token by (try discriminate; now apply no_space_dash_p).
  cbn -[Py.drop Py.startswith].
  rewrite !startswith_dash_p.
  now rewrite drop_dash_p.
Qed.

Lemma parse_server_format_witness :
  parse_server "10.150.20.213 -p22222" = Ok ("10.150.20.213", Some "22222")
  /\ parse_server "10.150.20.213" = Ok ("10.150.20.213", None)
  /\ parse_server "10.150.20.213 -p22222 -p80" = Ok ("10.150.20.213", Some "80")
  /\ parse_server "   " = Raise IndexError.
Proof.
  apply (parse_server_format "10.150.20.213" "22222" "80");
    try discriminate; repeat constructor.
Defined.

(** X2. [build_ssh_command] fails only on a blank server line.  For a line
    [host -pPORT] with a port it is [ssh -p PORT login remote_cmd], for a
    host alone or an empty port it is [ssh login remote_cmd]; the login is
    [user@host] when an ssh user is configured, and the remote command is
    always the last word, unchanged. *)
Theorem build_ssh_command_format (E : env) (host port remote_cmd : string) :
  no_space host -> host <> "" -> no_space port -> port <> "" ->
  build_ssh_command E (server_line host port) remote_cmd
  = Ok ["ssh"; "-p"; port; login E host; remote_cmd]
  /\ build_ssh_command E host remote_cmd = Ok ["ssh"; login E host; remote_cmd]
  /\ build_ssh_command E (server_line host "") remote_cmd
     = Ok ["ssh"; login E host; remote_cmd]
  /\ (forall server, Py.split server = [] <->
                     build_ssh_command E server remote_cmd = Raise IndexError).
Proof.
  intros Hh Hne Hp Hpne. unfold build_ssh_command.
  rewrite parse_server_line, parse_server_host by assumption.
  rewrite parse_server_line by (try assumption; constructor).
  repeat split.
  - destruct port; [congruence | reflexivity].
  - unfold parse_server in *. intros ->. reflexivity.
  - unfold parse_server. destruct (Py.split server); [reflexivity|].
    simpl. destruct (truthy _); discriminate.
Qed.

Lemma build_ssh_command_format_witness :
  build_ssh_command user_env "10.150.20.213 -p22222" "uptime"
  = Ok ["ssh"; "-p"; "22222"; "monitor@10.150.20.213"; "uptime"]
  /\ build_ssh_command user_env "10.150.20.213" "uptime"
     = Ok ["ssh"; "monitor@10.150.20.213"; "uptime"]
  /\ build_ssh_command user_env "10.150.20.213 -p" "uptime"
     = Ok ["ssh"; "monitor@10.150.20.213"; "uptime"]
  /\ (forall server, Py.split server = [] <->
                     build_ssh_command user_env server "uptime" = Raise IndexError).
Proof.
  apply (build_ssh_command_format user_env "10.150.20.213" "22222" "uptime");
    try discriminate; repeat constructor.
Defined.

(** ** The sub-process of a fetch *)

Lemma build_ssh_command_head (E : env) (server remote_cmd : string) (v : list string) :
  build_ssh_command E server remote_cmd = Ok v -> exists v', v = "ssh" :: v'.
Proof.
  unfold build_ssh_command.
  destruct (parse_server server) as [[host port]|e]; simpl; [|discriminate].
  intros H. injection H as <-. destruct (truthy port); eexists; reflexivity.
Qed.

Lemma fetch_effect (E : env) (server : string) (w : world) (inv : invocation) :
  fetch_invocation E server = Ok inv ->
  history (fetch E server w).2 = (history w ++ [inv])%list
  /\ scr (fetch E server w).2 = scr w.
Proof.
  intros Hinv. rewrite fetch_eq, Hinv. unfold fetch_invocation in Hinv.
  destruct (is_local server) as [[|]|e]; simpl in Hinv; try discriminate.
  - injection Hinv as <-. unfold run_nvidiasmi_local, run.
    destruct (check_output E (history w) (nvidiasmi_local_cmd E)); split; reflexivity.
  - unfold try_nvidiasmi_remote, run.
    destruct (check_output E (history w) inv); split; reflexivity.
Qed.

Lemma fetch_completed (E : env) (server : string) (w : world) (inv : invocation)
    (out : string) :
  fetch_invocation E server = Ok inv ->
  check_output E (history w) inv = Completed out ->
  fetch E server w = (Ok (Some out), add_history w inv).
Proof.
  intros Hinv Hout. rewrite fetch_eq, Hinv. unfold fetch_invocation in Hinv.
  destruct (is_local server) as [[|]|e]; simpl in Hinv; try discriminate.
  - injection Hinv as <-. unfold run_nvidiasmi_local, run. now rewrite Hout.
  - unfold try_nvidiasmi_remote, run. now rewrite Hout.
Qed.

(** X3. A telemetry fetch whose command line can be built runs exactly one
    sub-process, whatever its outcome, and leaves the window alone; when the
    sub-process completes, its output is returned unchanged and nothing is
    logged.  On a local host the sub-process is [nvidia-smi -q -x] with the
    command timeout.  On a remote host it is an ssh call with the ssh
    timeout, whose remote command [timeout N nvidia-smi -q -x] carries the
    command timeout. *)
Theorem fetch_one_subprocess (E : env) (server : string) (w : world) (inv : invocation) :
  fetch_invocation E server = Ok inv ->
  history (fetch E server w).2 = (history w ++ [inv])%list
  /\ scr (fetch E server w).2 = scr w
  /\ (forall out, check_output E (history w) inv = Completed out ->
                  fetch E server w = (Ok (Some out), add_history w inv))
  /\ (is_local server = Ok true ->
      inv = Argv ["nvidia-smi"; "-q"; "-x"] (cmd_timeout (args E)))
  /\ (is_local server = Ok false ->
      exists v, inv = Argv ("ssh" :: v) (ssh_timeout (args E))
                /\ command_of inv
                   = "timeout " ++ Py.str_of_int (cmd_timeout (args E))
                     ++ " nvidia-smi -q -x").
Proof.
  intros Hinv. destruct (fetch_effect E server w inv Hinv) as [Hh Hs].
  split; [exact Hh|]. split; [exact Hs|].
  split; [intros out; now apply fetch_completed|].
  split.
  - intros Hloc. unfold fetch_invocation in Hinv. rewrite Hloc in Hinv.
    simpl in Hinv. now injection Hinv as <-.
  - intros Hloc. pose proof (fetch_remote_embeds_timeout E server inv Hloc Hinv) as Hc.
    unfold fetch_invocation in Hinv. rewrite Hloc in Hinv. simpl in Hinv.
    destruct (build_ssh_command E server _) as [v|e] eqn:Hb; simpl in Hinv;
      [|discriminate].
    injection Hinv as <-. apply build_ssh_command_head in Hb as [v' ->].
    exists v'. split; [reflexivity | exact Hc].
Qed.

Lemma fetch_one_subprocess_witness :
  history (fetch sample_env "10.0.0.1 -p22" (start_world 24 80)).2
  = [Argv ["ssh"; "-p"; "22"; "10.0.0.1"; "timeout 10 nvidia-smi -q -x"] 5]
  /\ fetch sample_env "localhost" (start_world 24 80)
     = (Ok (Some "<nvidia_smi_log/>"),
        add_history (start_world 24 80) (Argv ["nvidia-smi"; "-q"; "-x"] 10)).
Proof.
  split.
  - apply (fetch_one_subprocess sample_env "10.0.0.1 -p22" (start_world 24 80)
             (Argv ["ssh"; "-p"; "22"; "10.0.0.1"; "timeout 10 nvidia-smi -q -x"] 5)).
    reflexivity.
  - destruct (fetch_one_subprocess sample_env "localhost" (start_world 24 80)
                (Argv ["nvidia-smi"; "-q"; "-x"] 10)) as (_ & _ & H & _);
      [reflexivity|].
    apply H. reflexivity.
Defined.

(** ** Owner resolution: absent identifiers *)

Lemma join_pids_absent (pids : list (option string)) :
  None ∈ pids -> join_pids pids = Raise TypeError.
Proof.
  unfold join_pids. induction pids as [|[s|] pids IH]; intros Hin.
  - inversion Hin.
  - apply elem_of_cons in Hin as [Hin|Hin]; [discriminate|].
    specialize (IH Hin). simpl.
    destruct (rmap _ pids) as [strs|e]; simpl in *; [discriminate | exact IH].
  - reflexivity.
Qed.

(** X4. When a process entry has no identifier text, [','.join(pids)] fails:
    owner resolution raises TypeError before any command is run, whatever
    the server (even a blank one), and the world is left as it was. *)
Theorem get_user_info_absent_pid (E : env) (server : string)
    (pids : list (option string)) (w : world) :
  None ∈ pids ->
  get_user_info E server pids w = (Raise TypeError, w).
Proof.
  intros Hin. destruct pids as [|p pids]; [inversion Hin|].
  unfold get_user_info. rewrite (join_pids_absent _ Hin). reflexivity.
Qed.

Lemma get_user_info_absent_pid_witness :
  get_user_info sample_env "" [Some "123"; None] (start_world 24 80)
  = (Raise TypeError, start_world 24 80).
Proof.
  apply (get_user_info_absent_pid sample_env "" [Some "123"; None] (start_world 24 80)).
  apply elem_of_cons. right. apply elem_of_cons. left. reflexivity.
Defined.

(** ** Owner maps: which line an identifier gets *)

Section Zip.

Lemma fold_insert_notin (kvs : list (option string * string)) :
  forall (m : gmap (option string) string) (p : option string),
  p ∉ kvs.*1 ->
  fold_left (fun m kv => <[kv.1 := kv.2]> m) kvs m !! p = m !! p.
Proof.
  induction kvs as [|[k v] kvs IH]; intros m p Hp; simpl; [reflexivity|].
  simpl in Hp. apply not_elem_of_cons in Hp as [Hne Hp].
  rewrite IH by assumption. now apply lookup_insert_ne.
Qed.

Lemma fold_insert_last (kvs : list (option string * string)) :
  forall (m : gmap (option string) string) (i : nat) (p : option string) (u : string),
  kvs !! i = Some (p, u) ->
  (forall j kv, (i < j)%nat -> kvs !! j = Some kv -> kv.1 <> p) ->
  fold_left (fun m kv => <[kv.1 := kv.2]> m) kvs m !! p = Some u.
Proof.
  induction kvs as [|[k v] kvs IH]; intros m i p u Hi Hlast; [discriminate|].
  destruct i as [|i]; simpl in *.
  - injection Hi as -> ->. rewrite fold_insert_notin.
    + apply lookup_insert_eq.
    + intros Hin. apply list_elem_of_fmap in Hin as ([k v] & -> & Hin).
      apply list_elem_of_lookup in Hin as [j Hj].
      apply (Hlast (S j) (k, v)); [lia | exact Hj | reflexivity].
  - apply (IH _ i); [exact Hi|].
    intros j kv Hj Hkv. apply (Hlast (S j) kv); [lia | exact Hkv].
Qed.

Lemma zip_lookup (ks : list (option string)) : forall (vs : list string) i k v,
  ks !! i = Some k -> vs !! i = Some v -> zip ks vs !! i = Some (k, v).
Proof.
  induction ks as [|k0 ks IH]; intros [|v0 vs] [|i] k v Hk Hv; simpl in *;
    try discriminate.
  - now injection Hk as ->; injection Hv as ->.
  - now apply IH.
Qed.

Lemma zip_lookup_inv (ks : list (option string)) : forall (vs : list string) j kv,
  zip ks vs !! j = Some kv -> ks !! j = Some kv.1 /\ vs !! j = Some kv.2.
Proof.
  induction ks as [|k0 ks IH]; intros [|v0 vs] [|j] kv H; simpl in *;
    try discriminate.
  - now injection H as <-.
  - now apply IH.
Qed.

Lemma dict_zip_lookup_last (pids : list (option string)) (users : list string)
    (i : nat) (p : option string) (u : string) :
  pids !! i = Some p -> users !! i = Some u ->
  (forall j, (i < j)%nat -> (j < length users)%nat -> pids !! j <> Some p) ->
  dict_zip pids users !! p = Some u.
Proof.
  intros Hp Hu Hlast. unfold dict_zip.
  apply (fold_insert_last _ _ i); [now apply zip_lookup|].
  intros j kv Hj Hkv Heq. apply zip_lookup_inv in Hkv as [Hk Hv].
  apply (Hlast j Hj); [eapply lookup_lt_Some; eassumption | congruence].
Qed.

End Zip.

(** X5. [dict(zip(pids, users))] pairs positions: the identifier at position
    [i] is mapped to line [i], unless the same identifier occurs again at a
    later position that has a line, in which case the later line wins.  For
    distinct identifiers every identifier that has a line is mapped to its
    own line. *)
Theorem dict_zip_positional (pids : list (option string)) (users : list string)
    (i : nat) (p : option string) (u : string) :
  pids !! i = Some p -> users !! i = Some u ->
  ((forall j, (i < j)%nat -> (j < length users)%nat -> pids !! j <> Some p) ->
   dict_zip pids users !! p = Some u /\ owner_of (dict_zip pids users) p = u)
  /\ (NoDup pids ->
      dict_zip pids users !! p = Some u /\ owner_of (dict_zip pids users) p = u).
Proof.
  intros Hp Hu.
  assert ((forall j, (i < j)%nat -> (j < length users)%nat -> pids !! j <> Some p) ->
          dict_zip pids users !! p = Some u /\ owner_of (dict_zip pids users) p = u)
    as Hlast.
  { intros H. pose proof (dict_zip_lookup_last _ _ _ _ _ Hp Hu H) as Hl.
    split; [exact Hl|]. unfold owner_of. now rewrite Hl. }
  split; [exact Hlast|].
  intros Hnd. apply Hlast. intros j Hj _ Hpj.
  pose proof (NoDup_lookup _ _ _ _ Hnd Hp Hpj). lia.
Qed.

Lemma dict_zip_positional_witness :
  (dict_zip [Some "7"; Some "8"; Some "7"] ["alice"; "bob"; "carol"] !! Some "7"
   = Some "carol"
   /\ owner_of (dict_zip [Some "7"; Some "8"; Some "7"] ["alice"; "bob"; "carol"])
        (Some "7") = "carol")
  /\ (dict_zip [Some "7"; Some "8"] ["alice"; "bob"] !! Some "8" = Some "bob"
      /\ owner_of (dict_zip [Some "7"; Some "8"] ["alice"; "bob"]) (Some "8") = "bob").
Proof.
  split.
  - destruct (dict_zip_positional [Some "7"; Some "8"; Some "7"]
                ["alice"; "bob"; "carol"] 2 (Some "7") "carol") as [H _];
      [reflexivity | reflexivity |].
    apply H. intros j Hj Hlen. simpl in Hlen. lia.
  - destruct (dict_zip_positional [Some "7"; Some "8"] ["alice"; "bob"] 1
                (Some "8") "bob") as [_ H];
      [reflexivity | reflexivity |].
    apply H. apply NoDup_cons. split; [|apply NoDup_singleton].
    rewrite list_elem_of_singleton. discriminate.
Defined.

(** ** Owner resolution: reading the answer of the lookup *)

Section Lines.

Lemma list_ascii_of_string_app (a b : string) :
  list_ascii_of_string (a ++ b) = (list_ascii_of_string a ++ list_ascii_of_string b)%list.
Proof.
  induction a as [|x a IH]; [reflexivity|].
  change (x :: list_ascii_of_string (a ++ b)
          = x :: (list_ascii_of_string a ++ list_ascii_of_string b)%list).
  now rewrite IH.
Qed.

Lemma srev_app (a b : string) : Py.srev (a ++ b) = Py.srev b ++ Py.srev a.
Proof.
  unfold Py.srev.
  now rewrite list_ascii_of_string_app, rev_app_distr, string_of_list_ascii_app.
Qed.

Lemma srev_srev (s : string) : Py.srev (Py.srev s) = s.
Proof.
  unfold Py.srev.
  now rewrite list_ascii_of_string_of_list_ascii, rev_involutive,
    string_of_list_ascii_of_string.
Qed.

Lemma lstrip_solid (s : string) : starts_solid s -> Py.lstrip s = s.
Proof. intros (c & s' & -> & Hc). simpl. now rewrite Hc. Qed.

Lemma strip_line (t : string) :
  starts_solid t -> starts_solid (Py.srev t) -> Py.strip (t ++ nl) = t.
Proof.
  intros Ht Hr. unfold Py.strip.
  assert (starts_solid (t ++ nl)) as Htn.
  { destruct Ht as (c & s' & -> & Hc). exists c, (s' ++ nl). now split. }
  rewrite (lstrip_solid _ Htn), srev_app.
  change (Py.srev nl) with nl. unfold nl at 1.
  change (String "010" "" ++ Py.srev t) with (String "010" (Py.srev t)).
  cbn [Py.lstrip]. change (Py.is_space "010") with true. cbv iota.
  rewrite (lstrip_solid _ Hr). apply srev_srev.
Qed.

Lemma user_name_starts (n : string) : user_name n -> starts_solid n.
Proof.
  intros [Hs Hne]. destruct n as [|c n]; [congruence|].
  exists c, n. split; [reflexivity|]. now inversion Hs.
Qed.

Lemma user_name_ends (n : string) : user_name n -> starts_solid (Py.srev n).
Proof.
  intros [Hs Hne]. unfold Py.srev, no_space in *.
  destruct n as [|c n]; [congruence|].
  apply Forall_rev in Hs.
  destruct (rev (list_ascii_of_string (String c n))) as [|x l] eqn:Hr.
  - apply (f_equal (@rev ascii)) in Hr. rewrite rev_involutive in Hr. discriminate.
  - exists x, (string_of_list_ascii l). split; [reflexivity|]. now inversion Hs.
Qed.

Lemma starts_solid_app (a b : string) : starts_solid a -> starts_solid (a ++ b).
Proof. intros (c & s' & -> & Hc). exists c, (s' ++ b). now split. Qed.

Lemma join_cons2 (sep n n2 : string) (rest : list string) :
  Py.join sep (n :: n2 :: rest) = n ++ sep ++ Py.join sep (n2 :: rest).
Proof. reflexivity. Qed.

Lemma join_starts (names : list string) :
  names <> [] -> Forall user_name names -> starts_solid (Py.join nl names).
Proof.
  intros Hne Hall. destruct names as [|n [|n2 rest]]; [congruence| |].
  - apply user_name_starts. now inversion Hall.
  - rewrite join_cons2. apply starts_solid_app, user_name_starts. now inversion Hall.
Qed.

Lemma join_ends (names : list string) :
  names <> [] -> Forall user_name names -> starts_solid (Py.srev (Py.join nl names)).
Proof.
  induction names as [|n [|n2 rest] IH]; intros Hne Hall; [congruence| |].
  - apply user_name_ends. now inversion Hall.
  - rewrite join_cons2, !srev_app. do 2 apply starts_solid_app.
    apply IH; [discriminate | now inversion Hall].
Qed.

Lemma split_nl_go_token (n r : string) : forall cur,
  no_space n ->
  Py.split_nl_go cur (n ++ r)
  = Py.split_nl_go (rev (list_ascii_of_string n) ++ cur) r.
Proof.
  unfold no_space. induction n as [|c n IH]; intros cur Hn; [reflexivity|].
  inversion Hn as [|? ? Hc Hn']; subst.
  change (String c n ++ r) with (String c (n ++ r)). cbn [Py.split_nl_go].
  destruct (Ascii.eqb_spec c "010") as [->|_]; [discriminate|].
  rewrite IH by assumption. simpl. now rewrite <- app_assoc.
Qed.

Lemma append_nil_r (s : string) : s ++ "" = s.
Proof.
  induction s as [|c s IH]; [reflexivity|].
  change (String c (s ++ "") = String c s). now rewrite IH.
Qed.

Lemma split_nl_join (names : list string) :
  names <> [] -> Forall user_name names -> Py.split_nl (Py.join nl names) = names.
Proof.
  unfold Py.split_nl.
  induction names as [|n [|n2 rest] IH]; intros Hne Hall; [congruence| |].
  - inversion Hall as [|? ? [Hn _] _]; subst. simpl Py.join.
    rewrite <- (append_nil_r n) at 1. rewrite split_nl_go_token by assumption.
    simpl. now rewrite app_nil_r, rev_involutive, string_of_list_ascii_of_string.
  - inversion Hall as [|? ? [Hn _] Hall']; subst.
    rewrite join_cons2, split_nl_go_token by assumption.
    unfold nl at 1.
    change (String "010" "" ++ Py.join nl (n2 :: rest))
      with (String "010" (Py.join nl (n2 :: rest))).
    cbn [Py.split_nl_go]. change (Ascii.eqb "010" "010") with true. cbv iota.
    rewrite app_nil_r, rev_involutive, string_of_list_ascii_of_string.
    f_equal. apply IH; [discriminate | assumption].
Qed.

(** The lines of an answer with one user name per line are the names. *)
Lemma lines_of_output (names : list string) :
  names <> [] -> Forall user_name names ->
  Py.split_nl (Py.strip (lines_output names)) = names.
Proof.
  intros Hne Hall. unfold lines_output.
  rewrite strip_line by (now apply join_starts || now apply join_ends).
  now apply split_nl_join.
Qed.

End Lines.

(** X6. When the lookup command completes and answers one user name per
    line, as many lines as there were identifiers, owner resolution maps
    every identifier to the name on its own line, for distinct identifiers
    (this is what the trailing line feed is stripped for).  It has run that
    one command and logged nothing. *)
Theorem get_user_info_resolves (E : env) (server : string)
    (pids : list (option string)) (names : list string) (w : world)
    (inv : invocation) :
  pids <> [] ->
  NoDup pids ->
  lookup_invocation E server pids = Ok inv ->
  check_output E (history w) inv = Completed (lines_output names) ->
  Forall user_name names ->
  length names = length pids ->
  get_user_info E server pids w = (Ok (dict_zip pids names), add_history w inv)
  /\ forall i p u,
      pids !! i = Some p -> names !! i = Some u ->
      owner_of (dict_zip pids names) p = u.
Proof.
  intros Hne Hnd Hinv Hout Hall Hlen.
  assert (names <> []) as Hnames.
  { intros ->. destruct pids; [congruence | discriminate]. }
  split.
  - rewrite get_user_info_eq, Hinv by assumption.
    unfold lookup_users, run. rewrite Hout.
    now rewrite lines_of_output by assumption.
  - intros i p u Hp Hu. unfold owner_of.
    rewrite (dict_zip_lookup_last pids names i p u Hp Hu); [reflexivity|].
    intros j Hj _ Hpj. pose proof (NoDup_lookup _ _ _ _ Hnd Hp Hpj). lia.
Qed.

Lemma get_user_info_resolves_witness :
  get_user_info two_gpu_env "10.0.0.1 -p22" [Some "11"; Some "22"] (start_world 24 80)
  = (Ok (dict_zip [Some "11"; Some "22"] ["A"; "B"]),
     add_history (start_world 24 80)
       (Argv ["ssh"; "-p"; "22"; "10.0.0.1"; "ps -o user= -p 11,22"] 10))
  /\ forall i p u,
      [Some "11"; Some "22"] !! i = Some p -> ["A"; "B"] !! i = Some u ->
      owner_of (dict_zip [Some "11"; Some "22"] ["A"; "B"]) p = u.
Proof.
  apply (get_user_info_resolves two_gpu_env "10.0.0.1 -p22" [Some "11"; Some "22"]
           ["A"; "B"] (start_world 24 80)
           (Argv ["ssh"; "-p"; "22"; "10.0.0.1"; "ps -o user= -p 11,22"] 10)).
  - discriminate.
  - apply NoDup_cons. split; [|apply NoDup_singleton].
    rewrite list_elem_of_singleton. discriminate.
  - reflexivity.
  - reflexivity.
  - repeat constructor; discriminate.
  - reflexivity.
Defined.

(** ** Aggregation: nothing is lost *)

Section Totals.

Lemma dict_add_sum (k : string) (v : Z) (d : list (string * Z)) :
  sum_values (dict_add k v d) = sum_values d + v.
Proof.
  induction d as [|[k' v'] d IH]; simpl; [lia|].
  destruct (String.eqb k' k); simpl; lia.
Qed.

Lemma dict_add_keys (k : string) (v : Z) (d : list (string * Z)) :
  (dict_add k v d).*1 = if decide (k ∈ d.*1) then d.*1 else (d.*1 ++ [k])%list.
Proof.
  induction d as [|[k' v'] d IH]; [reflexivity|].
  cbn [dict_add]. destruct (String.eqb_spec k' k) as [->|Hne]; rewrite !fmap_cons.
  - cbn [fst]. rewrite decide_True by apply list_elem_of_here. reflexivity.
  - cbn [fst]. rewrite IH. destruct (decide (k ∈ d.*1)) as [Hin|Hnin].
    + rewrite decide_True by (now apply list_elem_of_further). reflexivity.
    + rewrite decide_False; [reflexivity|].
      intros Hin. apply elem_of_cons in Hin as [->|Hin]; congruence.
Qed.

Lemma dict_add_NoDup (k : string) (v : Z) (d : list (string * Z)) :
  NoDup d.*1 -> NoDup (dict_add k v d).*1.
Proof.
  intros Hnd. rewrite dict_add_keys. destruct (decide (k ∈ d.*1)); [assumption|].
  apply NoDup_app. split; [assumption|]. split; [|apply NoDup_singleton].
  intros x Hx Hx'. apply list_elem_of_singleton in Hx'. now subst.
Qed.

Lemma dict_add_elem (k u : string) (v : Z) (d : list (string * Z)) :
  u ∈ (dict_add k v d).*1 <-> u ∈ d.*1 \/ u = k.
Proof.
  rewrite dict_add_keys. destruct (decide (k ∈ d.*1)) as [Hin|Hnin].
  - split; [auto | intros [H| ->]; assumption].
  - rewrite elem_of_app, list_elem_of_singleton. reflexivity.
Qed.

Variable user_info : gmap (option string) string.

Lemma user_memory_fold (procs : list process) : forall d : list (string * Z),
  NoDup d.*1 ->
  let d' := fold_left (fun d p => dict_add (owner_of user_info (pid p)) (used_memory p) d)
              procs d in
  NoDup d'.*1
  /\ sum_values d' = sum_values d + sum_memory procs
  /\ forall u, u ∈ d'.*1 <->
               u ∈ d.*1 \/ exists p, p ∈ procs /\ owner_of user_info (pid p) = u.
Proof.
  induction procs as [|p procs IH]; intros d Hnd; simpl.
  - split; [assumption|]. split; [lia|]. intros u. split; [auto|].
    intros [H | (p & Hp & _)]; [assumption | inversion Hp].
  - destruct (IH (dict_add (owner_of user_info (pid p)) (used_memory p) d)
                (dict_add_NoDup _ _ _ Hnd)) as (Hnd' & Hsum & Hkeys).
    split; [exact Hnd'|]. split; [rewrite Hsum, dict_add_sum; lia|].
    intros u. rewrite Hkeys, dict_add_elem. split.
    + intros [[H | ->] | (q & Hq & Ho)]; [now left | |].
      * right. exists p. split; [apply list_elem_of_here | reflexivity].
      * right. exists q. split; [now apply list_elem_of_further | assumption].
    + intros [H | (q & Hq & Ho)]; [now left; left|].
      apply elem_of_cons in Hq as [->|Hq]; [left; right; now symmetry|].
      right. exists q. split; assumption.
Qed.

End Totals.

(** X7. The per-user table of a device loses nothing and invents nothing:
    every user appears once, the users are exactly the owners of the
    device's processes, and the totals add up to the memory of all the
    processes of the device. *)
Theorem user_memory_conserves (user_info : gmap (option string) string)
    (procs : list process) :
  NoDup (user_memory user_info procs).*1
  /\ sum_values (user_memory user_info procs) = sum_memory procs
  /\ forall u, u ∈ (user_memory user_info procs).*1 <->
               exists p, p ∈ procs /\ owner_of user_info (pid p) = u.
Proof.
  destruct (user_memory_fold user_info procs [] (NoDup_nil_2)) as (Hnd & Hsum & Hkeys).
  split; [exact Hnd|]. split; [exact Hsum|].
  intros u. unfold user_memory. rewrite Hkeys. split; [|auto].
  intros [H|H]; [inversion H | exact H].
Qed.

(** ** What a cycle never undoes: the history and the log *)

#[global] Instance grows_refl : Reflexive grows.
Proof. intros w. split; reflexivity. Qed.

#[global] Instance grows_trans : Transitive grows.
Proof. intros w1 w2 w3 [H1 H2] [H3 H4]. split; etransitivity; eassumption. Qed.

#[global] Instance grows_st_refl : Reflexive grows_st.
Proof. intros st. unfold grows_st. reflexivity. Qed.

#[global] Instance grows_st_trans : Transitive grows_st.
Proof. intros s1 s2 s3. unfold grows_st. apply grows_trans. Qed.

Section Growth.

Variable E : env.

Lemma grows_set_scr (w : world) (s : window) : grows w (set_scr w s).
Proof. split; reflexivity. Qed.

Lemma grows_add_history (w : world) (i : invocation) : grows w (add_history w i).
Proof. split; [exists [i]; reflexivity | reflexivity]. Qed.

Lemma grows_add_log (w : world) (e : log_entry) : grows w (add_log w e).
Proof. split; [reflexivity | exists [e]; reflexivity]. Qed.

Lemma run_outcome_grows (i : invocation) (w : world) : grows w (run E i w).2.
Proof. apply grows_add_history. Qed.

Lemma run_nvidiasmi_local_grows (w : world) : grows w (run_nvidiasmi_local E w).2.
Proof.
  unfold run_nvidiasmi_local, run.
  destruct (check_output E (history w) (nvidiasmi_local_cmd E)); simpl;
    try apply grows_add_history;
    (etransitivity; [apply grows_add_history | apply grows_add_log]).
Qed.

Lemma try_nvidiasmi_remote_grows (server : string) (inv : invocation) (w : world) :
  grows w (try_nvidiasmi_remote E server inv w).2.
Proof.
  unfold try_nvidiasmi_remote, run.
  destruct (check_output E (history w) inv); simpl;
    try apply grows_add_history;
    (etransitivity; [apply grows_add_history | apply grows_add_log]).
Qed.

Lemma fetch_grows (server : string) (w : world) :
  grows w (fetch E server w).2 /\ scr (fetch E server w).2 = scr w.
Proof.
  rewrite fetch_eq.
  destruct (fetch_invocation E server) as [inv|e]; [|split; reflexivity].
  destruct (is_local server) as [[|]|e].
  - split; [apply run_nvidiasmi_local_grows|].
    unfold run_nvidiasmi_local, run.
    destruct (check_output E (history w) (nvidiasmi_local_cmd E)); reflexivity.
  - split; [apply try_nvidiasmi_remote_grows|].
    unfold try_nvidiasmi_remote, run.
    destruct (check_output E (history w) inv); reflexivity.
  - split; [apply try_nvidiasmi_remote_grows|].
    unfold try_nvidiasmi_remote, run.
    destruct (check_output E (history w) inv); reflexivity.
Qed.

Lemma lookup_users_grows (server : string) (inv : invocation)
    (pids : list (option string)) (w : world) :
  grows w (lookup_users E server inv pids w).2.
Proof.
  unfold lookup_users, run.
  destruct (check_output E (history w) inv); simpl;
    try apply grows_add_history;
    (etransitivity; [apply grows_add_history | apply grows_add_log]).
Qed.

Lemma get_user_info_grows (server : string) (pids : list (option string)) (w : world) :
  grows w (get_user_info E server pids w).2.
Proof.
  destruct pids as [|p pids]; [reflexivity|].
  rewrite get_user_info_eq by discriminate.
  destruct (lookup_invocation E server (p :: pids)); [|reflexivity].
  apply lookup_users_grows.
Qed.

Variables (server : string) (col : Z).

Lemma grows_addstr (text : string) (a : Z) :
  steady no_inv grows_st (t_addstr col text a).
Proof.
  intros [row w] _. unfold t_addstr.
  destruct (addstr_at (scr w) row col text a) as [[|] s];
    (split; [apply grows_set_scr | easy]).
Qed.

Lemma grows_addstr_cur (text : string) (a : Z) :
  steady no_inv grows_st (t_addstr_cur text a).
Proof.
  intros [row w] _. unfold t_addstr_cur.
  destruct (waddstr (scr w) text a) as [[|] s];
    (split; [apply grows_set_scr | easy]).
Qed.

Lemma grows_incr : steady no_inv grows_st t_incr.
Proof. intros [row w] _. split; [unfold grows_st; simpl; reflexivity | easy]. Qed.

Lemma grows_lift {A} (m : M A) :
  (forall w, grows w (m w).2) -> steady no_inv grows_st (t_lift m).
Proof.
  intros Hm [row w] _. unfold t_lift. specialize (Hm w).
  destruct (m w) as [[a|e] w']; (split; [exact Hm | easy]).
Qed.

Lemma grows_user_line (um : string * Z) : steady no_inv grows_st (user_line col um).
Proof.
  destruct um as [user memory]. unfold user_line.
  repeat first
    [ apply steady_bind; [apply _ | | intros ?]
    | apply grows_incr
    | apply grows_addstr_cur
    | apply grows_addstr ].
Qed.

Lemma grows_gpu_block (g : gpu_info) : steady no_inv grows_st (gpu_block E server col g).
Proof.
  unfold gpu_block.
  repeat first
    [ apply steady_bind; [apply _ | | intros ?]
    | apply grows_incr
    | apply grows_addstr_cur
    | apply grows_addstr
    | apply grows_lift; intros w; apply get_user_info_grows
    | apply steady_for; [apply _ | apply _ | apply grows_user_line] ].
Qed.

Lemma gpu_loop_grows (gpu_infos : list gpu_info) : forall st,
  grows st.2 (gpu_loop E server col gpu_infos st).2.2.
Proof.
  induction gpu_infos as [|g rest IH]; intros st; simpl; [reflexivity|].
  destruct (st.1 >=? LINES (scr st.2) - 1); [reflexivity|].
  destruct (grows_gpu_block g st Logic.I) as [Hg _]. unfold grows_st in Hg.
  destruct (gpu_block E server col g st) as [[[]| |e] st1]; simpl in *;
    try exact Hg.
  etransitivity; [exact Hg | apply IH].
Qed.

Lemma display_gpu_infos_grows (gpu_infos : list gpu_info) (row_offset : Z) (w : world) :
  grows w (display_gpu_infos E server gpu_infos col row_offset w).2.
Proof.
  unfold display_gpu_infos.
  destruct (addstr_at _ _ _ _ _) as [[|] s]; simpl; [|apply grows_set_scr].
  pose proof (gpu_loop_grows gpu_infos (row_offset + 1, set_scr w s)) as Hl.
  destruct (gpu_loop _ _ _ _ _) as [[e|] [row w1]]; simpl in *.
  - etransitivity; [apply grows_set_scr | exact Hl].
  - destruct (row <? LINES (scr w1) - 1);
      (etransitivity; [apply grows_set_scr|]);
      try (etransitivity; [exact Hl | apply grows_set_scr]); exact Hl.
Qed.

End Growth.

(** ** One host, one cycle *)

Section Cycle.

Variable E : env.

Lemma poll_host_eq (col_width : Z) (i : nat) (server : string) (offs : Z * Z)
    (w : world) :
  poll_host E col_width i server offs w
  = match fetch E server w with
    | (Ok out, w1) =>
        match get_gpu_infos E out with
        | Ok gpu_infos =>
            match display_gpu_infos E server gpu_infos (column_of col_width i)
                    (offset_of offs i) w1 with
            | (Ok r, w2) =>
                (Ok (if Nat.even i then (r, snd offs) else (fst offs, r)), w2)
            | (Raise e, w2) => (Raise e, w2)
            end
        | Raise e => (Raise e, w1)
        end
    | (Raise e, w1) => (Raise e, w1)
    end.
Proof.
  unfold poll_host, column_of, offset_of, mbind, M_bind, lift.
  destruct (Nat.even i); destruct (fetch E server w) as [[out|e] w1];
    try reflexivity;
    destruct (get_gpu_infos E out) as [gs|e]; try reflexivity;
    destruct (display_gpu_infos _ _ _ _ _ _) as [[r|e] w2]; reflexivity.
Qed.

Lemma poll_host_world (col_width : Z) (i : nat) (server : string) (offs : Z * Z)
    (w : world) :
  grows w (poll_host E col_width i server offs w).2
  /\ painted_inside (scr w) (scr (poll_host E col_width i server offs w).2).
Proof.
  rewrite poll_host_eq.
  destruct (fetch_grows E server w) as [Hg Hs].
  destruct (fetch E server w) as [[out|e] w1]; simpl in *;
    [|split; [exact Hg | rewrite Hs; reflexivity]].
  destruct (get_gpu_infos E out) as [gs|e]; simpl;
    [|split; [exact Hg | rewrite Hs; reflexivity]].
  pose proof (display_gpu_infos_grows E server (column_of col_width i) gs
                (offset_of offs i) w1) as Hd.
  pose proof (display_gpu_infos_inside E server (column_of col_width i)
                (offset_of offs i) w1 gs) as Hp.
  rewrite Hs in Hp.
  destruct (display_gpu_infos _ _ _ _ _ _) as [[r|e] w2]; simpl in *;
    (split; [etransitivity; eassumption | exact Hp]).
Qed.

Lemma poll_host_offsets (col_width : Z) (i : nat) (server : string) (offs offs' : Z * Z)
    (w w' : world) :
  poll_host E col_width i server offs w = (Ok offs', w') ->
  if Nat.even i
  then snd offs' = snd offs /\ fst offs <= fst offs'
  else fst offs' = fst offs /\ snd offs <= snd offs'.
Proof.
  rewrite poll_host_eq.
  destruct (fetch E server w) as [[out|e] w1]; [|discriminate].
  destruct (get_gpu_infos E out) as [gs|e]; [|discriminate].
  pose proof (display_gpu_infos_rows E server (column_of col_width i)
                (offset_of offs i) w1 gs) as Hr.
  destruct (display_gpu_infos _ _ _ _ _ _) as [[r|e] w2]; [|discriminate].
  specialize (Hr r eq_refl). intros H. injection H as <- <-.
  unfold offset_of in Hr.
  destruct (Nat.even i); simpl; (split; [reflexivity|]);
    destruct (header_write _ _ _ _).1; lia.
Qed.

Lemma poll_hosts_world (col_width : Z) (servers : list string) :
  forall (i : nat) (offs : Z * Z) (w : world),
  grows w (poll_hosts E col_width i servers offs w).2
  /\ painted_inside (scr w) (scr (poll_hosts E col_width i servers offs w).2).
Proof.
  induction servers as [|server rest IH]; intros i offs w; simpl.
  - split; reflexivity.
  - unfold mbind, M_bind.
    destruct (poll_host_world col_width i server offs w) as [Hg Hp].
    destruct (poll_host E col_width i server offs w) as [[offs1|e] w1]; simpl in *;
      [|split; assumption].
    destruct (IH (S i) offs1 w1) as [Hg' Hp'].
    split; etransitivity; eassumption.
Qed.

Lemma poll_hosts_offsets (col_width : Z) (servers : list string) :
  forall (i : nat) (offs offs' : Z * Z) (w w' : world),
  poll_hosts E col_width i servers offs w = (Ok offs', w') ->
  fst offs <= fst offs' /\ snd offs <= snd offs'.
Proof.
  induction servers as [|server rest IH]; intros i offs offs' w w'; simpl.
  - intros H. injection H as <- <-. lia.
  - unfold mbind, M_bind.
    destruct (poll_host E col_width i server offs w) as [[offs1|e] w1] eqn:Hh;
      [|discriminate].
    intros Hrest. apply IH in Hrest. apply poll_host_offsets in Hh.
    destruct (Nat.even i); lia.
Qed.

Lemma draw_separator_inside (col_width max_row : Z) (s : window) :
  painted_inside s (draw_separator col_width max_row s).
Proof.
  unfold draw_separator. generalize (seq 0 (Z.to_nat max_row)). intros l.
  revert s. induction l as [|y l IH]; intros s; simpl; [reflexivity|].
  etransitivity; [apply addch_at_inside | apply IH].
Qed.

Lemma poll_cycle_world (servers : list string) (w : world) :
  grows w (poll_cycle E servers w).2
  /\ painted_inside (clear (scr w)) (scr (poll_cycle E servers w).2).
Proof.
  unfold poll_cycle.
  destruct (poll_hosts_world (COLS (scr (set_scr w (clear (scr w)))) / 2) servers 0
              (0, 0) (set_scr w (clear (scr w)))) as [Hg Hp].
  destruct (poll_hosts _ _ _ _ _ _) as [[offs|e] w1]; simpl in *.
  - split.
    + etransitivity; [apply grows_set_scr|].
      etransitivity; [exact Hg | apply grows_set_scr].
    + etransitivity; [exact Hp | apply draw_separator_inside].
  - split; [|exact Hp]. etransitivity; [apply grows_set_scr | exact Hg].
Qed.

End Cycle.

(** X8. The two column cursors are independent and only move down: a host
    of even index leaves the right cursor untouched, a host of odd index
    the left one, and over a whole pass through the hosts neither cursor
    ends up above where it started. *)
Theorem column_cursors (E : env) (col_width : Z) (i : nat) (servers : list string)
    (offs offs' : Z * Z) (w w' : world) :
  poll_hosts E col_width i servers offs w = (Ok offs', w') ->
  fst offs <= fst offs' /\ snd offs <= snd offs'
  /\ forall server offs1 w1,
      poll_host E col_width i server offs w = (Ok offs1, w1) ->
      if Nat.even i
      then snd offs1 = snd offs /\ fst offs <= fst offs1
      else fst offs1 = fst offs /\ snd offs <= snd offs1.
Proof.
  intros H. apply poll_hosts_offsets in H. destruct H as [H1 H2].
  split; [exact H1|]. split; [exact H2|].
  intros server offs1 w1. apply poll_host_offsets.
Qed.

Lemma column_cursors_witness :
  0 <= 9 /\ 0 <= 9
  /\ forall server offs1 w1,
      poll_host sample_env 40 0 server (0, 0) (start_world 24 80) = (Ok offs1, w1) ->
      if Nat.even 0
      then snd offs1 = snd (0, 0) /\ fst (0, 0) <= fst offs1
      else fst offs1 = fst (0, 0) /\ snd (0, 0) <= snd offs1.
Proof.
  apply (column_cursors sample_env 40 0 ["10.0.0.1 -p22"; "10.0.0.2"] (0, 0) (9, 9)
           (start_world 24 80)
           (poll_hosts sample_env 40 0 ["10.0.0.1 -p22"; "10.0.0.2"] (0, 0)
              (start_world 24 80)).2).
  vm_compute. reflexivity.
Defined.

(** X9. A cycle repaints from a blank window and never paints outside it:
    after [poll_cycle], whether it ended normally or with an exception, the
    window has its size unchanged and every painted cell lies inside it;
    nothing of the previous frame is left. *)
Theorem poll_cycle_paints_inside (E : env) (servers : list string) (w : world) :
  LINES (scr (poll_cycle E servers w).2) = LINES (scr w)
  /\ COLS (scr (poll_cycle E servers w).2) = COLS (scr w)
  /\ Forall (fun c => in_window (scr w) (cell_y c) (cell_x c) = true)
       (cells (scr (poll_cycle E servers w).2))
  /\ (poll_cycle E servers (set_scr w (clear (scr w)))) = poll_cycle E servers w.
Proof.
  destruct (poll_cycle_world E servers w) as [_ (Hl & Hc & new & Hn & Hf)].
  split; [exact Hl|]. split; [exact Hc|]. split; [|reflexivity].
  rewrite Hn. simpl. rewrite app_nil_r. exact Hf.
Qed.

(** ** The log: one entry for each failed sub-process *)

Lemma failures_app (E : env) (new1 new2 : list invocation) : forall h,
  failures E h (new1 ++ new2)
  = (failures E h new1 + failures E (h ++ new1) new2)%nat.
Proof.
  induction new1 as [|i new1 IH]; intros h; simpl.
  - now rewrite app_nil_r.
  - rewrite IH, <- app_assoc. simpl. lia.
Qed.

#[global] Instance accounted_refl (E : env) : Reflexive (accounted E).
Proof.
  intros w. exists [], []. now rewrite !app_nil_r.
Qed.

#[global] Instance accounted_trans (E : env) : Transitive (accounted E).
Proof.
  intros w1 w2 w3 (n1 & e1 & Hh1 & Hl1 & Hc1) (n2 & e2 & Hh2 & Hl2 & Hc2).
  exists (n1 ++ n2)%list, (e1 ++ e2)%list.
  rewrite Hh2, Hl2, Hh1, Hl1, <- !app_assoc. split; [reflexivity|].
  split; [reflexivity|].
  rewrite length_app, failures_app, Hc1, Hc2, Hh1. reflexivity.
Qed.

#[global] Instance accounted_st_refl (E : env) : Reflexive (accounted_st E).
Proof. intros st. unfold accounted_st. reflexivity. Qed.

#[global] Instance accounted_st_trans (E : env) : Transitive (accounted_st E).
Proof. intros s1 s2 s3. unfold accounted_st. apply accounted_trans. Qed.

Section Accounting.

Variable E : env.

Lemma accounted_set_scr (w : world) (s : window) : accounted E w (set_scr w s).
Proof. exists [], []. simpl. now rewrite !app_nil_r. Qed.

Lemma run_nvidiasmi_local_accounted (w : world) :
  accounted E w (run_nvidiasmi_local E w).2.
Proof.
  unfold run_nvidiasmi_local, run.
  destruct (check_output E (history w) (nvidiasmi_local_cmd E)) eqn:Ho; simpl;
    [ exists [nvidiasmi_local_cmd E], []
    | eexists [nvidiasmi_local_cmd E], [_]
    | eexists [nvidiasmi_local_cmd E], [_]
    | exists [nvidiasmi_local_cmd E], [] ];
    simpl; rewrite Ho, ?app_nil_r; repeat split.
Qed.

Lemma try_nvidiasmi_remote_accounted (server : string) (inv : invocation) (w : world) :
  accounted E w (try_nvidiasmi_remote E server inv w).2.
Proof.
  unfold try_nvidiasmi_remote, run.
  destruct (check_output E (history w) inv) eqn:Ho; simpl;
    [ exists [inv], [] | eexists [inv], [_] | eexists [inv], [_] | exists [inv], [] ];
    simpl; rewrite Ho, ?app_nil_r; repeat split.
Qed.

Lemma fetch_accounted (server : string) (w : world) :
  accounted E w (fetch E server w).2.
Proof.
  rewrite fetch_eq.
  destruct (fetch_invocation E server) as [inv|e]; [|reflexivity].
  destruct (is_local server) as [[|]|e];
    [apply run_nvidiasmi_local_accounted | |];
    apply try_nvidiasmi_remote_accounted.
Qed.

Lemma lookup_users_accounted (server : string) (inv : invocation)
    (pids : list (option string)) (w : world) :
  accounted E w (lookup_users E server inv pids w).2.
Proof.
  unfold lookup_users, run.
  destruct (check_output E (history w) inv) eqn:Ho; simpl;
    [ exists [inv], [] | eexists [inv], [_] | eexists [inv], [_] | exists [inv], [] ];
    simpl; rewrite Ho, ?app_nil_r; repeat split.
Qed.

Lemma get_user_info_accounted (server : string) (pids : list (option string))
    (w : world) :
  accounted E w (get_user_info E server pids w).2.
Proof.
  destruct pids as [|p pids]; [reflexivity|].
  rewrite get_user_info_eq by discriminate.
  destruct (lookup_invocation E server (p :: pids)); [|reflexivity].
  apply lookup_users_accounted.
Qed.

Variables (server : string) (col : Z).

Lemma accounted_addstr (text : string) (a : Z) :
  steady no_inv (accounted_st E) (t_addstr col text a).
Proof.
  intros [row w] _. unfold t_addstr.
  destruct (addstr_at (scr w) row col text a) as [[|] s];
    (split; [apply accounted_set_scr | easy]).
Qed.

Lemma accounted_addstr_cur (text : string) (a : Z) :
  steady no_inv (accounted_st E) (t_addstr_cur text a).
Proof.
  intros [row w] _. unfold t_addstr_cur.
  destruct (waddstr (scr w) text a) as [[|] s];
    (split; [apply accounted_set_scr | easy]).
Qed.

Lemma accounted_incr : steady no_inv (accounted_st E) t_incr.
Proof.
  intros [row w] _. split; [unfold accounted_st; simpl; reflexivity | easy].
Qed.

Lemma accounted_lift {A} (m : M A) :
  (forall w, accounted E w (m w).2) -> steady no_inv (accounted_st E) (t_lift m).
Proof.
  intros Hm [row w] _. unfold t_lift. specialize (Hm w).
  destruct (m w) as [[a|e] w']; (split; [exact Hm | easy]).
Qed.

Lemma accounted_user_line (um : string * Z) :
  steady no_inv (accounted_st E) (user_line col um).
Proof.
  destruct um as [user memory]. unfold user_line.
  repeat first
    [ apply steady_bind; [apply _ | | intros ?]
    | apply accounted_incr
    | apply accounted_addstr_cur
    | apply accounted_addstr ].
Qed.

Lemma accounted_gpu_block (g : gpu_info) :
  steady no_inv (accounted_st E) (gpu_block E server col g).
Proof.
  unfold gpu_block.
  repeat first
    [ apply steady_bind; [apply _ | | intros ?]
    | apply accounted_incr
    | apply accounted_addstr_cur
    | apply accounted_addstr
    | apply accounted_lift; intros w; apply get_user_info_accounted
    | apply steady_for; [apply _ | apply _ | apply accounted_user_line] ].
Qed.

Lemma gpu_loop_accounted (gpu_infos : list gpu_info) : forall st,
  accounted E st.2 (gpu_loop E server col gpu_infos st).2.2.
Proof.
  induction gpu_infos as [|g rest IH]; intros st; simpl; [reflexivity|].
  destruct (st.1 >=? LINES (scr st.2) - 1); [reflexivity|].
  destruct (accounted_gpu_block g st Logic.I) as [Hg _]. unfold accounted_st in Hg.
  destruct (gpu_block E server col g st) as [[[]| |e] st1]; simpl in *;
    try exact Hg.
  etransitivity; [exact Hg | apply IH].
Qed.

Lemma display_gpu_infos_accounted (gpu_infos : list gpu_info) (row_offset : Z)
    (w : world) :
  accounted E w (display_gpu_infos E server gpu_infos col row_offset w).2.
Proof.
  unfold display_gpu_infos.
  destruct (addstr_at _ _ _ _ _) as [[|] s]; simpl; [|apply accounted_set_scr].
  pose proof (gpu_loop_accounted gpu_infos (row_offset + 1, set_scr w s)) as Hl.
  destruct (gpu_loop _ _ _ _ _) as [[e|] [row w1]]; simpl in *.
  - etransitivity; [apply accounted_set_scr | exact Hl].
  - destruct (row <? LINES (scr w1) - 1);
      (etransitivity; [apply accounted_set_scr|]);
      try (etransitivity; [exact Hl | apply accounted_set_scr]); exact Hl.
Qed.

End Accounting.

Lemma poll_host_accounted (E : env) (col_width : Z) (i : nat) (server : string)
    (offs : Z * Z) (w : world) :
  accounted E w (poll_host E col_width i server offs w).2.
Proof.
  rewrite poll_host_eq.
  pose proof (fetch_accounted E server w) as Hf.
  destruct (fetch E server w) as [[out|e] w1]; simpl in *; [|exact Hf].
  destruct (get_gpu_infos E out) as [gs|e]; simpl; [|exact Hf].
  pose proof (display_gpu_infos_accounted E server (column_of col_width i) gs
                (offset_of offs i) w1) as Hd.
  destruct (display_gpu_infos _ _ _ _ _ _) as [[r|e] w2]; simpl in *;
    (etransitivity; eassumption).
Qed.

Lemma poll_hosts_accounted (E : env) (col_width : Z) (servers : list string) :
  forall (i : nat) (offs : Z * Z) (w : world),
  accounted E w (poll_hosts E col_width i servers offs w).2.
Proof.
  induction servers as [|server rest IH]; intros i offs w; simpl; [reflexivity|].
  unfold mbind, M_bind.
  pose proof (poll_host_accounted E col_width i server offs w) as Hh.
  destruct (poll_host E col_width i server offs w) as [[offs1|e] w1]; simpl in *;
    [|exact Hh].
  etransitivity; [exact Hh | apply IH].
Qed.

Lemma poll_cycle_accounted (E : env) (servers : list string) (w : world) :
  accounted E w (poll_cycle E servers w).2.
Proof.
  unfold poll_cycle.
  pose proof (poll_hosts_accounted E (COLS (scr (set_scr w (clear (scr w)))) / 2)
                servers 0 (0, 0) (set_scr w (clear (scr w)))) as Hp.
  destruct (poll_hosts _ _ _ _ _ _) as [[offs|e] w1]; simpl in *.
  - etransitivity; [apply accounted_set_scr|].
    etransitivity; [exact Hp | apply accounted_set_scr].
  - etransitivity; [apply accounted_set_scr | exact Hp].
Qed.

Lemma main_accounted (E : env) (servers : list string) (n : nat) : forall w,
  accounted E w (main E servers n w).2.
Proof.
  induction n as [|n IH]; intros w; simpl; [reflexivity|].
  unfold mbind, M_bind.
  pose proof (poll_cycle_accounted E servers w) as Hc.
  destruct (poll_cycle E servers w) as [[[]|e] w1]; simpl in *; [|exact Hc].
  etransitivity; [exact Hc | apply IH].
Qed.

Lemma failures_none (E : env) (new : list invocation) : forall h,
  (forall h' i, failed (check_output E h' i) = false) ->
  failures E h new = 0%nat.
Proof.
  induction new as [|i new IH]; intros h Hok; simpl; [reflexivity|].
  rewrite Hok, IH by assumption. reflexivity.
Qed.

(** X10. Every log entry answers for a failed sub-process.  Over any number
    of cycles, ended normally or by an exception, sub-processes are only
    added to the history and entries to the log, and the number of entries
    added is the number of sub-processes added that timed out or exited
    with a non-zero status.  When no sub-process fails in one of these two
    ways, nothing is logged. *)
Theorem main_log_accounting (E : env) (servers : list string) (n : nat) (w : world) :
  (exists new entries,
     history (main E servers n w).2 = (history w ++ new)%list
     /\ log (main E servers n w).2 = (log w ++ entries)%list
     /\ length entries = failures E (history w) new)
  /\ ((forall h i, failed (check_output E h i) = false) ->
      log (main E servers n w).2 = log w).
Proof.
  pose proof (main_accounted E servers n w) as (new & entries & Hh & Hl & Hc).
  split; [exists new, entries; repeat split; assumption|].
  intros Hok. rewrite (failures_none E new (history w) Hok) in Hc.
  destruct entries; [|discriminate]. now rewrite Hl, app_nil_r.
Qed.

Lemma main_log_accounting_witness :
  (exists new entries,
     history (main (failing_env TimeoutExpired) ["10.0.0.1 -p22"; "10.0.0.2"] 2
                (start_world 24 80)).2
     = (history (start_world 24 80) ++ new)%list
     /\ log (main (failing_env TimeoutExpired) ["10.0.0.1 -p22"; "10.0.0.2"] 2
               (start_world 24 80)).2
        = (log (start_world 24 80) ++ entries)%list
     /\ length entries = failures (failing_env TimeoutExpired) [] new)
  /\ length (log (main (failing_env TimeoutExpired) ["10.0.0.1 -p22"; "10.0.0.2"] 2
                    (start_world 24 80)).2) = 4%nat
  /\ log (main sample_env ["10.0.0.1 -p22"; "10.0.0.2"] 2 (start_world 24 80)).2
     = log (start_world 24 80).
Proof.
  split; [|split].
  - apply (main_log_accounting (failing_env TimeoutExpired) ["10.0.0.1 -p22"; "10.0.0.2"] 2
             (start_world 24 80)).
  - vm_compute. reflexivity.
  - apply (main_log_accounting sample_env ["10.0.0.1 -p22"; "10.0.0.2"] 2
             (start_world 24 80)).
    intros h i. simpl. destruct (String.prefix "ps" (command_of i)); reflexivity.
Defined.

Lemma poll_host_history (E : env) (col_width : Z) (i : nat) (server : string)
    (offs offs' : Z * Z) (w w' : world) :
  poll_host E col_width i server offs w = (Ok offs', w') ->
  exists inv out w1 gpu_infos r hs gs,
    fetch_invocation E server = Ok inv
    /\ fetch E server w = (Ok out, w1)
    /\ history w1 = (history w ++ [inv])%list
    /\ get_gpu_infos E out = Ok gpu_infos
    /\ display_gpu_infos E server gpu_infos (column_of col_width i) (offset_of offs i) w1
       = (Ok r, w')
    /\ sublist gs gpu_infos
    /\ Forall2 (lookup_of E server) hs gs
    /\ history w' = (history w ++ inv :: hs)%list
    /\ (length hs <= length gpu_infos)%nat.
Proof.
  rewrite poll_host_eq.
  destruct (fetch E server w) as [[out|e] w1] eqn:Hf; [|discriminate].
  assert (exists inv, fetch_invocation E server = Ok inv) as [inv Hinv].
  { rewrite fetch_eq in Hf.
    destruct (fetch_invocation E server) as [inv|e]; [eauto | discriminate]. }
  pose proof (fetch_effect E server w inv Hinv) as [Hh _]. rewrite Hf in Hh.
  destruct (get_gpu_infos E out) as [gs|e] eqn:Hg; [|discriminate].
  destruct (display_gpu_infos_history E server (column_of col_width i) gs
              (offset_of offs i) w1) as (hs & gs' & Hsub & Hall & Hd).
  destruct (display_gpu_infos _ _ _ _ _ _) as [[r|e] w2] eqn:Hdisp; [|discriminate].
  intros H. injection H as _ <-. simpl in *.
  exists inv, out, w1, gs, r, hs, gs'.
  split; [exact Hinv|]. split; [reflexivity|]. split; [exact Hh|].
  split; [exact Hg|]. split; [exact Hdisp|]. split; [exact Hsub|].
  split; [exact Hall|]. split.
  - rewrite Hd, Hh. now rewrite <- app_assoc.
  - rewrite (Forall2_length _ _ _ Hall). now apply sublist_length.
Qed.


(** X11. A host whose turn ends normally has cost one telemetry fetch, then
    at most one owner lookup for each device record parsed from the output
    of that fetch, in the order of the devices, and nothing else: the fetch
    is the first sub-process of the turn, its output is what is parsed, and
    the records parsed are the ones rendered. *)
Theorem poll_host_subprocesses (E : env) (col_width : Z) (i : nat) (server : string)
    (offs offs' : Z * Z) (w w' : world) :
  poll_host E col_width i server offs w = (Ok offs', w') ->
  exists inv out w1 gpu_infos r hs gs,
    fetch_invocation E server = Ok inv
    /\ fetch E server w = (Ok out, w1)
    /\ history w1 = (history w ++ [inv])%list
    /\ get_gpu_infos E out = Ok gpu_infos
    /\ display_gpu_infos E server gpu_infos (column_of col_width i) (offset_of offs i) w1
       = (Ok r, w')
    /\ sublist gs gpu_infos
    /\ Forall2 (lookup_of E server) hs gs
    /\ history w' = (history w ++ inv :: hs)%list
    /\ (length hs <= length gpu_infos)%nat.
Proof.
  intros H. destruct (poll_host_history E col_width i server offs offs' w w' H)
    as (inv & out & w1 & gpu_infos & r & hs & gs
        & H1 & H2 & H3 & H4 & H5 & H6 & H7 & H8 & H9).
  exists inv, out, w1, gpu_infos, r, hs, gs. repeat split; assumption.
Qed.

Lemma poll_host_subprocesses_witness :
  exists inv out w1 gpu_infos r hs gs,
    fetch_invocation two_gpu_env "10.0.0.1 -p22" = Ok inv
    /\ fetch two_gpu_env "10.0.0.1 -p22" (start_world 24 80) = (Ok out, w1)
    /\ history w1 = (history (start_world 24 80) ++ [inv])%list
    /\ get_gpu_infos two_gpu_env out = Ok gpu_infos
    /\ display_gpu_infos two_gpu_env "10.0.0.1 -p22" gpu_infos (column_of 40 0)
         (offset_of (0, 0) 0) w1
       = (Ok r, (poll_host two_gpu_env 40 0 "10.0.0.1 -p22" (0, 0) (start_world 24 80)).2)
    /\ sublist gs gpu_infos
    /\ Forall2 (lookup_of two_gpu_env "10.0.0.1 -p22") hs gs
    /\ history (poll_host two_gpu_env 40 0 "10.0.0.1 -p22" (0, 0) (start_world 24 80)).2
       = (history (start_world 24 80) ++ inv :: hs)%list
    /\ (length hs <= length gpu_infos)%nat.
Proof.
  apply (poll_host_subprocesses two_gpu_env 40 0 "10.0.0.1 -p22" (0, 0) (16, 0)
           (start_world 24 80)).
  vm_compute. reflexivity.
Defined.

(** ** The vertical separator *)

Section Separator.

Lemma addch_at_dims (s : window) (y x : Z) (c : ascii) :
  LINES (addch_at s y x c).2 = LINES s /\ COLS (addch_at s y x c).2 = COLS s.
Proof. destruct (addch_at_inside s y x c) as (Hl & Hc & _). now split. Qed.

Lemma addch_at_char_same (s : window) (y x : Z) (c : ascii) :
  in_window s y x = true -> char_at (addch_at s y x c).2 y x = Some (c, 0).
Proof.
  intros Hin. unfold addch_at, wmove. rewrite Hin. unfold waddch. simpl.
  destruct (x + 1 <? COLS s); [|destruct (y + 1 <? LINES s)];
    unfold char_at; simpl; now rewrite !Z.eqb_refl.
Qed.

Lemma addch_at_char_other (s : window) (y x y' x' : Z) (c : ascii) :
  y' <> y \/ x' <> x ->
  char_at (addch_at s y x c).2 y' x' = char_at s y' x'.
Proof.
  intros Hne. unfold addch_at, wmove.
  destruct (in_window s y x); [|reflexivity]. unfold waddch. simpl.
  assert ((y =? y') && (x =? x') = false) as Hb.
  { apply andb_false_iff. destruct Hne; [left | right]; lia. }
  destruct (x + 1 <? COLS s); [|destruct (y + 1 <? LINES s)];
    unfold char_at; simpl; now rewrite Hb.
Qed.

Lemma draw_rows (col_width : Z) (n : nat) : forall s : window,
  0 <= col_width < COLS s ->
  let s' := fold_left (fun s row => snd (addch_at s (Z.of_nat row) col_width "|"))
              (seq 0 n) s in
  LINES s' = LINES s /\ COLS s' = COLS s
  /\ forall y, 0 <= y < Z.of_nat n -> y < LINES s ->
               char_at s' y col_width = Some ("|"%char, 0).
Proof.
  induction n as [|n IH]; intros s Hcw; cbv zeta.
  - simpl. repeat split. intros y Hy. lia.
  - rewrite seq_S, fold_left_app. cbn [fold_left Nat.add].
    destruct (IH s Hcw) as (Hl & Hc & Hch).
    set (s1 := fold_left _ (seq 0 n) s) in *.
    destruct (addch_at_dims s1 (Z.of_nat n) col_width "|") as [Hl' Hc'].
    split; [congruence|]. split; [congruence|].
    intros y Hy Hlines.
    destruct (Z.eq_dec y (Z.of_nat n)) as [->|Hne].
    + apply addch_at_char_same. unfold in_window. rewrite Hl, Hc. lia.
    + rewrite addch_at_char_other by (left; exact Hne). apply Hch; lia.
Qed.

Lemma draw_separator_chars (col_width : Z) (s : window) :
  0 <= col_width < COLS s ->
  forall y, 0 <= y < LINES s ->
    char_at (draw_separator col_width (LINES s) s) y col_width = Some ("|"%char, 0).
Proof.
  intros Hcw y Hy. unfold draw_separator.
  destruct (draw_rows col_width (Z.to_nat (LINES s)) s Hcw) as (_ & _ & H).
  apply H; lia.
Qed.

End Separator.

(** X12. After a cycle that ends normally, the vertical separator stands on
    every row of the window, in the middle column [COLS // 2], on top of
    whatever a host block has written there. *)
Theorem separator_drawn (E : env) (servers : list string) (w w' : world) (y : Z) :
  poll_cycle E servers w = (Ok tt, w') ->
  1 <= COLS (scr w) ->
  0 <= y < LINES (scr w) ->
  char_at (scr w') y (COLS (scr w) / 2) = Some ("|"%char, 0).
Proof.
  unfold poll_cycle. intros Hc Hcols Hy.
  destruct (poll_hosts_world E (COLS (scr (set_scr w (clear (scr w)))) / 2) servers 0
              (0, 0) (set_scr w (clear (scr w)))) as [_ (Hl & Hco & _)].
  destruct (poll_hosts _ _ _ _ _ _) as [[offs|e] w1]; [|discriminate].
  injection Hc as <-. simpl in *. rewrite <- Hl.
  apply draw_separator_chars.
  - rewrite Hco. split; [apply Z.div_pos; lia | apply Z.div_lt; lia].
  - rewrite Hl. exact Hy.
Qed.

Lemma separator_drawn_witness :
  char_at (scr (poll_cycle sample_env ["10.0.0.1 -p22"] (start_world 24 80)).2) 23
    (COLS (scr (start_world 24 80)) / 2)
  = Some ("|"%char, 0).
Proof.
  apply (separator_drawn sample_env ["10.0.0.1 -p22"] (start_world 24 80)).
  - vm_compute. reflexivity.
  - simpl. lia.
  - simpl. lia.
Defined.

(** ** Parsing: all or nothing *)

Section ParseErrors.

Lemma rmap_first_failure {A B} (f : A -> result B) (pre post : list A) (a : A) (e : exn) :
  Forall (fun x => is_ok (f x) = true) pre ->
  f a = Raise e ->
  rmap f (pre ++ a :: post) = Raise e.
Proof.
  intros Hpre Ha. induction pre as [|x pre IH]; simpl.
  - now rewrite Ha.
  - inversion Hpre as [|? ? Hx Hpre']; subst.
    destruct (f x) as [b|e']; [|discriminate]. simpl.
    now rewrite IH.
Qed.

Lemma split_go_first (s : string) : forall cur,
  cur <> [] ->
  exists more rest,
    Py.split_go cur s = string_of_list_ascii (rev cur ++ more) :: rest.
Proof.
  induction s as [|c s IH]; intros cur Hne; simpl.
  - exists [], []. destruct cur; [congruence|]. now rewrite app_nil_r.
  - destruct (Py.is_space c).
    + exists [], (Py.split_go [] s). destruct cur; [congruence|].
      now rewrite app_nil_r.
    + destruct (IH (c :: cur)) as (more & rest & H); [discriminate|].
      exists (c :: more), rest. rewrite H. simpl. now rewrite <- app_assoc.
Qed.

Lemma int_not_numeric (c : ascii) (t : string) :
  not_numeric c -> Py.int (String c t) = Raise ValueError.
Proof.
  intros (_ & Hd & Hp & Hm). unfold Py.int.
  assert (Py.parse_digits 0 false (String c t) = None) as Hnone.
  { simpl. rewrite Hd. now destruct (Ascii.eqb c "_"). }
  destruct c as [[] [] [] [] [] [] [] []]; try congruence; now rewrite Hnone.
Qed.

Lemma int_field_not_numeric (node : element) (c : ascii) (s : string) :
  text_of node = Some (String c s) -> not_numeric c ->
  int_field (Some node) = Raise ValueError.
Proof.
  intros Ht Hc. unfold int_field. simpl. rewrite Ht.
  unfold Py.split. simpl. destruct Hc as (Hs & Hrest). rewrite Hs.
  destruct (split_go_first s [c]) as (more & rest & ->); [discriminate|].
  simpl. apply int_not_numeric. now split.
Qed.

End ParseErrors.

(** X13. Parsing is all or nothing: when a device node fails to parse, the
    exception of the first such node is the result, whatever the devices
    before it gave and whatever follows; no partial list is returned. *)
Theorem get_gpu_infos_first_failure (E : env) (out : string) (root : element)
    (pre post : list element) (g : element) (e : exn) :
  fromstring E out = Ok root ->
  findall ["gpu"] root = (pre ++ g :: post)%list ->
  Forall (fun x => is_ok (parse_gpu x) = true) pre ->
  parse_gpu g = Raise e ->
  get_gpu_infos E (Some out) = Raise e.
Proof.
  intros Hroot Hall Hpre Hg. unfold get_gpu_infos. rewrite Hroot.
  change (rmap parse_gpu (findall ["gpu"] root) = Raise e).
  rewrite Hall. now apply rmap_first_failure.
Qed.

Lemma get_gpu_infos_first_failure_witness :
  get_gpu_infos second_na_env (Some "<nvidia_smi_log/>") = Raise ValueError.
Proof.
  apply (get_gpu_infos_first_failure second_na_env "<nvidia_smi_log/>" second_na_root
           [gpu_node "0" "A100" "8000 MiB" "2000 MiB" "6000 MiB" [("123", "500 MiB")]]
           []
           (gpu_node "1" "A100" "N/A" "N/A" "N/A" [])).
  - reflexivity.
  - reflexivity.
  - repeat constructor.
  - reflexivity.
Defined.

(** X14. A device whose index and name are present but whose total memory
    reads a word that begins with neither a digit nor a sign, such as
    [N/A], makes its parsing raise ValueError, whatever the rest of the
    node holds. *)
Theorem parse_gpu_not_numeric (gpu node : element) (c : ascii) (s : string) :
  find ["minor_number"] gpu <> None ->
  find ["product_name"] gpu <> None ->
  find ["fb_memory_usage"; "total"] gpu = Some node ->
  text_of node = Some (String c s) ->
  not_numeric c ->
  parse_gpu gpu = Raise ValueError.
Proof.
  intros Hi Hn Ht Htext Hc. unfold parse_gpu.
  destruct (find ["minor_number"] gpu) as [ni|]; [|congruence].
  destruct (find ["product_name"] gpu) as [nn|]; [|congruence].
  rewrite Ht. simpl.
  now rewrite (int_field_not_numeric node c s Htext Hc).
Qed.

Lemma parse_gpu_not_numeric_witness :
  parse_gpu (gpu_node "1" "A100" "N/A" "2000 MiB" "6000 MiB" []) = Raise ValueError.
Proof.
  apply (parse_gpu_not_numeric _ (leaf "total" "N/A") "N" "/A");
    try discriminate; try reflexivity.
  repeat split; discriminate.
Defined.

(** ** Reading back what was written *)

Section ReadBack.

Lemma waddch_char_other (s : window) (c : ascii) (a : Z) (y x : Z) :
  y <> cur_y s \/ x <> cur_x s ->
  char_at (waddch s c a).2 y x = char_at s y x.
Proof.
  intros Hne. unfold waddch.
  assert ((cur_y s =? y) && (cur_x s =? x) = false) as Hb.
  { apply andb_false_iff. destruct Hne; [left | right]; lia. }
  destruct (cur_x s + 1 <? COLS s); [|destruct (cur_y s + 1 <? LINES s)];
    unfold char_at; simpl; now rewrite Hb.
Qed.

Lemma waddch_char_same (s : window) (c : ascii) (a : Z) :
  char_at (waddch s c a).2 (cur_y s) (cur_x s) = Some (c, a).
Proof.
  unfold waddch.
  destruct (cur_x s + 1 <? COLS s); [|destruct (cur_y s + 1 <? LINES s)];
    unfold char_at; simpl; now rewrite !Z.eqb_refl.
Qed.

(** A text that ends before the right margin is written on one row and can
    be read back; the other cells keep what they showed. *)
Lemma waddstr_line (text : string) (a : Z) : forall s : window,
  cur_x s + Z.of_nat (String.length text) < COLS s ->
  (waddstr s text a).1 = true
  /\ row_text (waddstr s text a).2 (cur_y s) (cur_x s) (String.length text) = text
  /\ forall y x,
      y <> cur_y s \/ x < cur_x s \/ cur_x s + Z.of_nat (String.length text) <= x ->
      char_at (waddstr s text a).2 y x = char_at s y x.
Proof.
  induction text as [|c text IH]; intros s Hfit.
  - simpl. repeat split.
  - cbn [waddstr]. cbn [String.length] in *.
    pose proof (waddch_char_same s c a) as Hsame.
    pose proof (fun y x => waddch_char_other s c a y x) as Hother.
    assert (Hw : exists cs, waddch s c a
                 = (true, {| LINES := LINES s; COLS := COLS s; cur_y := cur_y s;
                             cur_x := cur_x s + 1; cells := cs |})).
    { unfold waddch. destruct (cur_x s + 1 <? COLS s) eqn:Hx; [eauto | lia]. }
    destruct Hw as [cs Hw]. rewrite Hw in *. simpl in Hsame, Hother.
    set (s1 := {| LINES := LINES s; COLS := COLS s; cur_y := cur_y s;
                  cur_x := cur_x s + 1; cells := cs |}) in *.
    destruct (IH s1) as (Hok & Hread & Hrest); [simpl; lia|].
    simpl in Hread, Hrest.
    split; [exact Hok|]. split.
    + cbn [row_text]. rewrite Hrest by lia. rewrite Hsame. now rewrite Hread.
    + intros y x Hyx. rewrite Hrest by lia. apply Hother. lia.
Qed.

(** Writing from the cursor never touches the rows above it. *)
Lemma waddstr_rows_above (text : string) (a : Z) : forall (s : window) (y x : Z),
  y < cur_y s ->
  char_at (waddstr s text a).2 y x = char_at s y x.
Proof.
  induction text as [|c text IH]; intros s y x Hy; [reflexivity|].
  cbn [waddstr].
  pose proof (waddch_char_other s c a y x) as Hother.
  assert (cur_y s <= cur_y (waddch s c a).2) as Hrow.
  { unfold waddch. destruct (cur_x s + 1 <? COLS s);
      [|destruct (cur_y s + 1 <? LINES s)]; simpl; lia. }
  destruct (waddch s c a) as [[|] s1]; simpl in *.
  - rewrite IH by lia. apply Hother. lia.
  - apply Hother. lia.
Qed.

Lemma addstr_at_rows_above (s : window) (y0 x0 : Z) (text : string) (a : Z) (y x : Z) :
  y < y0 -> char_at (addstr_at s y0 x0 text a).2 y x = char_at s y x.
Proof.
  intros Hy. unfold addstr_at, wmove. destruct (in_window s y0 x0); [|reflexivity].
  now rewrite waddstr_rows_above.
Qed.

Lemma addstr_at_line (s : window) (y x : Z) (text : string) (a : Z) :
  in_window s y x = true ->
  x + Z.of_nat (String.length text) < COLS s ->
  (addstr_at s y x text a).1 = true
  /\ row_text (addstr_at s y x text a).2 y x (String.length text) = text.
Proof.
  intros Hin Hfit. unfold addstr_at, wmove. rewrite Hin.
  set (s0 := {| LINES := LINES s; COLS := COLS s; cur_y := y; cur_x := x;
                cells := cells s |}).
  destruct (waddstr_line text a s0 Hfit) as (Hok & Hread & _).
  split; assumption.
Qed.

Lemma row_text_ext (s s' : window) (y : Z) (n : nat) : forall x,
  (forall x', char_at s' y x' = char_at s y x') ->
  row_text s' y x n = row_text s y x n.
Proof.
  induction n as [|n IH]; intros x H; simpl; [reflexivity|].
  rewrite H. destruct (char_at s y x) as [[c _]|]; [|reflexivity].
  now rewrite IH.
Qed.

End ReadBack.

Lemma display_nil_header (E : env) (server : string) (col row_offset : Z) (w : world) :
  printable server ->
  in_window (scr w) row_offset col = true ->
  col + Z.of_nat (String.length (header_text server)) < COLS (scr w) ->
  (display_gpu_infos E server [] col row_offset w).1 = Ok (row_offset + 3)
  /\ row_text (scr (display_gpu_infos E server [] col row_offset w).2) row_offset col
       (String.length (header_text server))
     = header_text server
  /\ history (display_gpu_infos E server [] col row_offset w).2 = history w
  /\ log (display_gpu_infos E server [] col row_offset w).2 = log w.
Proof.
  intros _ Hin Hfit. rewrite display_gpu_infos_nil.
  change ("Server: " ++ server) with (header_text server).
  destruct (addstr_at_line (scr w) row_offset col (header_text server) 0 Hin Hfit)
    as [Hok Hread].
  generalize dependent (header_text server). intros h Hfit.
  destruct (addstr_at (scr w) row_offset col h 0) as [[|] s];
    cbn [fst snd]; [|discriminate].
  intros _ Hread. cbn [scr set_scr history log].
  split; [f_equal; lia|]. split; [|split; reflexivity].
  destruct (row_offset + 1 <? LINES s - 1); [|exact Hread].
  etransitivity; [|exact Hread]. apply row_text_ext. intros x'.
  apply addstr_at_rows_above. lia.
Qed.


(** X15. A host without device records, such as an unreachable one, shows
    its header: when the server line is printable (no tab or other control
    character), the block starts inside the window and the header ends
    before the right margin, the row reads [Server: <server>] from the
    column of the block, the cursor of the column advances by three rows,
    and no sub-process is run and nothing is logged. *)
Theorem bare_header (E : env) (server : string) (col row_offset : Z) (w : world) :
  printable server ->
  in_window (scr w) row_offset col = true ->
  col + Z.of_nat (String.length (header_text server)) < COLS (scr w) ->
  (display_gpu_infos E server [] col row_offset w).1 = Ok (row_offset + 3)
  /\ row_text (scr (display_gpu_infos E server [] col row_offset w).2) row_offset col
       (String.length (header_text server))
     = header_text server
  /\ history (display_gpu_infos E server [] col row_offset w).2 = history w
  /\ log (display_gpu_infos E server [] col row_offset w).2 = log w.
Proof.
  intros Hpr Hin Hfit.
  destruct (display_nil_header E server col row_offset w Hpr Hin Hfit)
    as (Hr & Hread & Hh & Hl).
  repeat split; assumption.
Qed.

Lemma bare_header_witness :
  (display_gpu_infos sample_env "10.0.0.2" [] 41 0 (start_world 24 80)).1 = Ok (0 + 3)
  /\ row_text (scr (display_gpu_infos sample_env "10.0.0.2" [] 41 0 (start_world 24 80)).2)
       0 41 (String.length (header_text "10.0.0.2"))
     = header_text "10.0.0.2"
  /\ history (display_gpu_infos sample_env "10.0.0.2" [] 41 0 (start_world 24 80)).2
     = history (start_world 24 80)
  /\ log (display_gpu_infos sample_env "10.0.0.2" [] 41 0 (start_world 24 80)).2
     = log (start_world 24 80).
Proof.
  apply (bare_header sample_env "10.0.0.2" 41 0 (start_world 24 80)).
  - unfold printable. simpl. repeat constructor.
  - reflexivity.
  - simpl. lia.
Defined.

(** ** Which exceptions can leave the loop *)

Section Exceptions.

Lemma fetch_error (E : env) (server : string) (w : world) (e : exn) :
  (fetch E server w).1 = Raise e -> e = IndexError \/ e = OSError.
Proof.
  rewrite fetch_eq. unfold fetch_invocation.
  destruct (is_local server) as [[|]|e'] eqn:Hl; simpl.
  - unfold run_nvidiasmi_local, run.
    destruct (check_output E (history w) (nvidiasmi_local_cmd E)); simpl;
      try discriminate.
    intros H. injection H as <-. now right.
  - destruct (build_ssh_command E server _) as [v|e'] eqn:Hb; simpl.
    + unfold try_nvidiasmi_remote, run.
      destruct (check_output E (history w) _); simpl; try discriminate.
      intros H. injection H as <-. now right.
    + intros H. injection H as <-. left. eapply build_ssh_command_error; eassumption.
  - intros H. injection H as <-. left. eapply is_local_error; eassumption.
Qed.

Lemma rmap_error {A B} (f : A -> result B) (l : list A) (e : exn) :
  rmap f l = Raise e -> exists a, a ∈ l /\ f a = Raise e.
Proof.
  induction l as [|a l IH]; simpl; [discriminate|].
  destruct (f a) as [b|e'] eqn:Ha; simpl.
  - destruct (rmap f l) as [bs|e']; simpl; [discriminate|].
    intros H. destruct (IH H) as (x & Hx & Hfx).
    exists x. split; [now apply list_elem_of_further | assumption].
  - intros H. injection H as <-. exists a. split; [apply list_elem_of_here | assumption].
Qed.

Lemma int_error (tok : string) (e : exn) : Py.int tok = Raise e -> e = ValueError.
Proof.
  unfold Py.int.
  match goal with |- match ?r with _ => _ end = _ -> _ => destruct r end;
    congruence.
Qed.

Lemma dot_text_error (node : option element) (e : exn) :
  dot_text node = Raise e -> e = AttributeError.
Proof. destruct node; simpl; congruence. Qed.

Lemma int_field_error (node : option element) (e : exn) :
  int_field node = Raise e -> field_error e.
Proof.
  unfold int_field. destruct node as [n|]; simpl; [|intros H; left; congruence].
  destruct (text_of n) as [s|]; [|intros H; left; congruence].
  destruct (Py.split s) as [|tok rest]; [intros H; right; left; congruence|].
  intros H. right; right. eapply int_error; eassumption.
Qed.

Lemma parse_process_error (p : element) (e : exn) :
  parse_process p = Raise e -> field_error e.
Proof.
  unfold parse_process.
  destruct (dot_text (find ["pid"] p)) as [t|e'] eqn:Hp; simpl.
  - destruct (int_field (find ["used_memory"] p)) as [z|e'] eqn:Hm; simpl;
      [discriminate|].
    intros H. injection H as <-. eapply int_field_error; eassumption.
  - intros H. injection H as <-. left. eapply dot_text_error; eassumption.
Qed.

Lemma parse_gpu_error (g : element) (e : exn) :
  parse_gpu g = Raise e -> field_error e.
Proof.
  unfold parse_gpu.
  destruct (dot_text (find ["minor_number"] g)) as [i|e'] eqn:Hi; simpl;
    [|intros H; injection H as <-; left; eapply dot_text_error; eassumption].
  destruct (dot_text (find ["product_name"] g)) as [n|e'] eqn:Hn; simpl;
    [|intros H; injection H as <-; left; eapply dot_text_error; eassumption].
  destruct (int_field (find ["fb_memory_usage"; "total"] g)) as [t|e'] eqn:Ht; simpl;
    [|intros H; injection H as <-; eapply int_field_error; eassumption].
  destruct (int_field (find ["fb_memory_usage"; "used"] g)) as [u|e'] eqn:Hu; simpl;
    [|intros H; injection H as <-; eapply int_field_error; eassumption].
  destruct (int_field (find ["fb_memory_usage"; "free"] g)) as [f|e'] eqn:Hf; simpl;
    [|intros H; injection H as <-; eapply int_field_error; eassumption].
  destruct (rmap parse_process _) as [ps|e'] eqn:Hp; simpl; [discriminate|].
  intros H. injection H as <-.
  apply rmap_error in Hp as (p & _ & Hp). eapply parse_process_error; eassumption.
Qed.

Lemma get_gpu_infos_error (E : env) (out : option string) (e : exn) :
  get_gpu_infos E out = Raise e ->
  field_error e \/ exists s, fromstring E s = Raise e.
Proof.
  unfold get_gpu_infos. destruct out as [s|]; [|discriminate].
  destruct (fromstring E s) as [root|e'] eqn:Hr.
  - intros H. change (rmap parse_gpu (findall ["gpu"] root) = Raise e) in H.
    apply rmap_error in H as (g & _ & Hg).
    left. eapply parse_gpu_error; eassumption.
  - intros H. injection H as <-. right. eauto.
Qed.

Variable E : env.

Lemma poll_host_error (col_width : Z) (i : nat) (server : string) (offs : Z * Z)
    (w : world) (e : exn) :
  (poll_host E col_width i server offs w).1 = Raise e -> loop_error E e.
Proof.
  rewrite poll_host_eq.
  pose proof (fetch_error E server w) as Hf.
  destruct (fetch E server w) as [[out|e'] w1]; simpl in *.
  - pose proof (get_gpu_infos_error E out) as Hg.
    destruct (get_gpu_infos E out) as [gs|e']; simpl.
    + pose proof (display_gpu_infos_error E server gs (column_of col_width i)
                    (offset_of offs i) w1) as Hd.
      destruct (display_gpu_infos _ _ _ _ _ _) as [[r|e'] w2]; simpl in *;
        [discriminate|].
      intros H. injection H as <-. right; left. now apply Hd.
    + intros H. injection H as ->.
      destruct (Hg e eq_refl) as [H|H]; [left | right; right]; assumption.
  - intros H. injection H as ->.
    destruct (Hf e eq_refl) as [-> | ->]; right; left; unfold lookup_error; auto.
Qed.

Lemma poll_hosts_error (col_width : Z) (servers : list string) :
  forall (i : nat) (offs : Z * Z) (w : world) (e : exn),
  (poll_hosts E col_width i servers offs w).1 = Raise e -> loop_error E e.
Proof.
  induction servers as [|server rest IH]; intros i offs w e; simpl; [discriminate|].
  unfold mbind, M_bind.
  pose proof (poll_host_error col_width i server offs w) as Hh.
  destruct (poll_host E col_width i server offs w) as [[offs1|e'] w1]; simpl in *.
  - apply IH.
  - intros H. injection H as <-. now apply Hh.
Qed.

Lemma poll_cycle_error (servers : list string) (w : world) (e : exn) :
  (poll_cycle E servers w).1 = Raise e -> loop_error E e.
Proof.
  unfold poll_cycle.
  pose proof (poll_hosts_error (COLS (scr (set_scr w (clear (scr w)))) / 2) servers 0
                (0, 0) (set_scr w (clear (scr w)))) as Hh.
  destruct (poll_hosts _ _ _ _ _ _) as [[offs|e'] w1]; simpl in *; [discriminate|].
  intros H. injection H as <-. now apply Hh.
Qed.

End Exceptions.

(** X16. The only exceptions that can end the polling loop are those of
    device parsing (AttributeError, IndexError, ValueError), those of
    command construction and owner resolution (TypeError, IndexError,
    OSError) and whatever the XML parser raises.  In particular a
    curses.error never ends it, unless the XML parser itself raises one. *)
Theorem main_exceptions (E : env) (servers : list string) (n : nat) (w : world)
    (e : exn) :
  (main E servers n w).1 = Raise e ->
  loop_error E e
  /\ ((forall s, fromstring E s <> Raise CursesError) -> e <> CursesError).
Proof.
  intros H. assert (loop_error E e) as Hl.
  { revert w H. induction n as [|n IH]; intros w; simpl; [discriminate|].
    unfold mbind, M_bind.
    pose proof (poll_cycle_error E servers w) as Hc.
    destruct (poll_cycle E servers w) as [[[]|e'] w1]; simpl in *.
    - apply IH.
    - intros H'. injection H' as <-. now apply Hc. }
  split; [exact Hl|].
  intros Hx ->. destruct Hl as [[H1|[H1|H1]] | [[H1|[H1|H1]] | [s H1]]];
    try discriminate. now apply (Hx s).
Qed.

Lemma main_exceptions_witness :
  loop_error na_env ValueError
  /\ ((forall s, fromstring na_env s <> Raise CursesError) -> ValueError <> CursesError).
Proof.
  apply (main_exceptions na_env ["10.0.0.1 -p22"] 1 (start_world 24 80)).
  reflexivity.
Defined.

(** ** How far a host block can reach *)

Section Reach.

Lemma advances_weaken (k k' : Z) {A} (m : T A) :
  advances k m -> k <= k' -> advances k' m.
Proof. intros Hm Hk st. specialize (Hm st). lia. Qed.

Lemma advances_bind (k1 k2 : Z) {A B} (m : T A) (k : A -> T B) :
  0 <= k2 ->
  advances k1 m -> (forall a, advances k2 (k a)) -> advances (k1 + k2) (m ≫= k).
Proof.
  intros Hk2 Hm Hk st. specialize (Hm st). unfold mbind, T_bind.
  destruct (m st) as [[a| |e] st1]; simpl in *; try lia.
  specialize (Hk a st1). lia.
Qed.

Lemma advances_addstr (col : Z) (text : string) (a : Z) :
  advances 0 (t_addstr col text a).
Proof.
  intros [row w]. unfold t_addstr.
  destruct (addstr_at (scr w) row col text a) as [[|] s]; simpl; lia.
Qed.

Lemma advances_addstr_cur (text : string) (a : Z) : advances 0 (t_addstr_cur text a).
Proof.
  intros [row w]. unfold t_addstr_cur.
  destruct (waddstr (scr w) text a) as [[|] s]; simpl; lia.
Qed.

Lemma advances_incr : advances 1 t_incr.
Proof. intros [row w]. simpl. lia. Qed.

Lemma advances_lift {A} (m : M A) : advances 0 (t_lift m).
Proof. intros [row w]. unfold t_lift. destruct (m w) as [[a|e] w']; simpl; lia. Qed.

Lemma advances_user_line (col : Z) (um : string * Z) : advances 1 (user_line col um).
Proof.
  destruct um as [user memory]. unfold user_line.
  change 1 with (0 + (0 + (0 + (0 + 1)))).
  repeat (apply advances_bind; [lia | first [apply advances_addstr
                                            | apply advances_addstr_cur] | intros _]).
  apply advances_incr.
Qed.

Lemma advances_for {A} (body : A -> T unit) (l : list A) :
  (forall a, advances 1 (body a)) -> advances (Z.of_nat (length l)) (t_for l body).
Proof.
  intros Hb. induction l as [|a l IH].
  - intros st. simpl. lia.
  - cbn [t_for length]. rewrite Nat2Z.inj_succ.
    replace (Z.succ (Z.of_nat (length l))) with (1 + Z.of_nat (length l)) by lia.
    apply advances_bind; [lia | apply Hb | intros _; exact IH].
Qed.

Lemma dict_add_length (k : string) (v : Z) (d : list (string * Z)) :
  (length (dict_add k v d) <= S (length d))%nat.
Proof.
  induction d as [|[k' v'] d IH]; simpl; [lia|].
  destruct (String.eqb k' k); simpl; lia.
Qed.

Lemma user_memory_length (user_info : gmap (option string) string)
    (procs : list process) :
  (length (user_memory user_info procs) <= length procs)%nat.
Proof.
  unfold user_memory.
  assert (forall d : list (string * Z),
            (length (fold_left
                       (fun d p => dict_add (owner_of user_info (pid p)) (used_memory p) d)
                       procs d)
             <= length d + length procs)%nat) as H.
  { induction procs as [|p procs IH]; intros d; simpl; [lia|].
    specialize (IH (dict_add (owner_of user_info (pid p)) (used_memory p) d)).
    pose proof (dict_add_length (owner_of user_info (pid p)) (used_memory p) d). lia. }
  apply (H []).
Qed.

Variables (E : env) (server : string) (col : Z).

Lemma advances_gpu_block (g : gpu_info) :
  advances (block_rows g) (gpu_block E server col g).
Proof.
  unfold gpu_block, block_rows.
  apply (advances_weaken
           (0 + (1 + (0 + (1 + (0 + (0 + (1 + (0 + (0 + (1 +
              (0 + (Z.of_nat (length (processes g)) + 1)))))))))))));
    [|lia].
  repeat (apply advances_bind;
          [lia | first [apply advances_addstr | apply advances_addstr_cur
                        | apply advances_incr] | intros _]).
  apply advances_bind; [lia | apply advances_lift | intros ui].
  apply advances_bind; [lia | | intros _; apply advances_incr].
  eapply advances_weaken; [apply advances_for, advances_user_line|].
  pose proof (user_memory_length ui (processes g)). lia.
Qed.

Lemma rows_needed_nonneg (gpu_infos : list gpu_info) : 0 <= rows_needed gpu_infos.
Proof.
  induction gpu_infos as [|g rest IH]; simpl; [lia|]. unfold block_rows. lia.
Qed.

Lemma gpu_loop_reach (gpu_infos : list gpu_info) : forall st,
  (gpu_loop E server col gpu_infos st).2.1 <= st.1 + rows_needed gpu_infos.
Proof.
  induction gpu_infos as [|g rest IH]; intros st; simpl; [lia|].
  pose proof (rows_needed_nonneg rest) as Hn.
  assert (0 <= block_rows g) by (unfold block_rows; lia).
  destruct (st.1 >=? LINES (scr st.2) - 1); [simpl; lia|].
  pose proof (advances_gpu_block g st) as Hg.
  destruct (gpu_block E server col g st) as [[[]| |e] st1]; simpl in *; try lia.
  specialize (IH st1). lia.
Qed.

End Reach.

(** X17. A host block never reaches further down than its content: the row
    offset it returns is at most the starting offset plus three rows (the
    header and the gap after the rule) plus, for every device, five rows
    and one row per process of the device. *)
Theorem display_gpu_infos_row_bound (E : env) (server : string)
    (gpu_infos : list gpu_info) (col row_offset : Z) (w : world) (r : Z) :
  (display_gpu_infos E server gpu_infos col row_offset w).1 = Ok r ->
  r <= row_offset + 3 + rows_needed gpu_infos.
Proof.
  unfold display_gpu_infos. pose proof (rows_needed_nonneg gpu_infos) as Hn.
  destruct (addstr_at _ _ _ _ _) as [[|] s]; simpl;
    [|intros H; injection H as <-; lia].
  pose proof (gpu_loop_reach E server col gpu_infos (row_offset + 1, set_scr w s)) as Hl.
  destruct (gpu_loop _ _ _ _ _) as [[e|] [row w1]]; simpl in *; [discriminate|].
  intros H. injection H as <-. lia.
Qed.


Lemma display_gpu_infos_row_bound_witness :
  16 <= 0 + 3 + rows_needed two_gpu_records.
Proof.
  apply (display_gpu_infos_row_bound two_gpu_env "10.0.0.1 -p22" two_gpu_records 0 0
           (start_world 24 80) 16).
  vm_compute. reflexivity.
Defined.

(** X18. A host whose fetch times out or exits with a non-zero status is
    shown by its header alone: when the server line is printable (no tab or
    other control character), its block starts inside the window and the
    header ends before the right margin, the row reads [Server: <server>]
    in the column of the host, only the cursor of that column moves, by
    three rows, and the fetch is the only sub-process run and its log entry
    the only one written. *)
Theorem unreachable_host_block (E : env) (col_width : Z) (i : nat) (server : string)
    (offs : Z * Z) (w : world) (inv : invocation) :
  printable server ->
  fetch_invocation E server = Ok inv ->
  handled_failure (check_output E (history w) inv) ->
  in_window (scr w) (offset_of offs i) (column_of col_width i) = true ->
  column_of col_width i + Z.of_nat (String.length (header_text server)) < COLS (scr w) ->
  (poll_host E col_width i server offs w).1
  = Ok (if Nat.even i then (fst offs + 3, snd offs) else (fst offs, snd offs + 3))
  /\ row_text (scr (poll_host E col_width i server offs w).2)
       (offset_of offs i) (column_of col_width i) (String.length (header_text server))
     = header_text server
  /\ history (poll_host E col_width i server offs w).2 = (history w ++ [inv])%list
  /\ length (log (poll_host E col_width i server offs w).2) = S (length (log w)).
Proof.
  intros Hpr Hinv Hfail Hin Hfit.
  destruct (fetch_failed E server w inv Hinv Hfail) as (entry & Hf & _).
  rewrite poll_host_eq, Hf. cbn [get_gpu_infos].
  set (w1 := {| history := (history w ++ [inv])%list;
                log := (log w ++ [entry])%list; scr := scr w |}) in *.
  destruct (display_nil_header E server (column_of col_width i) (offset_of offs i) w1
              Hpr Hin Hfit) as (Hr & Hread & Hh & Hl).
  destruct (display_gpu_infos E server [] (column_of col_width i) (offset_of offs i) w1)
    as [[r|e] w2]; cbn [fst snd] in *; [|discriminate].
  injection Hr as ->. unfold offset_of.
  split; [destruct (Nat.even i); reflexivity|].
  split; [exact Hread|]. split; [exact Hh|].
  rewrite Hl. unfold w1. cbn [log]. rewrite length_app. simpl. lia.
Qed.

Lemma unreachable_host_block_witness :
  (poll_host (failing_env TimeoutExpired) 40 1 "10.0.0.2" (0, 0) (start_world 24 80)).1
  = Ok (if Nat.even 1 then (fst (0, 0) + 3, snd (0, 0)) else (fst (0, 0), snd (0, 0) + 3))
  /\ row_text (scr (poll_host (failing_env TimeoutExpired) 40 1 "10.0.0.2" (0, 0)
                      (start_world 24 80)).2)
       (offset_of (0, 0) 1) (column_of 40 1) (String.length (header_text "10.0.0.2"))
     = header_text "10.0.0.2"
  /\ history (poll_host (failing_env TimeoutExpired) 40 1 "10.0.0.2" (0, 0)
                (start_world 24 80)).2
     = (history (start_world 24 80)
        ++ [Argv ["ssh"; "10.0.0.2"; "timeout 10 nvidia-smi -q -x"] 5])%list
  /\ length (log (poll_host (failing_env TimeoutExpired) 40 1 "10.0.0.2" (0, 0)
                    (start_world 24 80)).2)
     = S (length (log (start_world 24 80))).
Proof.
  apply (unreachable_host_block (failing_env TimeoutExpired) 40 1 "10.0.0.2" (0, 0)
           (start_world 24 80)
           (Argv ["ssh"; "10.0.0.2"; "timeout 10 nvidia-smi -q -x"] 5)).
  - unfold printable. simpl. repeat constructor.
  - reflexivity.
  - left. reflexivity.
  - reflexivity.
  - vm_compute. reflexivity.
Defined.

(** ** Local and remote hosts *)

Lemma lookup_invocation_transport (E : env) (server : string)
    (pids : list (option string)) (inv : invocation) :
  lookup_invocation E server pids = Ok inv ->
  (is_local server = Ok true -> ~ is_ssh inv)
  /\ (is_local server = Ok false -> is_ssh inv).
Proof.
  unfold lookup_invocation.
  destruct (join_pids pids) as [joined|e]; simpl; [|discriminate].
  destruct (is_local server) as [[|]|e]; simpl; [| |discriminate].
  - intros H. injection H as <-. split; [|discriminate].
    intros _ (v & t & Hv). discriminate.
  - destruct (build_ssh_command E server _) as [v|e] eqn:Hb; simpl; [|discriminate].
    intros H. injection H as <-. split; [discriminate|]. intros _.
    apply build_ssh_command_head in Hb as [v' ->]. now exists v', (cmd_timeout (args E)).
Qed.

Lemma fetch_invocation_transport (E : env) (server : string) (inv : invocation) :
  fetch_invocation E server = Ok inv ->
  (is_local server = Ok true -> ~ is_ssh inv)
  /\ (is_local server = Ok false -> is_ssh inv).
Proof.
  unfold fetch_invocation.
  destruct (is_local server) as [[|]|e]; simpl; [| |discriminate].
  - intros H. injection H as <-. split; [|discriminate].
    intros _ (v & t & Hv). discriminate.
  - destruct (build_ssh_command E server _) as [v|e] eqn:Hb; simpl; [|discriminate].
    intros H. injection H as <-. split; [discriminate|]. intros _.
    apply build_ssh_command_head in Hb as [v' ->]. now exists v', (ssh_timeout (args E)).
Qed.

(** X19. The first word of a server line decides the transport for the
    whole turn of the host: for [.], [localhost] or [127.0.0.1] none of the
    sub-processes run is an ssh call, for any other host every one of them
    is. *)
Theorem host_transport (E : env) (col_width : Z) (i : nat) (server : string)
    (offs offs' : Z * Z) (w w' : world) :
  poll_host E col_width i server offs w = (Ok offs', w') ->
  exists new,
    history w' = (history w ++ new)%list
    /\ (is_local server = Ok true -> Forall (fun inv => ~ is_ssh inv) new)
    /\ (is_local server = Ok false -> Forall is_ssh new).
Proof.
  intros H. destruct (poll_host_history E col_width i server offs offs' w w' H)
    as (inv & out & w1 & gpu_infos & r & hs & gs
        & Hinv & _ & _ & _ & _ & _ & Hall & Hh & _).
  exists (inv :: hs). split; [exact Hh|].
  destruct (fetch_invocation_transport E server inv Hinv) as [Hl Hr].
  split; intros Hloc; constructor; auto.
  - clear Hh. induction Hall as [|x g hs' gs' [_ Hx] _ IH]; constructor; [|exact IH].
    now apply (lookup_invocation_transport E server _ x Hx).
  - clear Hh. induction Hall as [|x g hs' gs' [_ Hx] _ IH]; constructor; [|exact IH].
    now apply (lookup_invocation_transport E server _ x Hx).
Qed.

Lemma host_transport_witness :
  exists new,
    history (poll_host sample_env 40 0 "localhost" (0, 0) (start_world 24 80)).2
    = (history (start_world 24 80) ++ new)%list
    /\ (is_local "localhost" = Ok true -> Forall (fun inv => ~ is_ssh inv) new)
    /\ (is_local "localhost" = Ok false -> Forall is_ssh new).
Proof.
  apply (host_transport sample_env 40 0 "localhost" (0, 0) (9, 0) (start_world 24 80)).
  vm_compute. reflexivity.
Defined.
